(** * Navigation confinement guards of the builder-only mode

    A shallow embedding of the three guards of the frontend
    ([RouteBlocker.tsx], [use-prevent-navigation.ts] and
    [BuilderOnlyGuard.tsx]) together with the part of the browser they
    talk to: the session history, the [popstate] listener registry, the
    router location and React's effect discipline. *)

From Stdlib Require Import ZArith Lia Ascii String.
From stdpp Require Import base list strings.

Open Scope string_scope.
Open Scope list_scope.

(** ** Regular expressions

    The fragment of ECMAScript patterns the guards are configured with:
    the assertion [^], literal characters, a negated one-character class,
    sequence, alternation and the quantifiers [*] and [+].  Patterns carry
    no flags, so [test] is a pure function of the string. *)

Module RegExp.

Inductive node : Type :=
| Never
| Eps
| Bol
| Chr (c : ascii)
| NotChr (c : ascii)
| Seq (r1 r2 : node)
| Alt (r1 r2 : node)
| Star (r : node).

Definition Plus (r : node) : node := Seq r (Star r).

(** The terms of an alternative, one after the other. *)
Fixpoint seq (rs : list node) : node :=
  match rs with
  | [] => Eps
  | [r] => r
  | r :: rs' => Seq r (seq rs')
  end.

(** [nullable start r]: [r] matches the empty string at the current
    position; [start] tells whether that position is index 0. *)
Fixpoint nullable (start : bool) (r : node) : bool :=
  match r with
  | Never => false
  | Eps => true
  | Bol => start
  | Chr _ => false
  | NotChr _ => false
  | Seq r1 r2 => nullable start r1 && nullable start r2
  | Alt r1 r2 => nullable start r1 || nullable start r2
  | Star _ => true
  end.

(** [deriv start c r]: what remains to be matched after [r] consumed [c]. *)
Fixpoint deriv (start : bool) (c : ascii) (r : node) : node :=
  match r with
  | Never => Never
  | Eps => Never
  | Bol => Never
  | Chr d => if Ascii.eqb c d then Eps else Never
  | NotChr d => if Ascii.eqb c d then Never else Eps
  | Seq r1 r2 =>
      if nullable start r1
      then Alt (Seq (deriv start c r1) r2) (deriv start c r2)
      else Seq (deriv start c r1) r2
  | Alt r1 r2 => Alt (deriv start c r1) (deriv start c r2)
  | Star r1 => Seq (deriv start c r1) (Star r1)
  end.

(** Some prefix of [s] is matched by [r]. *)
Fixpoint match_at (start : bool) (r : node) (s : string) : bool :=
  nullable start r ||
  match s with
  | EmptyString => false
  | String c s' => match_at false (deriv start c r) s'
  end.

(** Try every start index, from left to right. *)
Fixpoint search (start : bool) (r : node) (s : string) : bool :=
  match_at start r s ||
  match s with
  | EmptyString => false
  | String _ s' => search false r s'
  end.

(** [RegExp.prototype.test]. *)
Definition test (r : node) (s : string) : bool := search true r s.

(** The matcher is checked against the usual reading of patterns:
    [Matches start r s] says that [r] matches the whole of [s], at index 0
    of the subject when [start] is true and further on otherwise. *)
Definition still_at_start (start : bool) (consumed : string) : bool :=
  match consumed with
  | EmptyString => start
  | String _ _ => false
  end.

Inductive Matches : bool → node → string → Prop :=
| MEps start : Matches start Eps ""
| MBol : Matches true Bol ""
| MChr start c : Matches start (Chr c) (String c "")
| MNotChr start c d : c ≠ d → Matches start (NotChr d) (String c "")
| MSeq start r1 r2 s1 s2 :
    Matches start r1 s1 → Matches (still_at_start start s1) r2 s2 →
    Matches start (Seq r1 r2) (s1 +:+ s2)
| MAltL start r1 r2 s : Matches start r1 s → Matches start (Alt r1 r2) s
| MAltR start r1 r2 s : Matches start r2 s → Matches start (Alt r1 r2) s
| MStarNil start r : Matches start (Star r) ""
| MStarCons start r c s1 s2 :
    Matches start r (String c s1) → Matches false (Star r) s2 →
    Matches start (Star r) (String c s1 +:+ s2).

End RegExp.

(** [const ALLOWED_FLOW_PATTERN = /^\/flow\/[^/]+/] *)
Definition ALLOWED_FLOW_PATTERN : RegExp.node :=
  RegExp.seq
    [RegExp.Bol;
     RegExp.Chr "/"; RegExp.Chr "f"; RegExp.Chr "l"; RegExp.Chr "o"; RegExp.Chr "w";
     RegExp.Chr "/";
     RegExp.Plus (RegExp.NotChr "/")].

(** ** The session history

    [window.history] as the HTML standard describes it: a list of entries and
    the index of the current one.  [window.location.pathname] is the path of
    the current entry. *)

Module History.

Record t : Type := mk { entries : list string; index : nat }.

Definition pathname (h : t) : string := default "" (entries h !! index h).

Definition size (h : t) : nat := length (entries h).

(** [history.pushState(null, '', url)]: the entries after the current one
    are dropped, the new entry is appended and becomes current. *)
Definition pushState (url : string) (h : t) : t :=
  {| entries := take (S (index h)) (entries h) ++ [url];
     index := S (index h) |}.

(** [history.replaceState(null, '', url)]: the current entry is overwritten. *)
Definition replaceState (url : string) (h : t) : t :=
  {| entries := <[index h := url]> (entries h); index := index h |}.

(** [history.go(delta)]: moves the index, and does nothing when the target
    is outside of the list. *)
Definition go (delta : Z) (h : t) : t :=
  let target := (Z.of_nat (index h) + delta)%Z in
  if bool_decide (0 ≤ target < Z.of_nat (length (entries h)))%Z
  then {| entries := entries h; index := Z.to_nat target |}
  else h.

Definition wf (h : t) : Prop := index h < length (entries h).

(** The delta of a traversal from [h] to [h'], as the router computes it
    from the indices of the two entries. *)
Definition delta (h h' : t) : Z := Z.of_nat (index h') - Z.of_nat (index h).

End History.

(** ** The host: window, router and React effects

    One event is processed at a time.  The blocker mediates every
    navigation of the router: a push, and also a traversal of the session
    history (back, forward, [history.go]).  A traversal moves the index
    first and is then reported by a popstate notification.  The router's
    listener, registered first, asks the blocker: when it vetoes, the
    router keeps its location and undoes the traversal with
    [history.go(-delta)], ignoring the notification of that traversal;
    otherwise it adopts the new location.  Then the other listeners run,
    and the component renders again when its pathname changed.  A call of
    [history.go] is asynchronous: the window performs it, and reports it,
    after the listeners and the effects have run.

    Every entry of the session history is taken to be one the router
    wrote (the tab was opened on the application), so that the router
    knows the delta of every traversal. *)

(** History commands a guard issues. *)
Inductive Op : Type :=
| PushState (url : string)          (* window.history.pushState(null, '', url) *)
| NavigateReplace (to : string)     (* navigate(to, { replace: true }) *)
| NavigateDelta (delta : Z).        (* navigate(delta) *)

(** A [popstate] listener of the window: one of the application's own, or a
    [handlePopState] closure of a guard, with its identity and the path its
    closure holds. *)
Inductive Listener : Type :=
| Foreign (n : nat)
| HandlePopState (id : nat) (captured : string).

Definition is_handler (id : nat) (l : Listener) : bool :=
  match l with
  | Foreign _ => false
  | HandlePopState id' _ => Nat.eqb id id'
  end.

Definition is_guard_listener (l : Listener) : bool :=
  match l with
  | Foreign _ => false
  | HandlePopState _ _ => true
  end.

(** [R] is the type of the component's refs. *)
Record World (R : Type) : Type := mkWorld {
  history : History.t;          (* window.history, window.location *)
  router : string;              (* pathname of the router's location *)
  location : string;            (* useLocation().pathname at the last commit *)
  listeners : list Listener;    (* popstate listeners, in registration order *)
  next_id : nat;                (* allocator of closure identities *)
  cleanup : option nat;         (* the handler the pending effect cleanup removes *)
  issued : list Op;             (* history commands issued by the guard so far *)
  pending : list (Z * bool);    (* history.go calls the window has yet to perform;
                                   true: the router ignores the notification *)
  refs : R
}.

Arguments mkWorld {R}.
Arguments history {R}.
Arguments router {R}.
Arguments location {R}.
Arguments listeners {R}.
Arguments next_id {R}.
Arguments cleanup {R}.
Arguments issued {R}.
Arguments pending {R}.
Arguments refs {R}.

Section Host.
Context {R : Type}.
Implicit Type w : World R.

Definition set_history (h : History.t) w : World R :=
  mkWorld h (router w) (location w) (listeners w) (next_id w) (cleanup w) (issued w)
    (pending w) (refs w).
Definition set_router (p : string) w : World R :=
  mkWorld (history w) p (location w) (listeners w) (next_id w) (cleanup w) (issued w)
    (pending w) (refs w).
Definition set_location (p : string) w : World R :=
  mkWorld (history w) (router w) p (listeners w) (next_id w) (cleanup w) (issued w)
    (pending w) (refs w).
Definition set_listeners (ls : list Listener) w : World R :=
  mkWorld (history w) (router w) (location w) ls (next_id w) (cleanup w) (issued w)
    (pending w) (refs w).
Definition set_next_id (n : nat) w : World R :=
  mkWorld (history w) (router w) (location w) (listeners w) n (cleanup w) (issued w)
    (pending w) (refs w).
Definition set_cleanup (c : option nat) w : World R :=
  mkWorld (history w) (router w) (location w) (listeners w) (next_id w) c (issued w)
    (pending w) (refs w).
Definition set_issued (o : list Op) w : World R :=
  mkWorld (history w) (router w) (location w) (listeners w) (next_id w) (cleanup w) o
    (pending w) (refs w).
Definition set_pending (p : list (Z * bool)) w : World R :=
  mkWorld (history w) (router w) (location w) (listeners w) (next_id w) (cleanup w) (issued w)
    p (refs w).
Definition set_refs (r : R) w : World R :=
  mkWorld (history w) (router w) (location w) (listeners w) (next_id w) (cleanup w) (issued w)
    (pending w) r.

(** [window.location.pathname] *)
Definition window_pathname w : string := History.pathname (history w).

(** [window.history.pushState(null, '', url)], called on the window
    directly: the router does not see it. *)
Definition window_pushState (url : string) w : World R :=
  set_issued (issued w ++ [PushState url])
    (set_history (History.pushState url (history w)) w).

(** [navigate(to, { replace: true })]: the router overwrites the current
    history entry and takes [to] as its location. *)
Definition navigate_replace (to : string) w : World R :=
  set_issued (issued w ++ [NavigateReplace to])
    (set_router to (set_history (History.replaceState to (history w)) w)).

(** [history.go(delta)]: the window performs the traversal later.
    [ignored] is set by the router for the traversal whose notification it
    ignores ([ignoreNextHistoryUpdate]). *)
Definition queue_go (delta : Z) (ignored : bool) w : World R :=
  set_pending (pending w ++ [(delta, ignored)]) w.

(** [navigate(delta)]: the router calls [history.go(delta)]. *)
Definition navigate_delta (delta : Z) w : World R :=
  set_issued (issued w ++ [NavigateDelta delta]) (queue_go delta false w).

(** [window.addEventListener("popstate", handlePopState)] *)
Definition addEventListener (id : nat) (captured : string) w : World R :=
  set_listeners (listeners w ++ [HandlePopState id captured]) w.

(** [window.removeEventListener("popstate", handlePopState)] *)
Definition removeEventListener (id : nat) w : World R :=
  set_listeners (filter (λ l, is_handler id l = false) (listeners w)) w.

(** Assignment to the variable a [handlePopState] closure holds. *)
Definition set_captured (id : nat) (p : string) w : World R :=
  set_listeners
    (map (λ l, if is_handler id l then HandlePopState id p else l) (listeners w)) w.

(** React runs the cleanup the last run of the effect returned, if any. *)
Definition run_cleanup w : World R :=
  match cleanup w with
  | Some id => set_cleanup None (removeEventListener id w)
  | None => w
  end.

(** The window calls the listeners registered when the event is fired. *)
Definition dispatch_popstate (handle : nat → string → World R → World R) w : World R :=
  foldl (λ w l, match l with
                | Foreign _ => w
                | HandlePopState id captured => handle id captured w
                end) w (listeners w).

(** The router adopts the window's location. *)
Definition router_sync w : World R := set_router (window_pathname w) w.

(** The router's own popstate listener, registered before any component
    mounts.  It ignores the notification of its own undo; it asks the
    blocker about the move from its location to the window's, and on a
    veto keeps its location and calls [history.go(-delta)]; otherwise it
    adopts the window's location. *)
Definition router_popstate (blocker : string → string → bool)
    (ignored : bool) (delta : Z) w : World R :=
  if ignored then w
  else if blocker (router w) (window_pathname w)
  then queue_go (- delta) true w
  else router_sync w.

(** The component renders again when the router location differs from the
    one of its last commit; the effects, all keyed on the pathname, run
    again ([commit]). *)
Definition render (commit : World R → World R) w : World R :=
  if String.eqb (router w) (location w) then w
  else commit (set_location (router w) w).

(** A popstate notification: the history has moved by [delta], the window
    calls the router's listener and then the others, and the component
    renders. *)
Definition popstate_event (blocker : string → string → bool)
    (handle : nat → string → World R → World R)
    (settle : World R → World R) (ignored : bool) (delta : Z) w : World R :=
  settle (dispatch_popstate handle (router_popstate blocker ignored delta w)).

(** The window performs a [history.go(delta)]: nothing happens when there
    is no such entry; otherwise the index moves and popstate is fired. *)
Definition traverse (blocker : string → string → bool)
    (handle : nat → string → World R → World R)
    (settle : World R → World R) (go : Z * bool) w : World R :=
  let h := History.go (fst go) (history w) in
  if Nat.eqb (History.index h) (History.index (history w)) then w
  else popstate_event blocker handle settle (snd go)
         (History.delta (history w) h) (set_history h w).

(** The window performs the traversals asked for, one after the other;
    each may ask for more. *)
Fixpoint drain (blocker : string → string → bool)
    (handle : nat → string → World R → World R)
    (settle : World R → World R) (fuel : nat) w : World R :=
  match fuel, pending w with
  | S fuel, go :: rest =>
      drain blocker handle settle fuel
        (traverse blocker handle settle go (set_pending rest w))
  | _, _ => w
  end.

(** A bound on the traversals that follow one another: each of those the
    guards ask for takes a step back. *)
Definition patience w : nat := length (pending w) + History.index (history w).

(** The event is over when the window has nothing left to perform. *)
Definition idle (blocker : string → string → bool)
    (handle : nat → string → World R → World R)
    (settle : World R → World R) w : World R :=
  drain blocker handle settle (patience w) w.

(** An in-app navigation to [to]: the router asks the blocker, and commits a
    push when it does not veto. *)
Definition navigate_push (blocker : string → string → bool)
    (settle : World R → World R) (to : string) w : World R :=
  if blocker (router w) to then w
  else settle (set_router to (set_history (History.pushState to (history w)) w)).

Definition guard_listeners w : list Listener :=
  filter (λ l, is_guard_listener l = true) (listeners w).

Definition foreign_listeners w : list Listener :=
  filter (λ l, is_guard_listener l = false) (listeners w).

(** The commands the guard issued on the way from [w] to [w']. *)
Definition corrections w (w' : World R) : list Op :=
  drop (length (issued w)) (issued w').

End Host.

(** What the environment does to a mounted guard.  A [Traverse] is a
    popstate notification with the move that caused it: the index has
    moved by [delta] when there is such an entry, and has not moved
    otherwise (the listeners read the window's location, not the event). *)
Inductive Event : Type :=
| Traverse (delta : Z)     (* back, forward, history.go: the index moves, popstate fires *)
| Navigate (to : string).  (* navigation through the router *)

(** A console.warn call: the message and the paths logged with it. *)
Record Warning : Type := mkWarning {
  message : string;
  attempted : option string;
  current : string
}.

(** The blocker object [useBlocker] returns. *)
Inductive Blocker : Type :=
| Unblocked
| Blocked (location : string).

(** The state a guard is mounted into: none of its handlers is registered,
    no cleanup is pending, the router shows the current history entry, the
    guard has issued nothing yet and the window has no traversal to
    perform. *)
Definition initial {R : Type} (w : World R) : Prop :=
  guard_listeners w = [] ∧ cleanup w = None ∧ History.wf (history w) ∧
  router w = window_pathname w ∧ issued w = [] ∧ pending w = [].

(** The application boots on entry [index] of the session history
    [entries]; one popstate listener of the rest of the application is
    registered. *)
Definition boot {R : Type} (entries : list string) (index : nat) (r : R) : World R :=
  let h := History.mk entries index in
  mkWorld h (History.pathname h) "" [Foreign 0] 0 None [] [] r.

(** What holds of a mounted guard between two events: the only handler of
    the guard in the registry is the one its pending cleanup removes, it
    holds the rendered pathname, and it is there exactly when the guard is
    enabled on a matching location. *)
Record guard_inv {R : Type} (enabled : bool) (pat : RegExp.node) (w : World R) : Prop := {
  inv_listeners :
    guard_listeners w =
    match cleanup w with
    | Some id => [HandlePopState id (location w)]
    | None => []
    end;
  inv_armed :
    is_Some (cleanup w) ↔ enabled = true ∧ RegExp.test pat (location w) = true;
  inv_wf : History.wf (history w);
  inv_router : router w = location w
}.

(** Between two events the window has performed every traversal asked
    for, and it shows the location the guard has rendered. *)
Record at_rest {R : Type} (w : World R) : Prop := {
  rest_pending : pending w = [];
  rest_visible : window_pathname w = location w
}.

(** Consecutive out-of-band attempts, each of which lands on a location
    outside of the pattern. *)
Fixpoint blocked_attempts {R : Type} (step : Event → World R → World R)
    (pat : RegExp.node) (ds : list Z) (w : World R) : Prop :=
  match ds with
  | [] => True
  | d :: ds' =>
      RegExp.test pat (History.pathname (History.go d (history w))) = false ∧
      blocked_attempts step pat ds' (step (Traverse d) w)
  end.

Definition is_replace (o : Op) : bool :=
  match o with
  | NavigateReplace _ => true
  | _ => false
  end.

(** ** RouteBlocker.tsx *)

Module RouteBlocker.
Section RouteBlocker.

Variable enabled : bool.
Variable allowedPattern : RegExp.node.
Variable NODE_ENV : string.

(** The callback given to [useBlocker]. *)
Definition blocker (currentLocation nextLocation : string) : bool :=
  if negb enabled then false
  else
    let currentPath := currentLocation in
    let nextPath := nextLocation in
    let isCurrentValid := RegExp.test allowedPattern currentPath in
    let isNextValid := RegExp.test allowedPattern nextPath in
    isCurrentValid && negb isNextValid.

(** The router blocks the transition when the callback returns true. *)
Definition useBlocker (currentLocation nextLocation : string) : Blocker :=
  if blocker currentLocation nextLocation then Blocked nextLocation else Unblocked.

(** The logging effect. *)
Definition log_effect (b : Blocker) (location_pathname : string) : list Warning :=
  match b with
  | Blocked attempted_location =>
      if String.eqb NODE_ENV "development"
      then [mkWarning "[RouteBlocker] Navigation blocked. Builder-only mode is enabled."
              (Some attempted_location) location_pathname]
      else []
  | Unblocked => []
  end.

(** One proposed in-app transition: the decision the router receives and
    what the render that follows writes to the console. *)
Definition transition (currentLocation nextLocation : string) : bool * list Warning :=
  (blocker currentLocation nextLocation,
   log_effect (useBlocker currentLocation nextLocation) currentLocation).

Definition handlePopState (id : nat) (location_pathname : string)
    (w : World unit) : World unit :=
  let newPath := window_pathname w in
  if negb (RegExp.test allowedPattern newPath)
  then navigate_replace location_pathname w
  else w.

(** The effect "Handle browser back/forward navigation". *)
Definition popstate_effect (w : World unit) : World unit :=
  if negb enabled then w
  else
    let isCurrentValid := RegExp.test allowedPattern (location w) in
    if negb isCurrentValid then w
    else
      let handlePopState := next_id w in
      set_cleanup (Some handlePopState)
        (addEventListener handlePopState (location w)
           (set_next_id (S (next_id w)) w)).

Definition commit (w : World unit) : World unit := popstate_effect (run_cleanup w).

Definition settle (w : World unit) : World unit := render commit w.

Definition mount (w : World unit) : World unit := commit (set_location (router w) w).

Definition unmount (w : World unit) : World unit := run_cleanup w.

Definition step (e : Event) (w : World unit) : World unit :=
  idle blocker handlePopState settle
    match e with
    | Traverse delta =>
        let h := History.go delta (history w) in
        popstate_event blocker handlePopState settle false
          (History.delta (history w) h) (set_history h w)
    | Navigate to => navigate_push blocker settle to w
    end.

Definition run (es : list Event) (w : World unit) : World unit :=
  foldl (λ w e, step e w) w es.

Definition reachable (w : World unit) : Prop :=
  ∃ w0 es, initial w0 ∧ w = run es (mount w0).

End RouteBlocker.
End RouteBlocker.

(** ** use-prevent-navigation.ts *)

Module UsePreventNavigation.
Section UsePreventNavigation.

Variable enabled : bool.
Variable allowedPattern : RegExp.node.

(** [captured] is the closure's variable [currentPath]. *)
Definition handlePopState (id : nat) (currentPath : string)
    (w : World unit) : World unit :=
  let newPath := window_pathname w in
  if negb (RegExp.test allowedPattern newPath)
  then navigate_replace currentPath (window_pushState currentPath w)
  else set_captured id newPath w.

Definition effect (w : World unit) : World unit :=
  if negb enabled then w
  else
    let currentPath := location w in
    let isCurrentPathValid := RegExp.test allowedPattern currentPath in
    if negb isCurrentPathValid then w
    else
      let handlePopState := next_id w in
      set_cleanup (Some handlePopState)
        (addEventListener handlePopState currentPath
           (window_pushState currentPath
              (set_next_id (S (next_id w)) w))).

Definition commit (w : World unit) : World unit := effect (run_cleanup w).

Definition settle (w : World unit) : World unit := render commit w.

Definition mount (w : World unit) : World unit := commit (set_location (router w) w).

Definition unmount (w : World unit) : World unit := run_cleanup w.

(** The hook installs no blocker and never calls [history.go]: the window
    is left with no traversal to perform. *)
Definition step (e : Event) (w : World unit) : World unit :=
  match e with
  | Traverse delta =>
      let h := History.go delta (history w) in
      popstate_event (λ _ _, false) handlePopState settle false
        (History.delta (history w) h) (set_history h w)
  | Navigate to => navigate_push (λ _ _, false) settle to w
  end.

Definition run (es : list Event) (w : World unit) : World unit :=
  foldl (λ w e, step e w) w es.

Definition reachable (w : World unit) : Prop :=
  ∃ w0 es, initial w0 ∧ w = run es (mount w0).

(** Between two events: the common invariant, and while the handler is
    registered the newest history entry matches the pattern. *)
Record inv (w : World unit) : Prop := {
  upn_guard : guard_inv enabled allowedPattern w;
  upn_newest :
    is_Some (cleanup w) →
    ∃ p, last (History.entries (history w)) = Some p ∧
         RegExp.test allowedPattern p = true
}.

End UsePreventNavigation.
End UsePreventNavigation.

(** ** BuilderOnlyGuard.tsx *)

Module BuilderOnlyGuard.

(** The guard's ref is [lastValidFlowRoute.current]: [None] is [null]. *)
Definition Guard : Type := World (option string).

Abbreviation lastValidFlowRoute := (@refs (option string)).

Section BuilderOnlyGuard.

(** The flag of [customization/feature-flags.ts]. *)
Variable ENABLE_BUILDER_ONLY_MODE : bool.

(** JavaScript truthiness of a [string | null]. *)
Definition truthy (v : option string) : bool :=
  match v with
  | Some s => negb (String.eqb s "")
  | None => false
  end.

(** The effect "Track the last valid flow route". *)
Definition tracking_effect (w : Guard) : Guard :=
  let currentPath := location w in
  let isCurrentValid := RegExp.test ALLOWED_FLOW_PATTERN currentPath in
  if isCurrentValid then set_refs (Some currentPath) w else w.

(** The effect "Block rendering of non-flow routes". *)
Definition correction_effect (w : Guard) : Guard :=
  let currentPath := location w in
  let isCurrentValid := RegExp.test ALLOWED_FLOW_PATTERN currentPath in
  if ENABLE_BUILDER_ONLY_MODE && negb isCurrentValid
  then
    if truthy (lastValidFlowRoute w)
    then navigate_replace (default "" (lastValidFlowRoute w)) w
    else navigate_delta (-1) w
  else w.

(** The callback given to [useBlocker]. *)
Definition blocker (currentLocation nextLocation : string) : bool :=
  if negb ENABLE_BUILDER_ONLY_MODE then false
  else
    let currentPath := currentLocation in
    let nextPath := nextLocation in
    let isCurrentValid := RegExp.test ALLOWED_FLOW_PATTERN currentPath in
    let isNextValid := RegExp.test ALLOWED_FLOW_PATTERN nextPath in
    isCurrentValid && negb isNextValid.

Definition handlePopState (id : nat) (location_pathname : string)
    (w : Guard) : Guard :=
  let newPath := window_pathname w in
  if negb (RegExp.test ALLOWED_FLOW_PATTERN newPath)
  then navigate_replace location_pathname w
  else w.

(** The effect "Handle browser back/forward navigation". *)
Definition popstate_effect (w : Guard) : Guard :=
  if negb ENABLE_BUILDER_ONLY_MODE then w
  else
    let isCurrentValid := RegExp.test ALLOWED_FLOW_PATTERN (location w) in
    if negb isCurrentValid then w
    else
      let handlePopState := next_id w in
      set_cleanup (Some handlePopState)
        (addEventListener handlePopState (location w)
           (set_next_id (S (next_id w)) w)).

(** A commit whose pathname changed: the cleanup of the last run, then the
    effects in the order the component declares them. *)
Definition commit (w : Guard) : Guard :=
  popstate_effect (correction_effect (tracking_effect (run_cleanup w))).

(** A corrective [navigate] of the second effect changes the router
    location and so causes one more render. *)
Definition settle (w : Guard) : Guard := render commit (render commit w).

Definition mount (w : Guard) : Guard :=
  idle blocker handlePopState settle (settle (commit (set_location (router w) w))).

Definition unmount (w : Guard) : Guard := run_cleanup w.

Definition step (e : Event) (w : Guard) : Guard :=
  idle blocker handlePopState settle
    match e with
    | Traverse delta =>
        let h := History.go delta (history w) in
        popstate_event blocker handlePopState settle false
          (History.delta (history w) h) (set_history h w)
    | Navigate to => navigate_push blocker settle to w
    end.

Definition run (es : list Event) (w : Guard) : Guard :=
  foldl (λ w e, step e w) w es.

Definition reachable (w : Guard) : Prop :=
  ∃ w0 es, initial w0 ∧ refs w0 = None ∧ w = run es (mount w0).

(** After every commit, also while the window has a step back left to
    perform: the common invariant, the window shows the rendered location,
    and the ref holds the rendered location when it matches, a matching
    location in any case, and nothing while an enabled guard renders a
    location that does not match. *)
Record inv (w : Guard) : Prop := {
  bog_guard : guard_inv ENABLE_BUILDER_ONLY_MODE ALLOWED_FLOW_PATTERN w;
  bog_visible : window_pathname w = location w;
  bog_tracked :
    RegExp.test ALLOWED_FLOW_PATTERN (location w) = true →
    refs w = Some (location w);
  bog_untracked :
    ENABLE_BUILDER_ONLY_MODE = true →
    RegExp.test ALLOWED_FLOW_PATTERN (location w) = false →
    refs w = None;
  bog_valid :
    ∀ l, refs w = Some l → RegExp.test ALLOWED_FLOW_PATTERN l = true
}.

(** The tracking effect run at the locations [ps], one render after the
    other. *)
Definition track_all (ps : list string) (w : Guard) : Guard :=
  foldl (λ w p, tracking_effect (set_location p w)) w ps.

End BuilderOnlyGuard.
End BuilderOnlyGuard.


(** The history an event produces when no guard is mounted: a traversal
    moves the index, a navigation through the router pushes an entry. *)
Definition unguarded (h : History.t) (e : Event) : History.t :=
  match e with
  | Traverse delta => History.go delta h
  | Navigate to => History.pushState to h
  end.

(** ** customization/config-constants.ts *)

Module ConfigConstants.

(** [import.meta.env]: [None] when [typeof import.meta.env] is
    ['undefined'], the object otherwise; a variable the build does not
    define reads as [None] (undefined), one defined empty as [Some ""]. *)
Definition Env : Type := option (string → option string).

Definition DEFAULT_AGENT_API_KEY (import_meta_env : Env) : string :=
  match import_meta_env with
  | Some env => default "sk-default-api-key" (env "VITE_DEFAULT_AGENT_API_KEY")
  | None => "sk-default-api-key"
  end.

Definition DEFAULT_AGENT_LLM_PROVIDER (import_meta_env : Env) : string :=
  match import_meta_env with
  | Some env => default "OpenAI" (env "VITE_DEFAULT_AGENT_LLM_PROVIDER")
  | None => "OpenAI"
  end.

Definition DEFAULT_AGENT_MODEL_NAME (import_meta_env : Env) : string :=
  match import_meta_env with
  | Some env => default "gpt-4o-mini" (env "VITE_DEFAULT_AGENT_MODEL_NAME")
  | None => "gpt-4o-mini"
  end.

End ConfigConstants.

(** ** CustomNodes/GenericNode/components/RenderInputParameters/index.tsx

    The field objects of a template live in a store of objects: the spread
    [{ ...data.node.template }] copies the bindings of the template, not
    the objects they are bound to, so that a write through the copy is a
    write to the node of the flow store.  The memoized values are modelled
    as they are when computed from the current node. *)

Module RenderInputParameters.

(** A JavaScript value; [JObject r] is a reference to the object at [r].
    Numbers are integers here (no NaN). *)
Inductive JsValue : Type :=
| JUndefined
| JNull
| JBool (b : bool)
| JNumber (n : Z)
| JString (s : string)
| JObject (r : nat).

Definition truthy (v : JsValue) : bool :=
  match v with
  | JUndefined | JNull => false
  | JBool b => b
  | JNumber n => negb (n =? 0)%Z
  | JString s => negb (String.eqb s "")
  | JObject _ => true
  end.

(** The properties of a field object ([InputFieldType]) the component
    reads; for [show], [advanced] and [tool_mode], whether the property is
    truthy. *)
Record InputField : Type := mkField {
  value : JsValue;
  show : bool;
  advanced : bool;
  tool_mode : bool;
  input_types : option (list string);
  type : string
}.

Definition Heap : Type := nat → InputField.

(** An object as the list of its own keys, in the order [Object.keys]
    enumerates them, with the values they are bound to. *)
Definition Template : Type := list (string * JsValue).

Record APIClass : Type := mkNode {
  display_name : string;
  template : Template
}.

Record NodeData : Type := mkData {
  id : string;
  node : option APIClass
}.

(** [t[k]] *)
Fixpoint get (t : Template) (k : string) : JsValue :=
  match t with
  | [] => JUndefined
  | (k', v) :: t' => if String.eqb k k' then v else get t' k
  end.

(** [Object.keys(t)] *)
Definition keys (t : Template) : list string := map fst t.

(** [o.value = v] on the object at [r] *)
Definition write (r : nat) (v : JsValue) (heap : Heap) : Heap :=
  λ r', if Nat.eqb r' r
        then mkField v (show (heap r')) (advanced (heap r')) (tool_mode (heap r'))
               (input_types (heap r')) (type (heap r'))
        else heap r'.

(** [s.charAt(i)] *)
Definition charAt (s : string) (i : nat) : string :=
  match String.get i s with
  | Some c => String c EmptyString
  | None => ""
  end.

(** [template?.p] as a condition: undefined on undefined, on null and on
    a primitive. *)
Definition property (p : InputField → bool) (heap : Heap) (template : JsValue) : bool :=
  match template with
  | JObject r => p (heap r)
  | _ => false
  end.

(** [template.input_types] and [template.type] of a truthy [template]. *)
Definition input_types_of (heap : Heap) (template : JsValue) : option (list string) :=
  match template with
  | JObject r => input_types (heap r)
  | _ => None
  end.

Definition type_of (heap : Heap) (template : JsValue) : option string :=
  match template with
  | JObject r => Some (type (heap r))
  | _ => None
  end.

(** A [Map] with string keys, in insertion order. *)
Fixpoint map_set {V : Type} (k : string) (v : V) (m : list (string * V)) : list (string * V) :=
  match m with
  | [] => [(k, v)]
  | (k', v') :: m' => if String.eqb k k' then (k, v) :: m' else (k', v') :: map_set k v m'
  end.

Fixpoint map_get {V : Type} (k : string) (m : list (string * V)) : option V :=
  match m with
  | [] => None
  | (k', v) :: m' => if String.eqb k k' then Some v else map_get k m'
  end.

(** The helpers the component imports: their results are opaque here.
    [sort] is [Array.prototype.sort] with the comparator built from
    [sortToolModeFields], the template, the field order and [isToolMode]. *)
Record Helpers : Type := mkHelpers {
  Colors : Type;
  ColorsName : Type;
  Key : Type;
  getNodeInputColors : option (list string) → option string → Colors;
  getNodeInputColorsName : option (list string) → option string → ColorsName;
  scapedJSONStringfy : option (list string) → option string → string → string → Key;
  sort : NodeData → Heap → bool → list string → list string
}.

Record ColorEntry (helpers : Helpers) : Type := mkColorEntry {
  colors : Colors helpers;
  colorsName : ColorsName helpers
}.

Arguments mkColorEntry {helpers}.
Arguments colors {helpers}.
Arguments colorsName {helpers}.

(** The props of a [NodeInputField] that do not merely copy a property of
    the field object. *)
Record Props (helpers : Helpers) : Type := mkProps {
  lastInput : bool;
  key : option (Key helpers);
  name : string;
  props_colors : Colors helpers;
  colorName : ColorsName helpers;
  props_isToolMode : bool
}.

Arguments mkProps {helpers}.
Arguments lastInput {helpers}.
Arguments key {helpers}.
Arguments name {helpers}.
Arguments props_colors {helpers}.
Arguments colorName {helpers}.
Arguments props_isToolMode {helpers}.

Section RenderInputParameters.

Variable ENABLE_BUILDER_ONLY_MODE : bool.
Variable import_meta_env : ConfigConstants.Env.
Variable helpers : Helpers.

(** [data.node?.display_name === "Agent"] *)
Definition is_agent (data : NodeData) : bool :=
  match node data with
  | Some n => String.eqb (display_name n) "Agent"
  | None => false
  end.

(** [if (updatedTemplate.f && !updatedTemplate.f.value)
      { updatedTemplate.f.value = dflt; hasChanges = true }].
    [None] is the TypeError of the assignment when [updatedTemplate.f] is a
    truthy primitive (the module is in strict mode). *)
Definition set_default (updatedTemplate : Template) (f dflt : string)
    (st : Heap * bool) : option (Heap * bool) :=
  match get updatedTemplate f with
  | JObject r =>
      if negb (truthy (value (fst st r)))
      then Some (write r (JString dflt) (fst st), true)
      else Some st
  | v => if truthy v then None else Some st
  end.

(** The effect "Set default values for hidden Agent fields in builder-only
    mode": the store it leaves and the [setNode] call it makes, if any. *)
Definition agent_defaults_effect (data : NodeData) (heap : Heap)
    : option (Heap * option (string * APIClass)) :=
  match node data with
  | Some data_node =>
      if ENABLE_BUILDER_ONLY_MODE && is_agent data
      then
        let updatedTemplate := template data_node in
        st ← set_default updatedTemplate "api_key"
               (ConfigConstants.DEFAULT_AGENT_API_KEY import_meta_env) (heap, false);
        st ← set_default updatedTemplate "agent_llm"
               (ConfigConstants.DEFAULT_AGENT_LLM_PROVIDER import_meta_env) st;
        '(heap', hasChanges) ←
          set_default updatedTemplate "model_name"
            (ConfigConstants.DEFAULT_AGENT_MODEL_NAME import_meta_env) st;
        if hasChanges : bool
        then
          let updatedNode := mkNode (display_name data_node) updatedTemplate in
          Some (heap', Some (id data, updatedNode))
        else Some (heap', None)
      else Some (heap, None)
  | None => Some (heap, None)
  end.

(** The effect run [n] times on the same node, as long as it does not
    throw; the result of the last run. *)
Fixpoint agent_defaults_runs (n : nat) (data : NodeData) (heap : Heap)
    : option (Heap * option (string * APIClass)) :=
  match n with
  | 0 => agent_defaults_effect data heap
  | S n =>
      match agent_defaults_effect data heap with
      | Some (heap', _) => agent_defaults_runs n data heap'
      | None => None
      end
  end.

(** [data.node?.template[templateField]] *)
Definition template_of (data : NodeData) (templateField : string) : JsValue :=
  match node data with
  | Some data_node => get (template data_node) templateField
  | None => JUndefined
  end.

Definition templateFields (isToolMode : bool) (data : NodeData) (heap : Heap)
    : list string :=
  sort helpers data heap isToolMode
    (filter (λ templateField, String.eqb (charAt templateField 0) "_" = false)
       (keys (match node data with Some data_node => template data_node | None => [] end))).

(** The callback of the filter of [shownTemplateFields]. *)
Definition is_shown (isToolMode : bool) (data : NodeData) (heap : Heap)
    (templateField : string) : bool :=
  let template := template_of data templateField in
  if ENABLE_BUILDER_ONLY_MODE && is_agent data &&
     (String.eqb templateField "agent_llm" || String.eqb templateField "api_key" ||
      String.eqb templateField "model_name")
  then false
  else
    property show heap template &&
    negb (property advanced heap template) &&
    negb (property tool_mode heap template && isToolMode).

Definition shownTemplateFields (isToolMode : bool) (data : NodeData) (heap : Heap)
    : list string :=
  filter (λ templateField, is_shown isToolMode data heap templateField = true)
    (templateFields isToolMode data heap).

Definition memoizedColors (isToolMode : bool) (data : NodeData) (heap : Heap)
    : list (string * ColorEntry helpers) :=
  foldl (λ colorMap templateField,
           let template := template_of data templateField in
           if truthy template
           then map_set templateField
                  (mkColorEntry
                     (getNodeInputColors helpers
                        (input_types_of heap template) (type_of heap template))
                     (getNodeInputColorsName helpers
                        (input_types_of heap template) (type_of heap template)))
                  colorMap
           else colorMap)
    [] (templateFields isToolMode data heap).

(** The [proxy] of the field, which this model does not hold, goes into
    the key as well. *)
Definition memoizedKeys (isToolMode : bool) (data : NodeData) (heap : Heap)
    : list (string * Key helpers) :=
  foldl (λ keyMap templateField,
           let template := template_of data templateField in
           if truthy template
           then map_set templateField
                  (scapedJSONStringfy helpers
                     (input_types_of heap template) (type_of heap template)
                     (id data) templateField)
                  keyMap
           else keyMap)
    [] (templateFields isToolMode data heap).

(** The callback of the map of [renderInputParameter]; [None] is the
    TypeError of [memoizedColor.colors] on an undefined [memoizedColor], or
    of [template.info] on an undefined or null [template]. *)
Definition renderField {Output : Type} (isToolMode : bool)
    (shownOutputs : list Output) (showHiddenOutputs : bool)
    (data : NodeData) (heap : Heap) (templateField : string) (idx : nat)
    : option (Props helpers) :=
  let template := template_of data templateField in
  let memoizedColor := map_get templateField (memoizedColors isToolMode data heap) in
  let memoizedKey := map_get templateField (memoizedKeys isToolMode data heap) in
  match memoizedColor with
  | None => None
  | Some memoizedColor =>
      match template with
      | JUndefined | JNull => None
      | _ =>
          Some (mkProps
                  (negb (Nat.ltb 0 (length shownOutputs) || showHiddenOutputs) &&
                   (Z.of_nat idx =?
                    Z.of_nat (length (shownTemplateFields isToolMode data heap)) - 1)%Z)
                  memoizedKey
                  templateField
                  (colors memoizedColor)
                  (colorsName memoizedColor)
                  (isToolMode && property tool_mode heap template))
      end
  end.

(** [fields.map(callback)] from index [idx] on. *)
Fixpoint renderFrom {Output : Type} (isToolMode : bool)
    (shownOutputs : list Output) (showHiddenOutputs : bool)
    (data : NodeData) (heap : Heap) (idx : nat) (fields : list string)
    : option (list (Props helpers)) :=
  match fields with
  | [] => Some []
  | templateField :: fields =>
      match renderField isToolMode shownOutputs showHiddenOutputs data heap templateField idx,
            renderFrom isToolMode shownOutputs showHiddenOutputs data heap (S idx) fields with
      | Some p, Some ps => Some (p :: ps)
      | _, _ => None
      end
  end.

Definition renderInputParameter {Output : Type} (isToolMode : bool)
    (shownOutputs : list Output) (showHiddenOutputs : bool)
    (data : NodeData) (heap : Heap) : option (list (Props helpers)) :=
  renderFrom isToolMode shownOutputs showHiddenOutputs data heap 0
    (shownTemplateFields isToolMode data heap).

End RenderInputParameters.

(** The names of the fields of an Agent node that builder-only mode hides
    and fills. *)
Definition hidden_agent_fields : list string := ["agent_llm"; "api_key"; "model_name"].

End RenderInputParameters.
(** * Proofs *)

Arguments RegExp.test : simpl never.
Arguments History.go : simpl never.

(** ** The pattern matcher *)

Section RegExpFacts.
Import RegExp.

Lemma match_at_Never_Seq b r s : match_at b (Seq Never r) s = false.
Proof. revert b. induction s as [|c s IH]; intros b; simpl; [done|]. apply IH. Qed.

Lemma match_at_Alt b r1 r2 s :
  match_at b (Alt r1 r2) s = match_at b r1 s || match_at b r2 s.
Proof.
  revert b r1 r2. induction s as [|c s IH]; intros b r1 r2; simpl.
  - by rewrite !orb_false_r.
  - rewrite IH. destruct (nullable b r1), (nullable b r2); simpl; try done.
    by rewrite orb_true_r.
Qed.

Lemma match_at_Eps_Seq b r s : match_at b (Seq Eps r) s = match_at b r s.
Proof.
  destruct s as [|c s]; simpl; [by rewrite orb_false_r|].
  by rewrite match_at_Alt, match_at_Never_Seq.
Qed.

Lemma match_at_Chr_Seq b d r s :
  match_at b (Seq (Chr d) r) s =
  match s with
  | EmptyString => false
  | String c s' => Ascii.eqb c d && match_at false r s'
  end.
Proof.
  destruct s as [|c s]; simpl; [done|].
  destruct (Ascii.eqb c d); simpl.
  - apply match_at_Eps_Seq.
  - apply match_at_Never_Seq.
Qed.

Lemma match_at_NotChr_Plus b d s :
  match_at b (Plus (NotChr d)) s =
  match s with
  | EmptyString => false
  | String c s' => negb (Ascii.eqb c d)
  end.
Proof.
  destruct s as [|c s]; simpl; [done|].
  destruct (Ascii.eqb c d); simpl.
  - apply match_at_Never_Seq.
  - rewrite match_at_Eps_Seq. by destruct s.
Qed.

(** A pattern that opens with [^] matches at index 0 or nowhere. *)
Lemma search_Bol_Seq_later r s : search false (Seq Bol r) s = false.
Proof.
  induction s as [|c s IH]; [done|].
  cbn [search]. rewrite IH, orb_false_r. simpl. apply match_at_Never_Seq.
Qed.

Lemma test_Bol_Seq r s : test (Seq Bol r) s = match_at true r s.
Proof.
  unfold test. destruct s as [|c s]; simpl.
  - by rewrite !orb_false_r.
  - by rewrite search_Bol_Seq_later, orb_false_r, match_at_Alt, match_at_Never_Seq.
Qed.

End RegExpFacts.

(** The paths [ALLOWED_FLOW_PATTERN] accepts: ["/flow/"], then one character
    that is not a slash, then anything. *)
Lemma test_ALLOWED_FLOW_PATTERN s :
  RegExp.test ALLOWED_FLOW_PATTERN s = true ↔
  ∃ c rest, s = "/flow/" +:+ String c rest ∧ c ≠ "/"%char.
Proof.
  unfold ALLOWED_FLOW_PATTERN. cbn [RegExp.seq]. rewrite test_Bol_Seq. split.
  - intros H.
    do 6 (rewrite match_at_Chr_Seq in H; destruct s as [|? s]; [done|];
          apply andb_true_iff in H as [Hc H]; apply Ascii.eqb_eq in Hc; subst).
    rewrite match_at_NotChr_Plus in H. destruct s as [|c s]; [done|].
    exists c, s. split; [done|]. intros ->. done.
  - intros (c & rest & -> & Hc).
    change ("/flow/" +:+ String c rest) with
      (String "/" (String "f" (String "l" (String "o" (String "w" (String "/" (String c rest))))))).
    do 6 (rewrite match_at_Chr_Seq; cbn [Ascii.eqb Bool.eqb andb]).
    rewrite match_at_NotChr_Plus. by apply negb_true_iff, Ascii.eqb_neq.
Qed.

Lemma ALLOWED_FLOW_PATTERN_nonempty s :
  RegExp.test ALLOWED_FLOW_PATTERN s = true → s ≠ "".
Proof. intros (c & rest & -> & _)%test_ALLOWED_FLOW_PATTERN. done. Qed.

(** *** The matcher decides the relational reading *)

Section RegExpSemantics.
Import RegExp.

Lemma append_eq_nil s1 s2 : s1 +:+ s2 = "" → s1 = "" ∧ s2 = "".
Proof. destruct s1; [done|]. discriminate. Qed.

Lemma nullable_Matches start r : nullable start r = true ↔ Matches start r "".
Proof.
  split.
  - revert start. induction r as [| | |c|c|r1 IH1 r2 IH2|r1 IH1 r2 IH2|r IH];
      intros start H; cbn in H; try done.
    + constructor.
    + subst. constructor.
    + apply andb_true_iff in H as [H1 H2].
      change "" with ("" +:+ ""). constructor; [by apply IH1|by apply IH2].
    + apply orb_true_iff in H as [H|H]; [apply MAltL|apply MAltR]; auto.
    + constructor.
  - intros H. remember "" as s eqn:Hs. induction H; cbn; try done.
    + apply append_eq_nil in Hs as [-> ->]. cbn in *. by rewrite IHMatches1, IHMatches2.
    + by rewrite IHMatches.
    + rewrite IHMatches by done. by rewrite orb_true_r.
Qed.

Lemma deriv_Matches start c r s :
  Matches false (deriv start c r) s ↔ Matches start r (String c s).
Proof.
  split.
  - revert start s. induction r as [| | |d|d|r1 IH1 r2 IH2|r1 IH1 r2 IH2|r IH];
      intros start s H; cbn in H.
    + inversion H.
    + inversion H.
    + inversion H.
    + destruct (Ascii.eqb_spec c d) as [->|Hne]; inversion H; subst. constructor.
    + destruct (Ascii.eqb_spec c d) as [->|Hne]; inversion H; subst. by constructor.
    + assert (Hseq : ∀ s, Matches false (Seq (deriv start c r1) r2) s →
                          Matches start (Seq r1 r2) (String c s)).
      { intros s' H'. inversion H' as [| | | |? ? ? s1 s2 H1 H2| | | |]; subst.
        change (String c (s1 +:+ s2)) with (String c s1 +:+ s2).
        constructor; [by apply IH1|]. cbn. by destruct s1. }
      destruct (nullable start r1) eqn:Hn; [|by apply Hseq].
      inversion H; subst; [by apply Hseq|].
      change (String c s) with ("" +:+ String c s).
      constructor; [by apply nullable_Matches|]. cbn. by apply IH2.
    + inversion H; subst; [apply MAltL|apply MAltR]; auto.
    + inversion H as [| | | |? ? ? s1 s2 H1 H2| | | |]; subst.
      change (String c (s1 +:+ s2)) with (String c s1 +:+ s2).
      constructor; [by apply IH|by destruct s1].
  - intros H. remember (String c s) as cs eqn:Hcs. revert s Hcs.
    induction H as [start|  |start d|start d e Hne
                   |start r1 r2 s1 s2 H1 IH1 H2 IH2
                   |start r1 r2 s0 H1 IH1|start r1 r2 s0 H1 IH1
                   |start r|start r d s1 s2 H1 IH1 H2 IH2];
      intros s Hcs; try discriminate.
    + injection Hcs as -> <-. cbn. rewrite Ascii.eqb_refl. constructor.
    + injection Hcs as -> <-. cbn.
      rewrite (proj2 (Ascii.eqb_neq _ _)) by done. constructor.
    + cbn. destruct s1 as [|c1 s1].
      * change (s2 = String c s) in Hcs. cbn in H2. specialize (IH2 s Hcs).
        rewrite (proj2 (nullable_Matches start r1)) by done. by apply MAltR.
      * injection Hcs as -> <-. specialize (IH1 s1 eq_refl).
        assert (Matches false (Seq (deriv start c r1) r2) (s1 +:+ s2)).
        { constructor; [done|]. cbn in H2. by destruct s1. }
        destruct (nullable start r1); [by apply MAltL|done].
    + cbn. apply MAltL. by apply IH1.
    + cbn. apply MAltR. by apply IH1.
    + injection Hcs as -> <-. cbn. constructor; [by apply IH1|].
      by destruct s1.
Qed.

(** [match_at] finds the prefixes the pattern matches. *)
Lemma match_at_Matches start r s :
  match_at start r s = true ↔ ∃ s1 s2, s = s1 +:+ s2 ∧ Matches start r s1.
Proof.
  revert start r. induction s as [|c s IH]; intros start r; cbn.
  - rewrite orb_false_r, nullable_Matches. split.
    + intros H. by exists "", "".
    + intros (s1 & s2 & Heq & H). symmetry in Heq.
      by apply append_eq_nil in Heq as [-> ->].
  - rewrite orb_true_iff, nullable_Matches, IH. split.
    + intros [H|(s1 & s2 & -> & H)].
      * by exists "", (String c s).
      * exists (String c s1), s2. split; [done|]. by apply deriv_Matches.
    + intros (s1 & s2 & Heq & H). destruct s1 as [|c1 s1]; [by left|].
      injection Heq as <- ->. right. exists s1, s2. split; [done|].
      by apply deriv_Matches.
Qed.

(** [test] finds the substrings the pattern matches. *)
Lemma test_Matches r s :
  test r s = true ↔
  ∃ pre m post, s = pre +:+ (m +:+ post) ∧ Matches (still_at_start true pre) r m.
Proof.
  unfold test.
  assert (H : ∀ start s,
    search start r s = true ↔
    ∃ pre m post, s = pre +:+ (m +:+ post) ∧ Matches (still_at_start start pre) r m).
  { intros start s'. revert start. induction s' as [|c s' IH]; intros start;
      cbn [search].
    - rewrite orb_false_r, match_at_Matches. split.
      + intros (s1 & s2 & Heq & H). by exists "", s1, s2.
      + intros (pre & m & post & Heq & H). symmetry in Heq.
        apply append_eq_nil in Heq as [-> Heq]. exists m, post. by split.
    - rewrite orb_true_iff, match_at_Matches, IH. split.
      + intros [(s1 & s2 & Heq & H)|(pre & m & post & -> & H)].
        * by exists "", s1, s2.
        * exists (String c pre), m, post. split; [done|]. by destruct pre.
      + intros (pre & m & post & Heq & H). destruct pre as [|c1 pre].
        * left. by exists m, post.
        * injection Heq as <- ->. right. exists pre, m, post. split; [done|].
          by destruct pre. }
  apply H.
Qed.

End RegExpSemantics.

(** ** The session history *)

Section HistoryFacts.
Import History.
Implicit Type h : History.t.

Lemma go_entries d h : entries (go d h) = entries h.
Proof. unfold go. by case_bool_decide. Qed.

Lemma go_size d h : size (go d h) = size h.
Proof. unfold size. by rewrite go_entries. Qed.

Lemma go_wf d h : wf h → wf (go d h).
Proof. unfold wf, go. intros H. case_bool_decide; simpl; [lia|done]. Qed.

Lemma go_back h i :
  wf h → index h = S i → go (-1) h = {| entries := entries h; index := i |}.
Proof.
  unfold wf, go. intros Hwf Hi. rewrite Hi in *. case_bool_decide as Hr.
  - f_equal. lia.
  - lia.
Qed.

Lemma go_back_first h : index h = 0 → go (-1) h = h.
Proof. unfold go. intros ->. case_bool_decide; [lia|done]. Qed.

Lemma replaceState_size p h : size (replaceState p h) = size h.
Proof. unfold size. simpl. apply length_insert. Qed.

Lemma replaceState_wf p h : wf h → wf (replaceState p h).
Proof. unfold wf. simpl. by rewrite length_insert. Qed.

Lemma replaceState_pathname p h : wf h → pathname (replaceState p h) = p.
Proof.
  unfold wf, pathname. simpl. intros H. by rewrite list_lookup_insert_eq.
Qed.

Lemma pushState_wf p h : wf h → wf (pushState p h).
Proof.
  unfold wf. simpl. intros H. rewrite length_app, length_take.
  cbn [List.length]. lia.
Qed.

Lemma pushState_size p h : wf h → size (pushState p h) = S (S (index h)).
Proof.
  unfold wf, size. simpl. intros H. rewrite length_app, length_take.
  cbn [List.length]. lia.
Qed.

Lemma pushState_pathname p h : wf h → pathname (pushState p h) = p.
Proof.
  unfold wf, pathname. simpl. intros H.
  rewrite lookup_app_r; rewrite length_take; [|lia].
  replace (S (index h) - S (index h) `min` length (entries h)) with 0 by lia.
  done.
Qed.

Lemma pushState_last p h : last (entries (pushState p h)) = Some p.
Proof. simpl. apply last_snoc. Qed.

Lemma go_same d h : index (go d h) = index h → go d h = h.
Proof.
  unfold go. case_bool_decide; [|done]. destruct h as [es i]. cbn. by intros ->.
Qed.

Lemma go_moved d h :
  index (go d h) ≠ index h →
  go d h = {| entries := entries h; index := index (go d h) |} ∧
  delta h (go d h) = d.
Proof.
  unfold go, delta. case_bool_decide; [|done]. cbn. intros _. split; [done|lia].
Qed.

(** The router's undo of a traversal: the index is back where it was, and
    what was written on the entry landed on stays there. *)
Lemma go_undo d p h :
  wf h → index (go d h) ≠ index h →
  go (- delta h (go d h)) (replaceState p (go d h)) =
  {| entries := <[index (go d h) := p]> (entries h); index := index h |}.
Proof.
  intros Hwf Hm. destruct (go_moved d h Hm) as [_ Hd]. rewrite Hd.
  revert Hm. unfold go, replaceState, wf in *. case_bool_decide as Hr; [|done].
  cbn. intros _. rewrite length_insert. case_bool_decide as Hr'; [|lia].
  f_equal. lia.
Qed.

Lemma pathname_insert_ne j p es i :
  i ≠ j → pathname {| entries := <[j := p]> es; index := i |} =
          pathname {| entries := es; index := i |}.
Proof. intros H. unfold pathname. cbn. by rewrite list_lookup_insert_ne. Qed.

Lemma pathname_eta h : pathname {| entries := entries h; index := index h |} = pathname h.
Proof. by destruct h. Qed.

Lemma go_back_index h : wf h → index (go (-1) h) = pred (index h).
Proof.
  unfold go, wf. intros Hwf. case_bool_decide as Hr; cbn; [lia|].
  destruct (index h) eqn:Hi; [done|]. lia.
Qed.

End HistoryFacts.

(** ** The listener registry and the dispatch of popstate *)

Section HostFacts.
Context {R : Type}.
Implicit Type w : World R.

Lemma filter_guard_remove id (ls : list Listener) :
  filter (λ l, is_guard_listener l = true) (filter (λ l, is_handler id l = false) ls) =
  filter (λ l, is_handler id l = false) (filter (λ l, is_guard_listener l = true) ls).
Proof.
  induction ls as [|l ls IH]; [done|].
  destruct l as [n|id' cap];
    repeat first [rewrite filter_cons | case_decide | progress (simpl in *)];
    first [done | congruence].
Qed.

Lemma filter_foreign_remove id (ls : list Listener) :
  filter (λ l, is_guard_listener l = false) (filter (λ l, is_handler id l = false) ls) =
  filter (λ l, is_guard_listener l = false) ls.
Proof.
  induction ls as [|l ls IH]; [done|].
  destruct l as [n|id' cap];
    repeat first [rewrite filter_cons | case_decide | progress (simpl in *)];
    first [done | congruence].
Qed.

Lemma guard_listeners_remove id cap w :
  guard_listeners w = [HandlePopState id cap] →
  guard_listeners (removeEventListener id w) = [].
Proof.
  unfold guard_listeners. simpl. intros H.
  rewrite filter_guard_remove, H, filter_cons. simpl.
  rewrite Nat.eqb_refl. by case_decide.
Qed.

Lemma foreign_listeners_remove id w :
  foreign_listeners (removeEventListener id w) = foreign_listeners w.
Proof. unfold foreign_listeners. simpl. apply filter_foreign_remove. Qed.

Lemma guard_listeners_add id cap w :
  guard_listeners (addEventListener id cap w) =
  guard_listeners w ++ [HandlePopState id cap].
Proof. unfold guard_listeners. simpl. by rewrite filter_app. Qed.

Lemma foreign_listeners_add id cap w :
  foreign_listeners (addEventListener id cap w) = foreign_listeners w.
Proof.
  unfold foreign_listeners. simpl. rewrite filter_app.
  rewrite filter_cons_False by done. by rewrite filter_nil, app_nil_r.
Qed.

(** Running the pending cleanup leaves no handler of the guard behind. *)
Lemma run_cleanup_guard cap w :
  guard_listeners w =
    match cleanup w with Some id => [HandlePopState id cap] | None => [] end →
  guard_listeners (run_cleanup w) = [] ∧ cleanup (run_cleanup w) = None.
Proof.
  unfold run_cleanup. destruct (cleanup w) as [id|] eqn:Hc; intros H.
  - split; [|done]. by apply (guard_listeners_remove id cap).
  - by rewrite Hc.
Qed.

Lemma run_cleanup_foreign w : foreign_listeners (run_cleanup w) = foreign_listeners w.
Proof.
  unfold run_cleanup. destruct (cleanup w); [|done].
  apply foreign_listeners_remove.
Qed.

Lemma run_cleanup_frame w :
  history (run_cleanup w) = history w ∧ router (run_cleanup w) = router w ∧
  location (run_cleanup w) = location w ∧ issued (run_cleanup w) = issued w ∧
  refs (run_cleanup w) = refs w ∧ next_id (run_cleanup w) = next_id w.
Proof. unfold run_cleanup. by destruct (cleanup w). Qed.

(** Only the handlers of the guard act on a popstate. *)
Lemma dispatch_popstate_guard handle w :
  dispatch_popstate handle w =
  foldl (λ w l, match l with
                | Foreign _ => w
                | HandlePopState id captured => handle id captured w
                end) w (guard_listeners w).
Proof.
  unfold dispatch_popstate, guard_listeners.
  generalize (listeners w). intros ls. revert w.
  induction ls as [|l ls IH]; intros w; [done|].
  destruct l as [n|id cap].
  - rewrite filter_cons_False by done. simpl. apply IH.
  - rewrite filter_cons_True by done. simpl. apply IH.
Qed.

Lemma dispatch_popstate_none handle w :
  guard_listeners w = [] → dispatch_popstate handle w = w.
Proof. intros H. by rewrite dispatch_popstate_guard, H. Qed.

Lemma dispatch_popstate_one handle id cap w :
  guard_listeners w = [HandlePopState id cap] →
  dispatch_popstate handle w = handle id cap w.
Proof. intros H. by rewrite dispatch_popstate_guard, H. Qed.

Lemma corrections_app w w' (os : list Op) :
  issued w' = issued w ++ os → corrections w w' = os.
Proof. unfold corrections. intros ->. by rewrite drop_app_length. Qed.

Lemma run_cleanup_pending w : pending (run_cleanup w) = pending w.
Proof. unfold run_cleanup. by destruct (cleanup w). Qed.

(** Without a blocker the router adopts the location of every popstate. *)
Lemma popstate_event_unblocked handle settle δ w :
  popstate_event (λ _ _, false) handle settle false δ w =
  settle (dispatch_popstate handle (router_sync w)).
Proof. reflexivity. Qed.

(** The window at rest performs nothing. *)
Lemma drain_nil blocker handle settle fuel w :
  pending w = [] → drain blocker handle settle fuel w = w.
Proof. intros H. destruct fuel; cbn; by rewrite ?H. Qed.

Lemma idle_nil blocker handle settle w :
  pending w = [] → idle blocker handle settle w = w.
Proof. apply drain_nil. Qed.

Lemma drain_cons blocker handle settle fuel go rest w :
  pending w = go :: rest →
  drain blocker handle settle (S fuel) w =
  drain blocker handle settle fuel (traverse blocker handle settle go (set_pending rest w)).
Proof. intros H. cbn. by rewrite H. Qed.

End HostFacts.

(** ** RouteBlocker: the invariant of the mounted component *)

Section RouteBlockerFacts.
Import RouteBlocker.
Variables (enabled : bool) (pat : RegExp.node).
Implicit Type w : World unit.

Lemma rb_popstate_effect_frame w :
  history (popstate_effect enabled pat w) = history w ∧
  router (popstate_effect enabled pat w) = router w ∧
  location (popstate_effect enabled pat w) = location w ∧
  issued (popstate_effect enabled pat w) = issued w ∧
  pending (popstate_effect enabled pat w) = pending w.
Proof.
  unfold popstate_effect.
  by destruct enabled, (RegExp.test pat (location w)).
Qed.

Lemma rb_commit_frame w :
  history (commit enabled pat w) = history w ∧
  router (commit enabled pat w) = router w ∧
  location (commit enabled pat w) = location w ∧
  issued (commit enabled pat w) = issued w ∧
  pending (commit enabled pat w) = pending w.
Proof.
  unfold commit.
  destruct (rb_popstate_effect_frame (run_cleanup w)) as (-> & -> & -> & -> & ->).
  destruct (run_cleanup_frame w) as (-> & -> & -> & -> & _).
  by rewrite run_cleanup_pending.
Qed.

Lemma rb_commit_inv cap w :
  guard_listeners w =
    match cleanup w with Some id => [HandlePopState id cap] | None => [] end →
  History.wf (history w) → router w = location w →
  guard_inv enabled pat (commit enabled pat w).
Proof.
  intros Hg Hwf Hr. unfold commit.
  destruct (run_cleanup_guard cap w Hg) as [Hg' Hc'].
  destruct (run_cleanup_frame w) as (Hh & Hro & Hl & _).
  rewrite <- Hh in Hwf. rewrite <- Hro, <- Hl in Hr. clear Hh Hro Hl Hg.
  revert Hg' Hc' Hwf Hr. generalize (run_cleanup w). clear w. intros w Hg Hc Hwf Hr.
  unfold popstate_effect.
  destruct enabled, (RegExp.test pat (location w)) eqn:Ht; simpl;
    (constructor; simpl; rewrite ?Hc, ?Ht; try done;
     first [ unfold guard_listeners in *; simpl;
             by rewrite filter_app, Hg, filter_cons_True by done
           | split; [by intros [? ?]|by intros [? ?]] ]).
Qed.

Lemma rb_settle_inv w :
  guard_listeners w =
    match cleanup w with Some id => [HandlePopState id (location w)] | None => [] end →
  (is_Some (cleanup w) ↔ enabled = true ∧ RegExp.test pat (location w) = true) →
  History.wf (history w) →
  guard_inv enabled pat (settle enabled pat w).
Proof.
  intros Hg Ha Hwf. unfold settle, render.
  destruct (String.eqb_spec (router w) (location w)) as [Heq|Hne].
  - by constructor.
  - by apply (rb_commit_inv (location w)).
Qed.

Lemma rb_settle_frame w :
  history (settle enabled pat w) = history w ∧
  router (settle enabled pat w) = router w ∧
  location (settle enabled pat w) = router w ∧
  issued (settle enabled pat w) = issued w ∧
  pending (settle enabled pat w) = pending w.
Proof.
  unfold settle, render. destruct (String.eqb_spec (router w) (location w)); [done|].
  by destruct (rb_commit_frame (set_location (router w) w)) as (-> & -> & -> & -> & ->).
Qed.

Lemma rb_armed w :
  guard_inv enabled pat w →
  enabled && RegExp.test pat (location w) = bool_decide (is_Some (cleanup w)).
Proof.
  intros [_ Ha _ _]. case_bool_decide as Hc.
  - apply Ha in Hc as [-> ->]. done.
  - destruct enabled, (RegExp.test pat (location w)); try done.
    destruct Hc. by apply Ha.
Qed.

Lemma rb_blocker A B :
  blocker enabled pat A B = enabled && RegExp.test pat A && negb (RegExp.test pat B).
Proof. unfold blocker. by destruct enabled. Qed.

(** What the handlers do on a popstate: the one of the guard, when it is
    registered and the window shows a location outside of the pattern,
    navigates with replace to the rendered location. *)
Lemma rb_dispatch w w1 :
  guard_inv enabled pat w → listeners w1 = listeners w →
  dispatch_popstate (handlePopState pat) w1 =
  if enabled && RegExp.test pat (location w) && negb (RegExp.test pat (window_pathname w1))
  then navigate_replace (location w) w1 else w1.
Proof.
  intros Hinv Hls. rewrite (rb_armed w Hinv). destruct Hinv as [Hg _ _ _].
  assert (Hg1 : guard_listeners w1 = guard_listeners w).
  { unfold guard_listeners. by rewrite Hls. }
  destruct (cleanup w) as [id|] eqn:Hc.
  - rewrite (dispatch_popstate_one _ id (location w)) by by rewrite Hg1.
    by rewrite bool_decide_eq_true_2 by by eexists.
  - rewrite dispatch_popstate_none by by rewrite Hg1.
    by rewrite bool_decide_eq_false_2 by by intros [? ?].
Qed.

End RouteBlockerFacts.

Section RouteBlockerMoves.
Import RouteBlocker.
Implicit Type w : World unit.
Implicit Type enabled : bool.
Implicit Type pat : RegExp.node.

(** A traversal that the blocker vetoes lands on another entry. *)
Lemma blocked_moved {R : Type} pat d (w : World R) :
  window_pathname w = location w →
  RegExp.test pat (location w) = true →
  RegExp.test pat (History.pathname (History.go d (history w))) = false →
  History.index (History.go d (history w)) ≠ History.index (history w).
Proof.
  intros Hv Hl Hq Hi. rewrite (go_same _ _ Hi) in Hq.
  unfold window_pathname in Hv. congruence.
Qed.

(** An out-of-band traversal by [d] that lands on a location outside of the
    pattern while the guard is armed: the router keeps its location, the
    handler overwrites the entry landed on, and the router's undo brings
    the window back to the entry it left. *)
Lemma rb_traverse_blocked enabled pat d w :
  guard_inv enabled pat w → at_rest w →
  let h := History.go d (history w) in
  enabled && RegExp.test pat (location w) && negb (RegExp.test pat (History.pathname h)) = true →
  step enabled pat (Traverse d) w =
  set_issued (issued w ++ [NavigateReplace (location w)])
    (set_history
       {| History.entries := <[History.index h := location w]> (History.entries (history w));
          History.index := History.index (history w) |} w).
Proof.
  intros Hinv [Hp Hv] h Hb.
  apply andb_true_iff in Hb as [Hb Hq]. apply andb_true_iff in Hb as [-> Hl].
  apply negb_true_iff in Hq.
  pose proof (blocked_moved pat d w Hv Hl Hq) as Hm. fold h in Hm.
  pose proof Hinv as [Hg Ha Hwf Hr].
  unfold step. cbn zeta. fold h. unfold popstate_event, router_popstate.
  change (router (set_history h w)) with (router w).
  change (window_pathname (set_history h w)) with (History.pathname h).
  rewrite rb_blocker, Hr, Hl, Hq. cbn [andb negb].
  rewrite (rb_dispatch _ pat w) by done.
  change (window_pathname (queue_go _ _ _)) with (History.pathname h).
  rewrite Hl, Hq. cbn [andb negb].
  set (w2 := navigate_replace (location w) _).
  assert (Hs : settle true pat w2 = w2).
  { unfold settle, render. change (router w2) with (location w).
    change (location w2) with (location w). by rewrite String.eqb_refl. }
  rewrite Hs. unfold idle, patience.
  change (pending w2) with (pending w ++ [(- History.delta (history w) h, true)]%Z).
  rewrite Hp. cbn [app List.length Nat.add].
  rewrite (drain_cons _ _ _ _ (- History.delta (history w) h, true)%Z []) by by (cbn; rewrite Hp).
  unfold traverse. cbn [fst snd].
  change (history (set_pending [] w2)) with (History.replaceState (location w) h).
  unfold h. rewrite go_undo by done. fold h. cbn [History.index].
  change (History.index (History.replaceState (location w) h)) with (History.index h).
  rewrite (proj2 (Nat.eqb_neq _ _)) by done.
  unfold popstate_event, router_popstate.
  set (h3 := {| History.entries := _; History.index := _ |}).
  set (w3 := set_history h3 (set_pending [] w2)).
  assert (Hq3 : window_pathname w3 = location w).
  { unfold w3, h3. change (window_pathname (set_history ?x _)) with (History.pathname x).
    rewrite pathname_insert_ne by done. by rewrite pathname_eta. }
  rewrite (rb_dispatch _ pat w) by done. rewrite Hq3, Hl. cbn [andb negb].
  assert (Hs3 : settle true pat w3 = w3).
  { unfold settle, render. change (router w3) with (location w).
    change (location w3) with (location w). by rewrite String.eqb_refl. }
  rewrite Hs3, drain_nil by done.
  clear Hq3 Hs3 Hs. unfold w3, h3, w2. clear w3 h3 w2.
  destruct w as [hh ro lo ls ni cl iss pe rf]. cbn in *. by subst.
Qed.

(** Any other traversal: the router adopts the location landed on and the
    handler has nothing to correct. *)
Lemma rb_traverse_accepted enabled pat d w :
  guard_inv enabled pat w → at_rest w →
  let h := History.go d (history w) in
  enabled && RegExp.test pat (location w) && negb (RegExp.test pat (History.pathname h)) = false →
  step enabled pat (Traverse d) w = settle enabled pat (router_sync (set_history h w)).
Proof.
  intros Hinv [Hp Hv] h Hb. pose proof Hinv as [Hg Ha Hwf Hr].
  unfold step. cbn zeta. fold h. unfold popstate_event, router_popstate.
  change (router (set_history h w)) with (router w).
  change (window_pathname (set_history h w)) with (History.pathname h).
  rewrite rb_blocker, Hr, Hb.
  rewrite (rb_dispatch _ pat w) by done.
  change (window_pathname (router_sync _)) with (History.pathname h).
  rewrite Hb. apply idle_nil.
  by destruct (rb_settle_frame enabled pat (router_sync (set_history h w))) as (_ & _ & _ & _ & ->).
Qed.

Lemma rb_navigate_eq enabled pat to w :
  guard_inv enabled pat w → at_rest w →
  step enabled pat (Navigate to) w =
  if blocker enabled pat (location w) to then w
  else settle enabled pat
         (set_router to (set_history (History.pushState to (history w)) w)).
Proof.
  intros Hinv [Hp Hv]. unfold step, navigate_push.
  rewrite (inv_router _ _ _ Hinv).
  destruct (blocker enabled pat (location w) to); [by apply idle_nil|].
  apply idle_nil.
  by destruct (rb_settle_frame enabled pat
                 (set_router to (set_history (History.pushState to (history w)) w)))
    as (_ & _ & _ & _ & ->).
Qed.

(** The state a settled render leaves, when the router shows the window's
    location. *)
Lemma rb_settle_rest enabled pat w :
  guard_listeners w =
    match cleanup w with Some id => [HandlePopState id (location w)] | None => [] end →
  (is_Some (cleanup w) ↔ enabled = true ∧ RegExp.test pat (location w) = true) →
  History.wf (history w) → pending w = [] → router w = window_pathname w →
  guard_inv enabled pat (settle enabled pat w) ∧ at_rest (settle enabled pat w).
Proof.
  intros Hg Ha Hwf Hp Hr. split; [by apply rb_settle_inv|].
  destruct (rb_settle_frame enabled pat w) as (Hh & _ & Hl & _ & Hpe).
  split; [by rewrite Hpe|]. unfold window_pathname in *. by rewrite Hh, Hl.
Qed.

Lemma rb_step_inv enabled pat e w :
  guard_inv enabled pat w → at_rest w →
  guard_inv enabled pat (step enabled pat e w) ∧ at_rest (step enabled pat e w).
Proof.
  intros Hinv Hrest. pose proof Hinv as [Hg Ha Hwf Hr]. pose proof Hrest as [Hp Hv].
  destruct e as [d|to].
  - destruct (enabled && RegExp.test pat (location w) &&
              negb (RegExp.test pat (History.pathname (History.go d (history w))))) eqn:Hb.
    + rewrite rb_traverse_blocked by done.
      assert (Hm : History.index (History.go d (history w)) ≠ History.index (history w)).
      { apply andb_true_iff in Hb as [Hb Hq]. apply andb_true_iff in Hb as [_ Hl].
        apply negb_true_iff in Hq. by apply (blocked_moved pat). }
      split; [split|split]; cbn; try done.
      * unfold History.wf in *. cbn. by rewrite length_insert.
      * unfold window_pathname. cbn. rewrite pathname_insert_ne by done.
        by rewrite pathname_eta.
    + rewrite rb_traverse_accepted by done.
      apply rb_settle_rest; cbn; try done. by apply go_wf.
  - rewrite rb_navigate_eq by done.
    destruct (blocker enabled pat (location w) to); [done|].
    apply rb_settle_rest; cbn; try done; [by apply pushState_wf|].
    unfold window_pathname. cbn. by rewrite pushState_pathname.
Qed.

Lemma rb_mount_inv enabled pat w :
  initial w →
  guard_inv enabled pat (mount enabled pat w) ∧ at_rest (mount enabled pat w).
Proof.
  intros (Hg & Hc & Hwf & Hr & _ & Hp). unfold mount. split.
  - apply (rb_commit_inv enabled pat ""); simpl; [|done..].
    unfold guard_listeners in *. simpl. by rewrite Hc, Hg.
  - destruct (rb_commit_frame enabled pat (set_location (router w) w)) as (Hh & _ & Hl & _ & Hpe).
    split; [by rewrite Hpe|]. unfold window_pathname. by rewrite Hh, Hl.
Qed.

Lemma rb_run_inv enabled pat es w :
  guard_inv enabled pat w → at_rest w →
  guard_inv enabled pat (run enabled pat es w) ∧ at_rest (run enabled pat es w).
Proof.
  revert w. induction es as [|e es IH]; intros w Hinv Hrest; [done|].
  simpl. destruct (rb_step_inv enabled pat e w Hinv Hrest). by apply IH.
Qed.

Lemma rb_reachable_inv enabled pat w :
  reachable enabled pat w → guard_inv enabled pat w ∧ at_rest w.
Proof.
  intros (w0 & es & Hi & ->). destruct (rb_mount_inv enabled pat w0 Hi). by apply rb_run_inv.
Qed.

End RouteBlockerMoves.

Section RouteBlockerStates.
Import RouteBlocker.
Implicit Type w : World unit.
Implicit Type enabled : bool.
Implicit Type pat : RegExp.node.

Lemma rb_popstate_effect_foreign enabled pat w :
  foreign_listeners (popstate_effect enabled pat w) = foreign_listeners w.
Proof.
  unfold popstate_effect.
  destruct enabled, (RegExp.test pat (location w)); try done.
  apply (foreign_listeners_add (next_id w) (location w) (set_next_id (S (next_id w)) w)).
Qed.

Lemma rb_settle_foreign enabled pat w :
  foreign_listeners (settle enabled pat w) = foreign_listeners w.
Proof.
  unfold settle, render. destruct (String.eqb (router w) (location w)); [done|].
  unfold commit. by rewrite rb_popstate_effect_foreign, run_cleanup_foreign.
Qed.

(** The state after an out-of-band traversal by [d]. *)
Lemma rb_traverse enabled pat d w :
  guard_inv enabled pat w → at_rest w →
  let h := History.go d (history w) in
  let blocked :=
    enabled && RegExp.test pat (location w) && negb (RegExp.test pat (History.pathname h)) in
  let w' := step enabled pat (Traverse d) w in
  history w' =
    (if blocked
     then {| History.entries :=
               <[History.index h := location w]> (History.entries (history w));
             History.index := History.index (history w) |}
     else h) ∧
  issued w' = issued w ++ (if blocked then [NavigateReplace (location w)] else []) ∧
  location w' = (if blocked then location w else History.pathname h) ∧
  foreign_listeners w' = foreign_listeners w.
Proof.
  intros Hinv Hrest h blocked w'. subst blocked w'.
  destruct (enabled && RegExp.test pat (location w) &&
            negb (RegExp.test pat (History.pathname h))) eqn:Hb.
  - by rewrite rb_traverse_blocked by done.
  - rewrite rb_traverse_accepted by done. fold h.
    rewrite rb_settle_foreign.
    destruct (rb_settle_frame enabled pat (router_sync (set_history h w)))
      as (-> & _ & -> & -> & _).
    cbn. by rewrite app_nil_r.
Qed.

Lemma rb_navigate_state enabled pat to w :
  guard_inv enabled pat w → at_rest w →
  let w' := step enabled pat (Navigate to) w in
  issued w' = issued w ∧ foreign_listeners w' = foreign_listeners w ∧
  if blocker enabled pat (location w) to then w' = w
  else location w' = to ∧ history w' = History.pushState to (history w).
Proof.
  intros Hinv Hrest w'. subst w'. rewrite rb_navigate_eq by done.
  destruct (blocker enabled pat (location w) to); [done|].
  rewrite rb_settle_foreign.
  by destruct (rb_settle_frame enabled pat
                 (set_router to (set_history (History.pushState to (history w)) w)))
    as (-> & _ & -> & -> & _).
Qed.

Lemma rb_mount_state enabled pat w :
  initial w →
  issued (mount enabled pat w) = [] ∧ history (mount enabled pat w) = history w ∧
  foreign_listeners (mount enabled pat w) = foreign_listeners w.
Proof.
  intros (_ & _ & _ & _ & Hi & _). unfold mount.
  destruct (rb_commit_frame enabled pat (set_location (router w) w))
    as (-> & _ & _ & -> & _).
  split; [done|]. split; [done|].
  unfold commit. by rewrite rb_popstate_effect_foreign, run_cleanup_foreign.
Qed.

Lemma rb_confined_step pat e w :
  guard_inv true pat w → at_rest w → RegExp.test pat (location w) = true →
  RegExp.test pat (location (step true pat e w)) = true.
Proof.
  intros Hinv Hrest Hl. destruct e as [d|to].
  - destruct (rb_traverse true pat d w Hinv Hrest) as (_ & _ & -> & _).
    rewrite Hl. cbn [andb].
    destruct (RegExp.test pat (History.pathname (History.go d (history w)))) eqn:Hq;
      by cbn [negb].
  - destruct (rb_navigate_state true pat to w Hinv Hrest) as (_ & _ & H). cbn zeta in H.
    rewrite rb_blocker, Hl in H. cbn [andb] in H.
    destruct (RegExp.test pat to) eqn:Hto; cbn [negb] in H.
    + by destruct H as [-> _].
    + by rewrite H.
Qed.

Lemma rb_reachable_ind enabled pat (P : World unit → Prop) :
  (∀ w0, initial w0 → P (mount enabled pat w0)) →
  (∀ e w, guard_inv enabled pat w → at_rest w → P w → P (step enabled pat e w)) →
  ∀ w, reachable enabled pat w → P w.
Proof.
  intros Hm Hs w (w0 & es & Hi & ->).
  assert (H : ∀ es w, guard_inv enabled pat w → at_rest w → P w →
                P (run enabled pat es w)).
  { clear - Hs. intros es. induction es as [|e es IH]; intros w Hinv Hrest HP; [done|].
    change (run enabled pat (e :: es) w) with (run enabled pat es (step enabled pat e w)).
    destruct (rb_step_inv enabled pat e w Hinv Hrest).
    apply IH; [done|done|by apply Hs]. }
  destruct (rb_mount_inv enabled pat w0 Hi). apply H; [done|done|by apply Hm].
Qed.

Lemma rb_run_foreign enabled pat es w :
  guard_inv enabled pat w → at_rest w →
  foreign_listeners (run enabled pat es w) = foreign_listeners w.
Proof.
  revert w. induction es as [|e es IH]; intros w Hinv Hrest; [done|].
  change (run enabled pat (e :: es) w) with (run enabled pat es (step enabled pat e w)).
  destruct (rb_step_inv enabled pat e w Hinv Hrest). rewrite IH by done.
  destruct e as [d|to].
  - by destruct (rb_traverse enabled pat d w Hinv Hrest) as (_ & _ & _ & ?).
  - by destruct (rb_navigate_state enabled pat to w Hinv Hrest) as (_ & ? & _).
Qed.

End RouteBlockerStates.
(** ** BuilderOnlyGuard: the invariant of the mounted component *)

Opaque ALLOWED_FLOW_PATTERN.

Section BuilderOnlyGuardFacts.
Import BuilderOnlyGuard.
Implicit Type ENABLE : bool.
Local Abbreviation PAT := ALLOWED_FLOW_PATTERN.
Implicit Type w : Guard.

Local Ltac no_cleanup Hc :=
  exfalso; cbn in *; rewrite Hc in *;
  match goal with H : is_Some None |- _ => by destruct H end.

Lemma bog_truthy l : RegExp.test PAT l = true → truthy (Some l) = true.
Proof.
  intros H%ALLOWED_FLOW_PATTERN_nonempty. simpl.
  by apply negb_true_iff, String.eqb_neq.
Qed.

Lemma bog_blocker ENABLE A B :
  blocker ENABLE A B = ENABLE && RegExp.test PAT A && negb (RegExp.test PAT B).
Proof. unfold blocker. by destruct ENABLE. Qed.

Lemma bog_commit_foreign ENABLE w :
  foreign_listeners (commit ENABLE w) = foreign_listeners w.
Proof.
  unfold commit. rewrite <- (run_cleanup_foreign w).
  generalize (run_cleanup w). clear w. intros w.
  assert (H1 : listeners (correction_effect ENABLE (tracking_effect w)) = listeners w).
  { unfold correction_effect, tracking_effect.
    destruct (RegExp.test ALLOWED_FLOW_PATTERN (location w)) eqn:Ht; cbn; rewrite Ht;
      destruct ENABLE; cbn; try done.
    by destruct (truthy (refs w)). }
  revert H1. generalize (correction_effect ENABLE (tracking_effect w)). intros w1 H1.
  unfold popstate_effect.
  destruct ENABLE, (RegExp.test ALLOWED_FLOW_PATTERN (location w1)); cbn;
    unfold foreign_listeners; cbn; rewrite ?H1; try done.
  rewrite filter_app, filter_cons_False by done. by rewrite filter_nil, app_nil_r.
Qed.

Lemma bog_settle_foreign ENABLE w :
  foreign_listeners (settle ENABLE w) = foreign_listeners w.
Proof.
  assert (H : ∀ w, foreign_listeners (render (commit ENABLE) w) = foreign_listeners w).
  { intros w1. unfold render. destruct (String.eqb (router w1) (location w1)); [done|].
    by rewrite bog_commit_foreign. }
  unfold settle. by rewrite !H.
Qed.

(** One commit on a location the blocker let the router take, by cases on
    the rendered location. *)
Lemma bog_commit ENABLE cap w :
  guard_listeners w =
    match cleanup w with Some id => [HandlePopState id cap] | None => [] end →
  History.wf (history w) → router w = location w → window_pathname w = location w →
  (∀ l, refs w = Some l → RegExp.test PAT l = true) →
  (ENABLE = true → RegExp.test PAT (location w) = false → refs w = None) →
  let w' := commit ENABLE w in
  inv ENABLE w' ∧ history w' = history w ∧ location w' = location w ∧
  if RegExp.test PAT (location w)
  then issued w' = issued w ∧ pending w' = pending w ∧ refs w' = Some (location w)
  else if ENABLE
  then issued w' = issued w ++ [NavigateDelta (-1)] ∧
       pending w' = pending w ++ [((-1)%Z, false)] ∧ refs w' = None
  else issued w' = issued w ∧ pending w' = pending w ∧ refs w' = refs w.
Proof.
  intros Hg Hwf Hr Hvis Hv Hu. unfold commit.
  destruct (run_cleanup_guard cap w Hg) as [Hg' Hc'].
  destruct (run_cleanup_frame w) as (Hh & Hro & Hl & Hi & Hrf & _).
  pose proof (run_cleanup_pending w) as Hpe.
  rewrite <- Hh, <- Hl, <- Hi, <- Hrf, <- Hpe. rewrite <- Hh in Hwf.
  unfold window_pathname in Hvis. rewrite <- Hh, <- Hl in Hvis.
  rewrite <- Hro, <- Hl in Hr. rewrite <- Hrf in Hv. rewrite <- Hl, <- Hrf in Hu.
  clear Hh Hro Hl Hi Hrf Hg Hpe.
  revert Hg' Hc' Hwf Hr Hvis Hv Hu. generalize (run_cleanup w).
  intros w0. revert w0. clear. intros w Hg Hc Hwf Hr Hvis Hv Hu.
  unfold popstate_effect, correction_effect, tracking_effect.
  destruct (RegExp.test PAT (location w)) eqn:Ht.
  - cbn. rewrite Ht. destruct ENABLE; cbn; rewrite ?Ht; cbn;
      repeat split; cbn; rewrite ?Hc, ?Ht, ?Hg; try done;
      first [ by intros l [= <-] | by intros [? ?] | no_cleanup Hc
            | unfold guard_listeners in *; cbn;
              by rewrite filter_app, Hg, filter_cons_True by done ].
  - destruct ENABLE; cbn; rewrite ?Ht; cbn.
    + rewrite (Hu eq_refl eq_refl). cbn. rewrite Ht. cbn.
      repeat split; cbn; rewrite ?Hc, ?Ht, ?Hg; try done;
        first [ by intros [? ?] | no_cleanup Hc | by rewrite (Hu eq_refl eq_refl) ].
    + repeat split; cbn; rewrite ?Hc, ?Ht, ?Hg; try done;
        first [ by intros [? ?] | no_cleanup Hc | by auto ].
Qed.

Lemma bog_render_id ENABLE w : inv ENABLE w → render (commit ENABLE) w = w.
Proof.
  intros [[_ _ _ Hr] _ _ _ _]. unfold render. by rewrite Hr, String.eqb_refl.
Qed.

Lemma set_router_id w : set_router (router w) w = w.
Proof. by destruct w. Qed.

Lemma bog_armed ENABLE w :
  inv ENABLE w →
  ENABLE && RegExp.test PAT (location w) = bool_decide (is_Some (cleanup w)).
Proof.
  intros [[_ Ha _ _] _ _ _ _]. case_bool_decide as Hc.
  - apply Ha in Hc as [-> ->]. done.
  - destruct ENABLE, (RegExp.test PAT (location w)); try done.
    destruct Hc. by apply Ha.
Qed.

(** The renders that follow when the router has taken the window's
    location with the blocker's leave, by cases on that location.  One
    commit is all there is: its only navigation is the step back it asks
    the window for. *)
Lemma bog_settle ENABLE w0 w :
  inv ENABLE w0 →
  listeners w = listeners w0 → cleanup w = cleanup w0 →
  location w = location w0 → refs w = refs w0 →
  History.wf (history w) → router w = window_pathname w →
  blocker ENABLE (location w) (router w) = false →
  let w' := settle ENABLE w in
  inv ENABLE w' ∧ history w' = history w ∧ location w' = router w ∧
  if String.eqb (router w) (location w)
  then w' = w
  else if RegExp.test PAT (router w)
  then issued w' = issued w ∧ pending w' = pending w ∧ refs w' = Some (router w)
  else if ENABLE
  then issued w' = issued w ++ [NavigateDelta (-1)] ∧
       pending w' = pending w ++ [((-1)%Z, false)] ∧ refs w' = None
  else issued w' = issued w ∧ pending w' = pending w ∧ refs w' = refs w.
Proof.
  intros [[Hg Ha Hwf0 Hr0] Hvis Ht Hu Hv] Hls Hc Hl Hrf Hwf Hr Hb. cbn zeta.
  unfold settle.
  assert (Hg1 : guard_listeners w =
                match cleanup w with
                | Some id => [HandlePopState id (location w)]
                | None => []
                end).
  { unfold guard_listeners in *. by rewrite Hls, Hc, Hl. }
  destruct (String.eqb_spec (router w) (location w)) as [Heq|Hne].
  - assert (Hinv : inv ENABLE w).
    { split; [split|..]; rewrite ?Hc, ?Hl, ?Hrf; try done;
        first [by rewrite <- Hc, <- Hl|congruence]. }
    rewrite (bog_render_id ENABLE w Hinv), (bog_render_id ENABLE w Hinv).
    split; [done|]. split; [done|]. by rewrite Heq.
  - assert (Hrw : render (commit ENABLE) w = commit ENABLE (set_location (router w) w)).
    { unfold render. by rewrite (proj2 (String.eqb_neq _ _)) by done. }
    rewrite Hrw. clear Hrw.
    assert (Hu1 : ENABLE = true → RegExp.test PAT (router w) = false → refs w = None).
    { intros HE Hq. rewrite Hrf. apply Hu; [done|]. rewrite <- Hl.
      rewrite bog_blocker, HE, Hq in Hb. cbn in Hb.
      by apply andb_false_iff in Hb as [Hb|Hb]. }
    pose proof (bog_commit ENABLE (location w) (set_location (router w) w)
                  Hg1 Hwf eq_refl (eq_sym Hr)) as Hcm.
    cbn [refs set_location location] in Hcm.
    rewrite Hrf in Hcm, Hu1. specialize (Hcm Hv Hu1). cbn zeta in Hcm.
    cbn [history issued pending set_location] in Hcm.
    destruct Hcm as (Hi & Hh & Hlo & Hcase).
    rewrite (bog_render_id _ _ Hi). split; [done|]. split; [done|]. split; [done|].
    by rewrite <- Hrf in Hcase.
Qed.

Lemma bog_unarmed w :
  inv true w → RegExp.test PAT (location w) = false →
  cleanup w = None ∧ guard_listeners w = [] ∧ refs w = None.
Proof.
  intros Hinv Hl. pose proof Hinv as [[Hg Ha _ _] _ _ Hu _].
  assert (Hc : cleanup w = None).
  { destruct (cleanup w) eqn:Hc; [|done].
    destruct (proj1 Ha) as [_ ?]; [by eexists|congruence]. }
  rewrite Hc in Hg. split; [done|]. split; [done|]. by apply Hu.
Qed.

Lemma inv_set_pending ENABLE p w : inv ENABLE w → inv ENABLE (set_pending p w).
Proof. intros [[? ? ? ?] ? ? ? ?]. by split; [split|..]. Qed.

(** One step back of the guard, from an entry that is not the first: the
    router takes the location of the entry before, and the component
    renders it. *)
Lemma bog_cascade_step fuel i w :
  inv true w → RegExp.test PAT (location w) = false →
  pending w = [((-1)%Z, false)] → History.index (history w) = S i →
  drain (blocker true) handlePopState (settle true) (S fuel) w =
  drain (blocker true) handlePopState (settle true) fuel
    (settle true
       (router_sync
          (set_history {| History.entries := History.entries (history w);
                          History.index := i |} (set_pending [] w)))).
Proof.
  intros Hinv Hl Hp Hi. destruct (bog_unarmed w Hinv Hl) as (Hc & Hg & Hrf).
  pose proof Hinv as [[_ _ Hwf Hr] _ _ _ _].
  rewrite (drain_cons _ _ _ _ _ _ _ Hp). f_equal.
  unfold traverse. cbn [fst snd history set_pending].
  rewrite (go_back _ i) by done. cbn [History.index].
  rewrite Hi, (proj2 (Nat.eqb_neq i (S i))) by lia.
  unfold popstate_event, router_popstate.
  change (router (set_history _ (set_pending [] w))) with (router w).
  rewrite bog_blocker, Hr, Hl. cbn [andb].
  by rewrite dispatch_popstate_none.
Qed.

(** On the first entry the step back does nothing. *)
Lemma bog_cascade_first fuel w :
  pending w = [((-1)%Z, false)] → History.index (history w) = 0 →
  drain (blocker true) handlePopState (settle true) (S fuel) w = set_pending [] w.
Proof.
  intros Hp Hi. rewrite (drain_cons _ _ _ _ _ _ _ Hp).
  unfold traverse. cbn [fst snd history set_pending].
  rewrite go_back_first by done. rewrite Nat.eqb_refl. by apply drain_nil.
Qed.

(** The guard that renders a location outside of the pattern and has asked
    for a step back keeps stepping back, as long as the entry it lands on
    has another pathname, outside of the pattern too.  It comes to rest on
    a location of the pattern, on the first entry, or on an entry that has
    the pathname of the one it stepped back from. *)
Lemma bog_cascade fuel w :
  inv true w → RegExp.test PAT (location w) = false →
  pending w = [((-1)%Z, false)] → (History.index (history w) < fuel)%nat →
  let w' := drain (blocker true) handlePopState (settle true) fuel w in
  inv true w' ∧ pending w' = [] ∧ foreign_listeners w' = foreign_listeners w ∧
  History.entries (history w') = History.entries (history w) ∧
  (History.index (history w') ≤ pred (History.index (history w)))%nat ∧
  (∃ k, issued w' = issued w ++ repeat (NavigateDelta (-1)) k) ∧
  (RegExp.test PAT (location w') = true ∨ History.index (history w') = 0 ∨
   History.entries (history w) !! S (History.index (history w')) = Some (location w')).
Proof.
  revert w. induction fuel as [|fuel IH]; intros w Hinv Hl Hp Hf; [lia|]. cbn zeta.
  destruct (History.index (history w)) as [|i] eqn:Hi.
  - rewrite bog_cascade_first by done.
    split; [by apply inv_set_pending|]. split; [done|]. split; [done|].
    split; [done|]. split; [cbn; lia|]. split; [exists 0; cbn; by rewrite app_nil_r|].
    right. by left.
  - rewrite (bog_cascade_step fuel i) by done.
    destruct (bog_unarmed w Hinv Hl) as (Hc & Hg & Hrf).
    pose proof Hinv as [[_ _ Hwf Hr] Hvis _ _ _].
    set (h := {| History.entries := History.entries (history w); History.index := i |}).
    set (w1 := router_sync (set_history h (set_pending [] w))).
    assert (Hwf1 : History.wf h).
    { unfold History.wf in *. cbn. lia. }
    assert (Hprev : History.entries (history w) !! S i = Some (location w)).
    { unfold window_pathname, History.pathname in Hvis. rewrite Hi in Hvis.
      unfold History.wf in Hwf. rewrite Hi in Hwf.
      destruct (lookup_lt_is_Some_2 (History.entries (history w)) (S i) Hwf) as [x Hx].
      rewrite Hx in Hvis. cbn in Hvis. by rewrite Hx, Hvis. }
    destruct (bog_settle true w w1 Hinv) as (Hi1 & Hh1 & Hl1 & Hcase); try done.
    { change (blocker true (location w) (History.pathname h) = false).
      by rewrite bog_blocker, Hl. }
    pose proof (bog_settle_foreign true w1) as Hf1.
    change (foreign_listeners w1) with (foreign_listeners w) in Hf1.
    change (router w1) with (History.pathname h) in *.
    change (location w1) with (location w) in Hcase.
    change (history w1) with h in Hh1.
    change (issued w1) with (issued w) in Hcase.
    change (pending w1) with (@nil (Z * bool)) in Hcase.
    change (refs w1) with (refs w) in Hcase.
    set (w2 := settle true w1) in *.
    destruct (String.eqb_spec (History.pathname h) (location w)) as [Heq|Hne].
    { (* the entry before has the pathname rendered: nothing runs *)
      rewrite Hcase. rewrite drain_nil by done. rewrite Hcase in Hi1.
      split; [done|]. split; [done|]. split; [done|]. split; [done|].
      split; [cbn; lia|]. split; [exists 0; cbn; by rewrite app_nil_r|].
      right. right. exact Hprev. }
    destruct (RegExp.test PAT (History.pathname h)) eqn:Hq.
    { destruct Hcase as (His & Hpe & Hrf2).
      rewrite drain_nil by done.
      split; [done|]. split; [done|]. split; [done|]. split; [by rewrite Hh1|].
      split; [rewrite Hh1; cbn; lia|]. split; [exists 0; by rewrite His, app_nil_r|].
      left. by rewrite Hl1. }
    destruct Hcase as (His & Hpe & Hrf2).
    destruct (IH w2 Hi1) as (Hi3 & Hp3 & Hf3 & He3 & Hx3 & [k Hk] & Hstop).
    { by rewrite Hl1. }
    { done. }
    { rewrite Hh1. cbn. lia. }
    split; [done|]. split; [done|]. split; [by rewrite Hf3|].
    split; [by rewrite He3, Hh1|].
    split; [rewrite Hh1 in Hx3; cbn in *; lia|].
    split.
    + exists (S k). rewrite Hk, His. by rewrite <- app_assoc.
    + rewrite Hh1 in Hstop. exact Hstop.
Qed.

Lemma bog_dispatch ENABLE w w1 :
  inv ENABLE w → listeners w1 = listeners w →
  dispatch_popstate handlePopState w1 =
  if ENABLE && RegExp.test PAT (location w) && negb (RegExp.test PAT (window_pathname w1))
  then navigate_replace (location w) w1 else w1.
Proof.
  intros Hinv Hls. rewrite (bog_armed ENABLE w Hinv). destruct Hinv as [[Hg _ _ _] _ _ _ _].
  assert (Hg1 : guard_listeners w1 = guard_listeners w).
  { unfold guard_listeners. by rewrite Hls. }
  destruct (cleanup w) as [id|] eqn:Hc.
  - rewrite (dispatch_popstate_one _ id (location w)) by by rewrite Hg1.
    by rewrite bool_decide_eq_true_2 by by eexists.
  - rewrite dispatch_popstate_none by by rewrite Hg1.
    by rewrite bool_decide_eq_false_2 by by intros [? ?].
Qed.

Lemma bog_settle_id ENABLE w : router w = location w → settle ENABLE w = w.
Proof.
  intros H. unfold settle.
  assert (Hr : render (commit ENABLE) w = w).
  { unfold render. by rewrite H, String.eqb_refl. }
  by rewrite !Hr.
Qed.

(** An out-of-band traversal by [d] that lands on a location outside of the
    pattern while the guard is armed: the router keeps its location, the
    handler overwrites the entry landed on, and the router's undo brings
    the window back to the entry it left. *)
Lemma bog_traverse_blocked ENABLE d w :
  inv ENABLE w → pending w = [] →
  let h := History.go d (history w) in
  ENABLE && RegExp.test PAT (location w) && negb (RegExp.test PAT (History.pathname h)) = true →
  step ENABLE (Traverse d) w =
  set_issued (issued w ++ [NavigateReplace (location w)])
    (set_history
       {| History.entries := <[History.index h := location w]> (History.entries (history w));
          History.index := History.index (history w) |} w).
Proof.
  intros Hinv Hp h Hb.
  apply andb_true_iff in Hb as [Hb Hq]. apply andb_true_iff in Hb as [-> Hl].
  apply negb_true_iff in Hq.
  pose proof Hinv as [[Hg Ha Hwf Hr] Hv _ _ _].
  pose proof (blocked_moved PAT d w Hv Hl Hq) as Hm. fold h in Hm.
  unfold step. cbn zeta. fold h. unfold popstate_event, router_popstate.
  change (router (set_history h w)) with (router w).
  change (window_pathname (set_history h w)) with (History.pathname h).
  rewrite bog_blocker, Hr, Hl, Hq. cbn [andb negb].
  rewrite (bog_dispatch true w) by done.
  change (window_pathname (queue_go _ _ _)) with (History.pathname h).
  rewrite Hl, Hq. cbn [andb negb].
  set (w2 := navigate_replace (location w) _).
  rewrite (bog_settle_id true w2) by done.
  unfold idle, patience.
  change (pending w2) with (pending w ++ [(- History.delta (history w) h, true)]%Z).
  rewrite Hp. cbn [app List.length Nat.add].
  rewrite (drain_cons _ _ _ _ (- History.delta (history w) h, true)%Z []) by by (cbn; rewrite Hp).
  unfold traverse. cbn [fst snd].
  change (history (set_pending [] w2)) with (History.replaceState (location w) h).
  unfold h. rewrite go_undo by done. fold h. cbn [History.index].
  change (History.index (History.replaceState (location w) h)) with (History.index h).
  rewrite (proj2 (Nat.eqb_neq _ _)) by done.
  unfold popstate_event, router_popstate.
  set (h3 := {| History.entries := _; History.index := _ |}).
  set (w3 := set_history h3 (set_pending [] w2)).
  assert (Hq3 : window_pathname w3 = location w).
  { unfold w3, h3. change (window_pathname (set_history ?x _)) with (History.pathname x).
    rewrite pathname_insert_ne by done. by rewrite pathname_eta. }
  rewrite (bog_dispatch true w) by done. rewrite Hq3, Hl. cbn [andb negb].
  rewrite (bog_settle_id true w3) by done. rewrite drain_nil by done.
  clear Hq3. unfold w3, h3, w2. clear w3 h3 w2.
  destruct w as [hh ro lo ls ni cl iss pe rf]. cbn in *. by subst.
Qed.

(** The router takes, with the blocker's leave, the location of the
    history [h']: the component renders it, and steps back from it when it
    is outside of the pattern. *)
Lemma bog_adopt ENABLE h' w :
  inv ENABLE w → pending w = [] → History.wf h' →
  blocker ENABLE (location w) (History.pathname h') = false →
  let q := History.pathname h' in
  let w' := idle (blocker ENABLE) handlePopState (settle ENABLE)
              (settle ENABLE (set_router q (set_history h' w))) in
  inv ENABLE w' ∧ pending w' = [] ∧ foreign_listeners w' = foreign_listeners w ∧
  History.entries (history w') = History.entries h' ∧
  (History.index (history w') ≤ History.index h')%nat ∧
  if String.eqb q (location w)
  then history w' = h' ∧ issued w' = issued w ∧ refs w' = refs w ∧ location w' = q
  else if RegExp.test PAT q
  then history w' = h' ∧ issued w' = issued w ∧ refs w' = Some q ∧ location w' = q
  else if ENABLE
  then refs w = None ∧
       (∃ k, issued w' = issued w ++ repeat (NavigateDelta (-1)) (S k)) ∧
       (History.index (history w') ≤ pred (History.index h'))%nat ∧
       (RegExp.test PAT (location w') = true ∨ History.index (history w') = 0 ∨
        History.entries h' !! S (History.index (history w')) = Some (location w'))
  else history w' = h' ∧ issued w' = issued w ∧ refs w' = refs w ∧ location w' = q.
Proof.
  intros Hinv Hp Hwf Hb q w'. subst w'.
  set (w1 := set_router q (set_history h' w)).
  destruct (bog_settle ENABLE w w1 Hinv) as (Hi1 & Hh1 & Hl1 & Hcase); try done.
  pose proof (bog_settle_foreign ENABLE w1) as Hf1.
  change (foreign_listeners w1) with (foreign_listeners w) in Hf1.
  change (router w1) with q in *. change (location w1) with (location w) in Hcase.
  change (history w1) with h' in Hh1. change (issued w1) with (issued w) in Hcase.
  change (pending w1) with (pending w) in Hcase. change (refs w1) with (refs w) in Hcase.
  rewrite Hp in Hcase.
  set (w2 := settle ENABLE w1) in *.
  destruct (String.eqb_spec q (location w)) as [Heq|Hne].
  { assert (Hp2 : pending w2 = []) by by rewrite Hcase.
    rewrite idle_nil by done.
    split; [done|]. split; [done|]. split; [done|]. split; [by rewrite Hh1|].
    split; [by rewrite Hh1|]. by rewrite Hcase. }
  destruct (RegExp.test PAT q) eqn:Hq.
  { destruct Hcase as (His & Hpe & Hrf2). rewrite idle_nil by done.
    split; [done|]. split; [done|]. split; [done|]. split; [by rewrite Hh1|].
    split; [by rewrite Hh1|]. done. }
  destruct ENABLE.
  2:{ destruct Hcase as (His & Hpe & Hrf2). rewrite idle_nil by done.
      split; [done|]. split; [done|]. split; [done|]. split; [by rewrite Hh1|].
      split; [by rewrite Hh1|]. done. }
  destruct Hcase as (His & Hpe & Hrf2). cbn [app] in Hpe.
  unfold idle, patience. rewrite Hpe, Hh1. cbn [List.length Nat.add].
  assert (Hl2 : RegExp.test PAT (location w2) = false) by by rewrite Hl1.
  destruct (bog_cascade (S (History.index h')) w2 Hi1 Hl2 Hpe)
    as (Hi3 & Hp3 & Hf3 & He3 & Hx3 & [k Hk] & Hstop).
  { rewrite Hh1. lia. }
  rewrite Hh1 in He3, Hx3, Hstop.
  split; [done|]. split; [done|]. split; [by rewrite Hf3|]. split; [done|].
  split; [lia|].
  split.
  { rewrite bog_blocker in Hb. fold q in Hb. rewrite Hq in Hb. cbn in Hb.
    rewrite andb_true_r in Hb. by apply Hinv. }
  split; [|done].
  exists k. rewrite Hk, His. by rewrite <- app_assoc.
Qed.

Lemma bog_traverse_accepted ENABLE d w :
  inv ENABLE w → pending w = [] →
  let h := History.go d (history w) in
  ENABLE && RegExp.test PAT (location w) && negb (RegExp.test PAT (History.pathname h)) =
    false →
  step ENABLE (Traverse d) w =
  idle (blocker ENABLE) handlePopState (settle ENABLE)
    (settle ENABLE (set_router (History.pathname h) (set_history h w))).
Proof.
  intros Hinv Hp h Hb. pose proof Hinv as [[Hg Ha Hwf Hr] Hv _ _ _].
  unfold step. cbn zeta. fold h. unfold popstate_event, router_popstate.
  change (router (set_history h w)) with (router w).
  change (window_pathname (set_history h w)) with (History.pathname h).
  rewrite bog_blocker, Hr, Hb.
  rewrite (bog_dispatch ENABLE w) by done.
  change (window_pathname (router_sync _)) with (History.pathname h).
  by rewrite Hb.
Qed.

Lemma bog_navigate_eq ENABLE to w :
  inv ENABLE w → pending w = [] →
  step ENABLE (Navigate to) w =
  if blocker ENABLE (location w) to then w
  else
    let h := History.pushState to (history w) in
    idle (blocker ENABLE) handlePopState (settle ENABLE)
      (settle ENABLE (set_router (History.pathname h) (set_history h w))).
Proof.
  intros Hinv Hp. unfold step, navigate_push.
  rewrite (inv_router _ _ _ (bog_guard ENABLE w Hinv)).
  destruct (blocker ENABLE (location w) to); [by apply idle_nil|].
  cbn zeta. rewrite pushState_pathname; [done|apply Hinv].
Qed.

Lemma bog_step_inv ENABLE e w :
  inv ENABLE w → pending w = [] →
  inv ENABLE (step ENABLE e w) ∧ pending (step ENABLE e w) = [] ∧
  foreign_listeners (step ENABLE e w) = foreign_listeners w.
Proof.
  intros Hinv Hp. pose proof Hinv as [[Hg Ha Hwf Hr] Hv Ht Hu Hva].
  destruct e as [d|to].
  - destruct (ENABLE && RegExp.test PAT (location w) &&
              negb (RegExp.test PAT (History.pathname (History.go d (history w))))) eqn:Hb.
    + rewrite bog_traverse_blocked by done.
      assert (Hm : History.index (History.go d (history w)) ≠ History.index (history w)).
      { apply andb_true_iff in Hb as [Hb Hq]. apply andb_true_iff in Hb as [_ Hl].
        apply negb_true_iff in Hq. by apply (blocked_moved PAT). }
      split; [|done]. split; [split|..]; cbn; try done.
      * unfold History.wf in *. cbn. by rewrite length_insert.
      * unfold window_pathname. cbn. rewrite pathname_insert_ne by done.
        by rewrite pathname_eta.
    + rewrite bog_traverse_accepted by done.
      destruct (bog_adopt ENABLE (History.go d (history w)) w Hinv Hp) as (? & ? & ? & _).
      { by apply go_wf. }
      { by rewrite bog_blocker. }
      done.
  - rewrite bog_navigate_eq by done.
    destruct (blocker ENABLE (location w) to) eqn:Hb; [done|]. cbn zeta.
    destruct (bog_adopt ENABLE (History.pushState to (history w)) w Hinv Hp)
      as (? & ? & ? & _).
    { by apply pushState_wf. }
    { by rewrite pushState_pathname. }
    done.
Qed.

(** The mount, by cases on the location the application was opened on. *)
Lemma bog_mount_state ENABLE w :
  initial w → refs w = None →
  let w' := mount ENABLE w in
  inv ENABLE w' ∧ pending w' = [] ∧ foreign_listeners w' = foreign_listeners w ∧
  History.entries (history w') = History.entries (history w) ∧
  if RegExp.test PAT (router w)
  then history w' = history w ∧ issued w' = [] ∧ refs w' = Some (router w)
  else if ENABLE
  then (∃ k, issued w' = repeat (NavigateDelta (-1)) (S k)) ∧
       (History.index (history w') ≤ pred (History.index (history w)))%nat ∧
       (RegExp.test PAT (location w') = true ∨ History.index (history w') = 0 ∨
        History.entries (history w) !! S (History.index (history w')) = Some (location w'))
  else history w' = history w ∧ issued w' = [] ∧ refs w' = None.
Proof.
  intros (Hg & Hc & Hwf & Hr & Hi & Hp) Hrf. cbn zeta. unfold mount.
  set (w1 := set_location (router w) w).
  assert (Hg1 : guard_listeners w1 =
                match cleanup w1 with Some id => [HandlePopState id ""] | None => [] end).
  { change (guard_listeners w =
            match cleanup w with Some id => [HandlePopState id ""] | None => [] end).
    by rewrite Hc. }
  pose proof (bog_commit ENABLE "" w1 Hg1 Hwf eq_refl (eq_sym Hr)) as Hcm.
  cbn [refs set_location location w1] in Hcm. rewrite Hrf in Hcm.
  specialize (Hcm ltac:(done) ltac:(done)). cbn zeta in Hcm.
  cbn [history issued pending set_location w1] in Hcm. rewrite Hi, Hp in Hcm.
  pose proof (bog_commit_foreign ENABLE w1) as Hf.
  change (foreign_listeners w1) with (foreign_listeners w) in Hf.
  set (w2 := commit ENABLE w1) in *.
  destruct Hcm as (Hi2 & Hh2 & Hl2 & Hcase).
  rewrite (bog_settle_id ENABLE w2) by apply Hi2.
  destruct (RegExp.test PAT (router w)) eqn:Hq.
  { destruct Hcase as (His & Hpe & Hrf2). rewrite idle_nil by done.
    split; [done|]. split; [done|]. split; [done|]. split; [by rewrite Hh2|].
    by rewrite Hh2. }
  destruct ENABLE.
  2:{ destruct Hcase as (His & Hpe & Hrf2). rewrite idle_nil by done.
      split; [done|]. split; [done|]. split; [done|]. split; [by rewrite Hh2|].
      by rewrite Hh2. }
  destruct Hcase as (His & Hpe & Hrf2). cbn [app] in His, Hpe.
  unfold idle, patience. rewrite Hpe, Hh2. cbn [List.length Nat.add].
  assert (Hlq : RegExp.test PAT (location w2) = false) by by rewrite Hl2.
  destruct (bog_cascade (S (History.index (history w))) w2 Hi2 Hlq Hpe)
    as (Hi3 & Hp3 & Hf3 & He3 & Hx3 & [k Hk] & Hstop).
  { rewrite Hh2. lia. }
  rewrite Hh2 in He3, Hx3, Hstop.
  split; [done|]. split; [done|]. split; [by rewrite Hf3|]. split; [done|].
  split; [|done]. exists k. by rewrite Hk, His.
Qed.

Lemma bog_mount_inv ENABLE w :
  initial w → refs w = None →
  inv ENABLE (mount ENABLE w) ∧ pending (mount ENABLE w) = [].
Proof.
  intros Hi Hrf. by destruct (bog_mount_state ENABLE w Hi Hrf) as (? & ? & _).
Qed.

Lemma bog_run_inv ENABLE es w :
  inv ENABLE w → pending w = [] →
  inv ENABLE (run ENABLE es w) ∧ pending (run ENABLE es w) = [] ∧
  foreign_listeners (run ENABLE es w) = foreign_listeners w.
Proof.
  revert w. induction es as [|e es IH]; intros w Hinv Hp; [done|].
  simpl. destruct (bog_step_inv ENABLE e w Hinv Hp) as (H1 & H2 & H3).
  destruct (IH _ H1 H2) as (? & ? & ?). split; [done|]. split; [done|]. congruence.
Qed.

Lemma bog_reachable_inv ENABLE w :
  reachable ENABLE w → inv ENABLE w ∧ pending w = [].
Proof.
  intros (w0 & es & Hi & Hr & ->). destruct (bog_mount_inv ENABLE w0 Hi Hr).
  by destruct (bog_run_inv ENABLE es (mount ENABLE w0)) as (? & ? & _).
Qed.

End BuilderOnlyGuardFacts.

Section BuilderOnlyGuardStates.
Import BuilderOnlyGuard.
Implicit Type ENABLE : bool.
Local Abbreviation PAT := ALLOWED_FLOW_PATTERN.
Implicit Type w : Guard.

(** The step back that ends the cascade at once: from the first entry, or
    onto an entry of the pattern, or onto an entry that has the pathname
    stepped back from. *)
Lemma bog_cascade_one fuel w :
  inv true w → RegExp.test PAT (location w) = false →
  pending w = [((-1)%Z, false)] → (History.index (history w) < fuel)%nat →
  let w' := drain (blocker true) handlePopState (settle true) fuel w in
  match History.index (history w) with
  | 0 => w' = set_pending [] w
  | S i =>
      let h := {| History.entries := History.entries (history w); History.index := i |} in
      String.eqb (History.pathname h) (location w) || RegExp.test PAT (History.pathname h)
        = true →
      history w' = h ∧ issued w' = issued w ∧ location w' = History.pathname h
  end.
Proof.
  intros Hinv Hl Hp Hf. destruct fuel as [|fuel]; [lia|]. cbn zeta.
  destruct (History.index (history w)) as [|i] eqn:Hi.
  - by rewrite bog_cascade_first.
  - intros Hstop. rewrite (bog_cascade_step fuel i) by done.
    pose proof Hinv as [[_ _ Hwf Hr] Hvis _ _ _].
    set (h := {| History.entries := History.entries (history w); History.index := i |}) in *.
    set (w1 := router_sync (set_history h (set_pending [] w))).
    assert (Hwf1 : History.wf h).
    { unfold History.wf in *. cbn. lia. }
    destruct (bog_settle true w w1 Hinv) as (Hi1 & Hh1 & Hl1 & Hcase); try done.
    { change (blocker true (location w) (History.pathname h) = false).
      by rewrite bog_blocker, Hl. }
    change (router w1) with (History.pathname h) in *.
    change (location w1) with (location w) in Hcase.
    change (history w1) with h in Hh1.
    change (issued w1) with (issued w) in Hcase.
    change (pending w1) with (@nil (Z * bool)) in Hcase.
    set (w2 := settle true w1) in *.
    destruct (String.eqb (History.pathname h) (location w)) eqn:Heq.
    { rewrite Hcase. rewrite drain_nil by done. apply String.eqb_eq in Heq.
      split; [done|]. split; [done|]. done. }
    cbn [orb] in Hstop. rewrite Hstop in Hcase. destruct Hcase as (His & Hpe & _).
    rewrite drain_nil by done. done.
Qed.


(** What an event does to the tracker. *)
Lemma bog_adopt_refs ENABLE h' w :
  inv ENABLE w → pending w = [] → History.wf h' →
  blocker ENABLE (location w) (History.pathname h') = false →
  let w' := idle (blocker ENABLE) handlePopState (settle ENABLE)
              (settle ENABLE (set_router (History.pathname h') (set_history h' w))) in
  refs w' = refs w ∨ is_Some (refs w').
Proof.
  intros Hinv Hp Hwf Hb.
  destruct (bog_adopt ENABLE h' w Hinv Hp Hwf Hb) as (_ & _ & _ & _ & _ & H).
  cbn zeta in *.
  destruct (String.eqb _ _); [left; by destruct_and!|].
  destruct (RegExp.test PAT _); [right; by destruct H as (_ & _ & -> & _)|].
  destruct ENABLE; [|left; by destruct_and!].
  destruct H as (Hn & _). rewrite Hn.
  match goal with |- ?x = None ∨ _ => destruct x end; [by right|by left].
Qed.

Lemma bog_step_refs ENABLE e w :
  inv ENABLE w → pending w = [] →
  refs (step ENABLE e w) = refs w ∨ is_Some (refs (step ENABLE e w)).
Proof.
  intros Hinv Hp. pose proof Hinv as [[_ _ Hwf _] _ _ _ _]. destruct e as [d|to].
  - destruct (ENABLE && RegExp.test PAT (location w) &&
              negb (RegExp.test PAT (History.pathname (History.go d (history w))))) eqn:Hb.
    + rewrite bog_traverse_blocked by done. by left.
    + rewrite bog_traverse_accepted by done.
      apply bog_adopt_refs; [done|done|by apply go_wf|by rewrite bog_blocker].
  - rewrite bog_navigate_eq by done.
    destruct (blocker ENABLE (location w) to) eqn:Hb; [by left|]. cbn zeta.
    apply bog_adopt_refs; [done|done|by apply pushState_wf|].
    by rewrite pushState_pathname.
Qed.

Lemma bog_reachable_ind ENABLE (P : Guard → Prop) :
  (∀ w0, initial w0 → refs w0 = None → P (mount ENABLE w0)) →
  (∀ e w, inv ENABLE w → pending w = [] → P w → P (step ENABLE e w)) →
  ∀ w, reachable ENABLE w → P w.
Proof.
  intros Hm Hs w (w0 & es & Hi & Hr & ->).
  assert (H : ∀ es w, inv ENABLE w → pending w = [] → P w → P (run ENABLE es w)).
  { clear - Hs. intros es. induction es as [|e es IH]; intros w Hinv Hp HP; [done|].
    change (run ENABLE (e :: es) w) with (run ENABLE es (step ENABLE e w)).
    destruct (bog_step_inv ENABLE e w Hinv Hp) as (? & ? & _).
    apply IH; [done|done|by apply Hs]. }
  destruct (bog_mount_inv ENABLE w0 Hi Hr). apply H; [done|done|by apply Hm].
Qed.

End BuilderOnlyGuardStates.
(** ** usePreventNavigation: the invariant of the mounted hook *)

Section UsePreventNavigationFacts.
Import UsePreventNavigation.
Implicit Type w : World unit.
Implicit Type enabled : bool.
Implicit Type pat : RegExp.node.

(** Replacing the entry that was just pushed by the same path changes
    nothing. *)
Lemma replaceState_pushState p h :
  History.wf h → History.replaceState p (History.pushState p h) = History.pushState p h.
Proof.
  unfold History.wf, History.replaceState, History.pushState. cbn. intros Hwf.
  f_equal. apply list_insert_id.
  rewrite lookup_app_r; rewrite length_take; [|lia].
  by replace (S (History.index h) - S (History.index h) `min` length (History.entries h))
    with 0 by lia.
Qed.

Lemma guard_listeners_set_captured id cap p w :
  guard_listeners w = [HandlePopState id cap] →
  guard_listeners (set_captured id p w) = [HandlePopState id p].
Proof.
  unfold guard_listeners, set_captured. cbn.
  generalize (listeners w). intros ls. induction ls as [|l ls IH]; [done|].
  destruct l as [n|id' cap']; cbn [map is_handler].
  - rewrite !filter_cons_False by done. apply IH.
  - rewrite filter_cons_True by done. intros [= -> -> Hls].
    rewrite Nat.eqb_refl, filter_cons_True by done. f_equal.
    revert Hls. clear. induction ls as [|l ls IH]; [done|].
    destruct l as [n|id' cap']; cbn [map is_handler].
    + rewrite !filter_cons_False by done. apply IH.
    + by rewrite filter_cons_True by done.
Qed.

Lemma upn_commit enabled pat cap w :
  guard_listeners w =
    match cleanup w with Some id => [HandlePopState id cap] | None => [] end →
  History.wf (history w) → router w = location w →
  let w' := commit enabled pat w in
  inv enabled pat w' ∧
  if enabled && RegExp.test pat (location w)
  then history w' = History.pushState (location w) (history w) ∧
       issued w' = issued w ++ [PushState (location w)]
  else history w' = history w ∧ issued w' = issued w.
Proof.
  intros Hg Hwf Hr. unfold commit.
  destruct (run_cleanup_guard cap w Hg) as [Hg' Hc'].
  destruct (run_cleanup_frame w) as (Hh & Hro & Hl & Hi & _).
  rewrite <- Hh, <- Hl, <- Hi. rewrite <- Hh in Hwf.
  rewrite <- Hro, <- Hl in Hr. clear Hh Hro Hl Hi Hg.
  revert Hg' Hc' Hwf Hr. generalize (run_cleanup w).
  intros w0. revert w0. clear. intros w Hg Hc Hwf Hr.
  unfold effect.
  destruct enabled, (RegExp.test pat (location w)) eqn:Ht; cbn;
    (split; [split; [split|]|]); cbn; rewrite ?Hc, ?Ht, ?Hg; try done;
    first [ by intros [? ?] | by apply pushState_wf
          | unfold guard_listeners in *; cbn;
            by rewrite filter_app, Hg, filter_cons_True by done
          | idtac ].
  - intros _. exists (location w). split; [apply last_snoc|done].
  - split; [by intros [? ?]|by intros [? ?]].
  - split; [by intros [? ?]|by intros [? ?]].
  - split; [by intros [? ?]|by intros [? ?]].
Qed.

Lemma upn_render_id enabled pat w :
  inv enabled pat w → render (commit enabled pat) w = w.
Proof.
  intros [[_ _ _ Hr] _]. unfold render. by rewrite Hr, String.eqb_refl.
Qed.

(** The render that follows an event. *)
Lemma upn_settle enabled pat cap w :
  guard_listeners w =
    match cleanup w with Some id => [HandlePopState id cap] | None => [] end →
  (router w = location w → is_Some (cleanup w) → cap = location w) →
  (is_Some (cleanup w) ↔ enabled = true ∧ RegExp.test pat (location w) = true) →
  History.wf (history w) →
  (router w = location w → is_Some (cleanup w) →
   ∃ p, last (History.entries (history w)) = Some p ∧ RegExp.test pat p = true) →
  let w' := settle enabled pat w in
  inv enabled pat w' ∧
  if String.eqb (router w) (location w) then w' = w
  else if enabled && RegExp.test pat (router w)
  then history w' = History.pushState (router w) (history w) ∧
       issued w' = issued w ++ [PushState (router w)]
  else history w' = history w ∧ issued w' = issued w.
Proof.
  intros Hg Hcap Ha Hwf Hn. cbn zeta. unfold settle, render.
  destruct (String.eqb_spec (router w) (location w)) as [Heq|Hne].
  - split; [|done]. split; [split|]; try done; [|by apply Hn].
    destruct (cleanup w) eqn:Hc; [|done]. by rewrite <- (Hcap Heq) by by eexists.
  - by apply (upn_commit enabled pat cap (set_location (router w) w)).
Qed.

Lemma upn_armed enabled pat w :
  inv enabled pat w →
  enabled && RegExp.test pat (location w) = bool_decide (is_Some (cleanup w)).
Proof.
  intros [[_ Ha _ _] _]. case_bool_decide as Hc.
  - apply Ha in Hc as [-> ->]. done.
  - destruct enabled, (RegExp.test pat (location w)); try done.
    destruct Hc. by apply Ha.
Qed.

(** An out-of-band traversal by [d]. *)
Lemma upn_traverse enabled pat d w :
  inv enabled pat w →
  let h := History.go d (history w) in
  let q := History.pathname h in
  let w' := step enabled pat (Traverse d) w in
  inv enabled pat w' ∧
  if enabled && RegExp.test pat (location w) && negb (RegExp.test pat q)
  then history w' = History.pushState (location w) h ∧
       issued w' = issued w ++ [PushState (location w); NavigateReplace (location w)] ∧
       location w' = location w
  else if String.eqb q (location w)
  then history w' = h ∧ issued w' = issued w
  else if enabled && RegExp.test pat q
  then history w' = History.pushState q h ∧ issued w' = issued w ++ [PushState q]
  else history w' = h ∧ issued w' = issued w.
Proof.
  intros Hinv h q w'. subst w'. rewrite (upn_armed enabled pat w Hinv).
  unfold step. cbn zeta. rewrite popstate_event_unblocked. fold h.
  set (w1 := router_sync (set_history h w)).
  assert (Hwf1 : History.wf h) by (apply go_wf, Hinv).
  destruct Hinv as [[Hg Ha Hwf Hr] Hn].
  destruct (cleanup w) as [id|] eqn:Hc.
  - rewrite (dispatch_popstate_one _ id (location w)) by done.
    rewrite bool_decide_eq_true_2 by by eexists.
    unfold handlePopState. change (window_pathname w1) with q.
    destruct (RegExp.test pat q) eqn:Hq; cbn [negb andb].
    + destruct (upn_settle enabled pat q (set_captured id q w1)) as [Hi Hs].
      * cbn [cleanup set_captured set_listeners]. change (cleanup w1) with (cleanup w).
        rewrite Hc. by apply (guard_listeners_set_captured id (location w)).
      * done.
      * cbn. by rewrite Hc.
      * done.
      * cbn. intros _ _. destruct Hn as (p & Hp & Htp); [by eexists|].
        exists p. unfold h. by rewrite go_entries.
      * split; [done|]. change (router (set_captured id q w1)) with q in Hs.
        change (location (set_captured id q w1)) with (location w) in Hs.
        destruct (String.eqb q (location w)); [by rewrite Hs|].
        rewrite Hq in Hs. exact Hs.
    + set (l := location w).
      set (w2 := navigate_replace l (window_pushState l w1)).
      destruct (upn_settle enabled pat l w2) as [Hi Hs].
      * cbn. by rewrite Hc.
      * done.
      * cbn. by rewrite Hc.
      * change (History.wf (History.replaceState l (History.pushState l h))).
        by apply replaceState_wf, pushState_wf.
      * intros _ _. exists l.
        change (history w2) with (History.replaceState l (History.pushState l h)).
        rewrite replaceState_pushState by done.
        split; [apply pushState_last|]. apply Ha. by eexists.
      * split; [done|]. change (router w2) with l in Hs.
        change (location w2) with l in Hs. rewrite String.eqb_refl in Hs.
        rewrite Hs.
        change (history w2) with (History.replaceState l (History.pushState l h)).
        change (issued w2) with ((issued w ++ [PushState l]) ++ [NavigateReplace l]).
        by rewrite replaceState_pushState, <- app_assoc.
  - rewrite dispatch_popstate_none by done.
    rewrite bool_decide_eq_false_2 by by intros [? ?].
    cbn [andb].
    destruct (upn_settle enabled pat "" w1) as [Hi Hs].
    + change (guard_listeners w = match cleanup w with
                                  | Some id => [HandlePopState id ""]
                                  | None => []
                                  end).
      by rewrite Hc.
    + change (cleanup w1) with (cleanup w). rewrite Hc. by intros _ [? ?].
    + change (cleanup w1) with (cleanup w). by rewrite Hc.
    + done.
    + change (cleanup w1) with (cleanup w). rewrite Hc. by intros _ [? ?].
    + split; [done|]. change (router w1) with q in Hs.
      change (location w1) with (location w) in Hs.
      destruct (String.eqb q (location w)); [by rewrite Hs|exact Hs].
Qed.

(** A navigation through the router: nothing vetoes it, the hook pushes once
    more when it lands on a matching location. *)
Lemma upn_navigate_inv enabled pat to w :
  inv enabled pat w → inv enabled pat (step enabled pat (Navigate to) w).
Proof.
  intros [[Hg Ha Hwf Hr] Hn]. unfold step, navigate_push.
  set (w1 := set_router to (set_history (History.pushState to (history w)) w)).
  destruct (upn_settle enabled pat (location w) w1) as [Hi _]; try done.
  - by apply pushState_wf.
  - change (router w1) with to. change (location w1) with (location w).
    change (cleanup w1) with (cleanup w). intros -> Hc. exists (location w).
    split; [apply pushState_last|]. by apply Ha.
Qed.

Lemma upn_step_inv enabled pat e w :
  inv enabled pat w → inv enabled pat (step enabled pat e w).
Proof.
  intros Hinv. destruct e as [d|to].
  - by apply (upn_traverse enabled pat d w).
  - by apply upn_navigate_inv.
Qed.

Lemma upn_mount_inv enabled pat w : initial w → inv enabled pat (mount enabled pat w).
Proof.
  intros (Hg & Hc & Hwf & Hr & _). unfold mount.
  apply (upn_commit enabled pat "" (set_location (router w) w)); [|done..].
  change (guard_listeners w = match cleanup w with
                              | Some id => [HandlePopState id ""]
                              | None => []
                              end).
  by rewrite Hc.
Qed.

Lemma upn_run_inv enabled pat es w :
  inv enabled pat w → inv enabled pat (run enabled pat es w).
Proof.
  revert w. induction es as [|e es IH]; intros w Hinv; [done|].
  simpl. apply IH. by apply upn_step_inv.
Qed.

Lemma upn_reachable_inv enabled pat w :
  reachable enabled pat w → inv enabled pat w.
Proof. intros (w0 & es & Hi & ->). by apply upn_run_inv, upn_mount_inv. Qed.


End UsePreventNavigationFacts.

Transparent ALLOWED_FLOW_PATTERN.

Lemma boot_initial {R : Type} entries index (r : R) :
  index < length entries → initial (boot entries index r).
Proof. intros H. by repeat split. Qed.

(** ** The scenarios of the specification, on the flow pattern *)

(** 1: from [/flow/abc] the navigation to [/settings] is vetoed and
    nothing changes. *)
Example scenario_blocked :
  let w := BuilderOnlyGuard.mount true (boot ["/"; "/flow/abc"] 1 None) in
  BuilderOnlyGuard.blocker true "/flow/abc" "/settings" = true ∧
  BuilderOnlyGuard.step true (Navigate "/settings") w = w ∧
  window_pathname w = "/flow/abc".
Proof. vm_compute. by repeat split. Qed.

(** 2: from [/flow/abc] the navigation to [/flow/def] is allowed. *)
Example scenario_allowed :
  let w := BuilderOnlyGuard.mount true (boot ["/"; "/flow/abc"] 1 None) in
  let w' := BuilderOnlyGuard.step true (Navigate "/flow/def") w in
  BuilderOnlyGuard.blocker true "/flow/abc" "/flow/def" = false ∧
  window_pathname w' = "/flow/def" ∧ refs w' = Some "/flow/def".
Proof. vm_compute. by repeat split. Qed.

(** 3: a native back from [/flow/abc] to [/] is vetoed by the router, which
    returns to the entry of [/flow/abc], and corrected with a replace, which
    overwrites the entry that was landed on. *)
Example scenario_native_back :
  let w := BuilderOnlyGuard.mount true (boot ["/"; "/flow/abc"] 1 None) in
  let w' := BuilderOnlyGuard.step true (Traverse (-1)) w in
  issued w' = [NavigateReplace "/flow/abc"] ∧
  history w' = History.mk ["/flow/abc"; "/flow/abc"] 1 ∧
  window_pathname w' = "/flow/abc".
Proof. vm_compute. by repeat split. Qed.

(** 4: with the guard disabled the transition of scenario 1 is allowed. *)
Example scenario_disabled :
  let w := BuilderOnlyGuard.mount false (boot ["/"; "/flow/abc"] 1 None) in
  let w' := BuilderOnlyGuard.step false (Navigate "/settings") w in
  BuilderOnlyGuard.blocker false "/flow/abc" "/settings" = false ∧
  window_pathname w' = "/settings" ∧ issued w' = [].
Proof. vm_compute. by repeat split. Qed.

(** 5: the application boots on [/settings] and the user goes forward to
    another location outside of the pattern: the guard steps back, and
    asks for one more step back on the entry it arrives at, which is
    outside of the pattern too; that one has no entry to go to. *)
Example scenario_fallback :
  let w := BuilderOnlyGuard.mount true (boot ["/settings"; "/other"] 0 None) in
  let w' := BuilderOnlyGuard.step true (Traverse 1) w in
  corrections w w' = [NavigateDelta (-1); NavigateDelta (-1)] ∧
  history w' = History.mk ["/settings"; "/other"] 0 ∧
  window_pathname w' = "/settings".
Proof. vm_compute. by repeat split. Qed.

(** The same back navigation against the hook: the first one lands on the
    entry the hook pushed when it was mounted, the second one is answered
    by a push and a replace. *)
Example scenario_hook_back :
  let w := UsePreventNavigation.mount true ALLOWED_FLOW_PATTERN
             (boot ["/"; "/flow/abc"] 1 tt) in
  let w1 := UsePreventNavigation.step true ALLOWED_FLOW_PATTERN (Traverse (-1)) w in
  let w2 := UsePreventNavigation.step true ALLOWED_FLOW_PATTERN (Traverse (-1)) w1 in
  history w = History.mk ["/"; "/flow/abc"; "/flow/abc"] 2 ∧
  history w1 = History.mk ["/"; "/flow/abc"; "/flow/abc"] 1 ∧
  history w2 = History.mk ["/"; "/flow/abc"] 1 ∧
  corrections w1 w2 = [PushState "/flow/abc"; NavigateReplace "/flow/abc"].
Proof. vm_compute. by repeat split. Qed.

(** * The claims *)

(** C1. The veto decision of the blocker callback, in [RouteBlocker] and in
    [BuilderOnlyGuard], is true exactly when the guard is enabled, the
    current location matches the pattern and the next one does not; with
    the guard disabled it is false for all locations. *)
Theorem veto_decision_iff :
  (∀ enabled pat A B,
     RouteBlocker.blocker enabled pat A B = true ↔
     enabled = true ∧ RegExp.test pat A = true ∧ RegExp.test pat B = false) ∧
  (∀ ENABLE A B,
     BuilderOnlyGuard.blocker ENABLE A B = true ↔
     ENABLE = true ∧ RegExp.test ALLOWED_FLOW_PATTERN A = true ∧
     RegExp.test ALLOWED_FLOW_PATTERN B = false) ∧
  (∀ pat A B, RouteBlocker.blocker false pat A B = false) ∧
  (∀ A B, BuilderOnlyGuard.blocker false A B = false).
Proof.
  unfold RouteBlocker.blocker, BuilderOnlyGuard.blocker.
  split; [|split; [|by split]].
  - intros enabled pat A B.
    destruct enabled, (RegExp.test pat A), (RegExp.test pat B);
      (split; [done|by intros (? & ? & ?)]).
  - intros ENABLE A B.
    destruct ENABLE, (RegExp.test ALLOWED_FLOW_PATTERN A),
      (RegExp.test ALLOWED_FLOW_PATTERN B);
      (split; [done|by intros (? & ? & ?)]).
Qed.




(** Nor is there a step back when the entry landed on has the pathname the
    guard already renders (two entries of the settings page that differ in
    their query string, say): the effects are keyed on the pathname, none
    of them runs again, and the guard issues no command. *)
Lemma same_pathname_not_corrected :
  let w := BuilderOnlyGuard.mount true (boot ["/settings"; "/settings"] 0 None) in
  let h := History.go 1 (history w) in
  let w' := BuilderOnlyGuard.step true (Traverse 1) w in
  BuilderOnlyGuard.reachable true w ∧
  refs w = None ∧
  History.index h = 1 ∧
  RegExp.test ALLOWED_FLOW_PATTERN (History.pathname h) = false ∧
  corrections w w' = [] ∧
  history w' = h ∧
  ¬ (corrections w w' = [NavigateDelta (-1)] ∧ History.index (history w') = 0).
Proof.
  cbn zeta. split; [|vm_compute; repeat split; by intros [? _]].
  exists (boot ["/settings"; "/settings"] 0 None), [].
  split; [apply boot_initial; simpl; lia|]. split; reflexivity.
Qed.

(** Blocked attempts against a confined [BuilderOnlyGuard]: the router
    undoes every one of them, and the handler overwrites the entry that
    was landed on. *)
Lemma bog_blocked_attempts ds w :
  BuilderOnlyGuard.inv true w → pending w = [] →
  RegExp.test ALLOWED_FLOW_PATTERN (location w) = true →
  blocked_attempts (BuilderOnlyGuard.step true) ALLOWED_FLOW_PATTERN ds w →
  let w' := BuilderOnlyGuard.run true (map Traverse ds) w in
  BuilderOnlyGuard.inv true w' ∧ location w' = location w ∧
  History.size (history w') = History.size (history w) ∧
  History.index (history w') = History.index (history w) ∧
  issued w' = issued w ++ repeat (NavigateReplace (location w)) (length ds).
Proof.
  revert w. induction ds as [|d ds IH]; intros w Hinv Hp Hl Hb.
  - cbn. by rewrite app_nil_r.
  - destruct Hb as [Hq Hb]. cbn [map].
    change (BuilderOnlyGuard.run true (Traverse d :: map Traverse ds) w)
      with (BuilderOnlyGuard.run true (map Traverse ds)
              (BuilderOnlyGuard.step true (Traverse d) w)).
    destruct (bog_step_inv true (Traverse d) w Hinv Hp) as (Hinv1 & Hp1 & _).
    revert Hinv1 Hp1 Hb.
    rewrite bog_traverse_blocked by by rewrite ?Hl, ?Hq.
    set (w1 := set_issued _ _). intros Hinv1 Hp1 Hb.
    destruct (IH w1 Hinv1 Hp1 Hl Hb) as (Hinv' & Hl' & Hs' & Hx' & Hi').
    split; [done|]. split; [done|].
    split; [rewrite Hs'; unfold History.size; cbn; by rewrite length_insert|].
    split; [by rewrite Hx'|].
    rewrite Hi'. cbn [issued w1 set_issued location set_history List.length repeat].
    by rewrite <- app_assoc.
Qed.

Lemma blocked_not_newest pat h p :
  History.wf h → last (History.entries h) = Some p →
  RegExp.test pat p = true → RegExp.test pat (History.pathname h) = false →
  S (History.index h) < History.size h.
Proof.
  unfold History.wf, History.size, History.pathname. intros Hwf Hlast Hp Hq.
  destruct (decide (History.index h = pred (length (History.entries h)))) as [Heq|Hne];
    [|lia].
  rewrite last_lookup, <- Heq in Hlast. rewrite Hlast in Hq. cbn in Hq. congruence.
Qed.

(** Blocked attempts against a confined [usePreventNavigation]. *)
Lemma upn_blocked_attempts pat ds w :
  UsePreventNavigation.inv true pat w →
  RegExp.test pat (location w) = true →
  blocked_attempts (UsePreventNavigation.step true pat) pat ds w →
  let w' := UsePreventNavigation.run true pat (map Traverse ds) w in
  UsePreventNavigation.inv true pat w' ∧ location w' = location w ∧
(History.size (history w') ≤ History.size (history w))%nat ∧
  issued w' =
    issued w ++
    concat (repeat [PushState (location w); NavigateReplace (location w)] (length ds)) ∧
  (ds ≠ [] → window_pathname w' = location w).
Proof.
  revert w. induction ds as [|d ds IH]; intros w Hinv Hl Hb.
  - cbn. by rewrite app_nil_r.
  - destruct Hb as [Hq Hb]. cbn [map UsePreventNavigation.run foldl].
    destruct (upn_traverse true pat d w Hinv) as [Hinv1 H].
    rewrite Hl, Hq in H. cbn [andb negb] in H. destruct H as (Hh & Hi & Hl1).
    set (w1 := UsePreventNavigation.step true pat (Traverse d) w) in *.
    assert (Hwf : History.wf (History.go d (history w))) by apply go_wf, Hinv.
    destruct (IH w1 Hinv1) as (Hinv' & Hl' & Hs' & Hi' & Hp'); [congruence|done|].
    fold (UsePreventNavigation.run true pat (map Traverse ds) w1) in *.
    split; [done|]. split; [congruence|].
    split.
    { rewrite Hh, pushState_size in Hs' by done.
      destruct (UsePreventNavigation.upn_newest true pat w Hinv) as (p & Hp & Htp).
      { apply Hinv. by split. }
      pose proof (blocked_not_newest pat (History.go d (history w)) p Hwf) as Hlt.
      rewrite go_entries, go_size in Hlt. specialize (Hlt Hp Htp Hq). lia. }
    split.
    { rewrite Hi', Hi, Hl1. cbn [length repeat concat]. by rewrite <- !app_assoc. }
    intros _. destruct ds as [|d' ds'].
    + change (window_pathname w1 = location w). unfold window_pathname.
      rewrite Hh. by apply pushState_pathname.
    + rewrite Hp' by done. done.
Qed.

(** C3, as the code has it.  For every [N ≥ 1], [N] consecutive blocked
    out-of-band attempts from a confined state leave the window on the one
    location the guard was confined to and do not grow the history.  In
    [BuilderOnlyGuard] the router undoes every attempt, every correction is
    a single replace-navigation, and the history keeps its size and its
    index; in [usePreventNavigation] every correction is a [pushState] of
    the current path followed by a replace-navigation, the push dropping
    the entries after the one landed on, so that the history is never
    longer than before the attempts. *)
Theorem blocked_attempts_one_location :
  (∀ ds w,
     BuilderOnlyGuard.reachable true w →
     RegExp.test ALLOWED_FLOW_PATTERN (location w) = true →
     ds ≠ [] →
     blocked_attempts (BuilderOnlyGuard.step true) ALLOWED_FLOW_PATTERN ds w →
     let w' := BuilderOnlyGuard.run true (map Traverse ds) w in
     window_pathname w' = location w ∧
     History.size (history w') = History.size (history w) ∧
     History.index (history w') = History.index (history w) ∧
     corrections w w' = repeat (NavigateReplace (location w)) (length ds)) ∧
  (∀ pat ds w,
     UsePreventNavigation.reachable true pat w →
     RegExp.test pat (location w) = true →
     ds ≠ [] →
     blocked_attempts (UsePreventNavigation.step true pat) pat ds w →
     let w' := UsePreventNavigation.run true pat (map Traverse ds) w in
     window_pathname w' = location w ∧
     (History.size (history w') ≤ History.size (history w))%nat ∧
     corrections w w' =
       concat (repeat [PushState (location w); NavigateReplace (location w)]
                 (length ds))).
Proof.
  split.
  - intros ds w [Hinv Hp]%bog_reachable_inv Hl Hne Hb.
    destruct (bog_blocked_attempts ds w Hinv Hp Hl Hb) as (Hinv' & Hl' & Hs & Hx & Hi).
    cbn zeta. rewrite (corrections_app _ _ _ Hi), Hs, Hx.
    split; [|done]. destruct Hinv' as [_ Hv _ _ _]. by rewrite Hv.
  - intros pat ds w Hinv%upn_reachable_inv Hl Hne Hb.
    destruct (upn_blocked_attempts pat ds w Hinv Hl Hb) as (_ & _ & Hs & Hi & Hp).
    cbn zeta. by rewrite (corrections_app _ _ _ Hi), Hp.
Qed.

Lemma blocked_attempts_one_location_witness :
  (let w := BuilderOnlyGuard.mount true (boot ["/"; "/settings"; "/flow/abc"] 2 None) in
   let w' := BuilderOnlyGuard.run true [Traverse (-1); Traverse (-2)] w in
   window_pathname w' = "/flow/abc" ∧
   History.size (history w') = 3 ∧
   History.index (history w') = 2 ∧
   corrections w w' = [NavigateReplace "/flow/abc"; NavigateReplace "/flow/abc"]) ∧
  (let w := UsePreventNavigation.run true ALLOWED_FLOW_PATTERN [Traverse (-1)]
              (UsePreventNavigation.mount true ALLOWED_FLOW_PATTERN
                 (boot ["/settings"; "/flow/abc"] 1 tt)) in
   let w' := UsePreventNavigation.run true ALLOWED_FLOW_PATTERN
               [Traverse (-1); Traverse (-1)] w in
   window_pathname w' = "/flow/abc" ∧
   (History.size (history w') ≤ 3)%nat ∧
   corrections w w' =
     [PushState "/flow/abc"; NavigateReplace "/flow/abc";
      PushState "/flow/abc"; NavigateReplace "/flow/abc"]).
Proof.
  split.
  - apply (proj1 blocked_attempts_one_location [-1; -2]%Z
             (BuilderOnlyGuard.mount true (boot ["/"; "/settings"; "/flow/abc"] 2 None))).
    + exists (boot ["/"; "/settings"; "/flow/abc"] 2 None), [].
      split; [apply boot_initial; simpl; lia|]. split; reflexivity.
    + reflexivity.
    + discriminate.
    + repeat split; reflexivity.
  - apply (proj2 blocked_attempts_one_location ALLOWED_FLOW_PATTERN [-1; -1]%Z
             (UsePreventNavigation.run true ALLOWED_FLOW_PATTERN [Traverse (-1)]
                (UsePreventNavigation.mount true ALLOWED_FLOW_PATTERN
                   (boot ["/settings"; "/flow/abc"] 1 tt)))).
    + exists (boot ["/settings"; "/flow/abc"] 1 tt), [Traverse (-1)].
      split; [apply boot_initial; simpl; lia|reflexivity].
    + reflexivity.
    + discriminate.
    + repeat split; reflexivity.
Defined.

(** C3 as stated fails for [usePreventNavigation]: one blocked back
    navigation from a confined state makes the hook push a history entry
    before it navigates with replace. *)
Lemma blocked_attempt_pushes :
  let w := UsePreventNavigation.run true ALLOWED_FLOW_PATTERN [Traverse (-1)]
             (UsePreventNavigation.mount true ALLOWED_FLOW_PATTERN
                (boot ["/settings"; "/flow/abc"] 1 tt)) in
  let w' := UsePreventNavigation.step true ALLOWED_FLOW_PATTERN (Traverse (-1)) w in
  UsePreventNavigation.reachable true ALLOWED_FLOW_PATTERN w ∧
  RegExp.test ALLOWED_FLOW_PATTERN (location w) = true ∧
  blocked_attempts (UsePreventNavigation.step true ALLOWED_FLOW_PATTERN)
    ALLOWED_FLOW_PATTERN [(-1)%Z] w ∧
  corrections w w' = [PushState "/flow/abc"; NavigateReplace "/flow/abc"] ∧
  ¬ Forall (λ o, is_replace o = true) (corrections w w').
Proof.
  cbn zeta. split; [|split; [reflexivity|split; [by split|split; [reflexivity|]]]].
  - exists (boot ["/settings"; "/flow/abc"] 1 tt), [Traverse (-1)].
    split; [apply boot_initial; simpl; lia|reflexivity].
  - intros H. apply Forall_cons_1 in H as [H _]. discriminate H.
Qed.

Lemma flow_prefix c rest :
  "/flow/" +:+ String c rest =
  String "/" (String "f" (String "l" (String "o" (String "w" (String "/" (String c rest)))))).
Proof. reflexivity. Qed.

(** C4. The documentation of the guard lists [/flow/id/view] among the
    paths the pattern does not match; the pattern has no end anchor and
    does match it, as it matches every path that extends [/flow/<id>]. *)
Theorem view_route_matches :
  RegExp.test ALLOWED_FLOW_PATTERN "/flow/id/view" = true ∧
  ∀ c id, RegExp.test ALLOWED_FLOW_PATTERN ("/flow/" +:+ String c (id +:+ "/view")) =
          negb (Ascii.eqb c "/").
Proof.
  split; [reflexivity|]. intros c id.
  destruct (Ascii.eqb_spec c "/"%char) as [->|Hc]; cbn [negb].
  - apply not_true_is_false. intros (c' & rest & Heq & Hc')%test_ALLOWED_FLOW_PATTERN.
    rewrite !flow_prefix in Heq. congruence.
  - apply test_ALLOWED_FLOW_PATTERN. by exists c, (id +:+ "/view").
Qed.

(** C5. The tracker of [BuilderOnlyGuard].  After the locations [ps] were
    rendered, the ref holds the last of them that matches the pattern, and
    what it held before when none matches; a render of a location that does
    not match leaves it alone; a ref that holds a location holds one after
    any further renders.  In the mounted guard no event unsets the ref or
    stores a location outside of the pattern. *)
Theorem tracker_last_valid :
  (∀ ps w,
     refs (BuilderOnlyGuard.track_all ps w) =
     match last (filter (λ p, RegExp.test ALLOWED_FLOW_PATTERN p = true) ps) with
     | Some p => Some p
     | None => refs w
     end) ∧
  (∀ p w,
     RegExp.test ALLOWED_FLOW_PATTERN p = false →
     refs (BuilderOnlyGuard.tracking_effect (set_location p w)) = refs w) ∧
  (∀ ps w,
     is_Some (refs w) → is_Some (refs (BuilderOnlyGuard.track_all ps w))) ∧
  (∀ ENABLE e w,
     BuilderOnlyGuard.reachable ENABLE w →
     let w' := BuilderOnlyGuard.step ENABLE e w in
     (refs w' = refs w ∨
      ∃ p, refs w' = Some p ∧ RegExp.test ALLOWED_FLOW_PATTERN p = true) ∧
     (is_Some (refs w) → is_Some (refs w'))).
Proof.
  assert (Hall : ∀ ps w,
     refs (BuilderOnlyGuard.track_all ps w) =
     match last (filter (λ p, RegExp.test ALLOWED_FLOW_PATTERN p = true) ps) with
     | Some p => Some p
     | None => refs w
     end).
  { intros ps. induction ps as [|p ps IH] using rev_ind; intros w; [done|].
    unfold BuilderOnlyGuard.track_all in *. rewrite foldl_app. cbn [foldl].
    rewrite filter_app. unfold BuilderOnlyGuard.tracking_effect at 1.
    cbn [location set_location].
    destruct (RegExp.test ALLOWED_FLOW_PATTERN p) eqn:Hp.
    - rewrite filter_cons_True, filter_nil, last_snoc by done. done.
    - rewrite filter_cons_False, filter_nil, app_nil_r by congruence.
      cbn [refs set_location]. apply IH. }
  split; [exact Hall|]. split; [|split].
  - intros p w Hp. unfold BuilderOnlyGuard.tracking_effect. cbn [location set_location].
    by rewrite Hp.
  - intros ps w [l Hl]. rewrite Hall, Hl. by destruct (last _).
  - intros ENABLE e w [Hinv Hp]%bog_reachable_inv w'.
    destruct (bog_step_inv ENABLE e w Hinv Hp) as (Hinv' & _). fold w' in Hinv'.
    assert (H : refs w' = refs w ∨
                ∃ p, refs w' = Some p ∧ RegExp.test ALLOWED_FLOW_PATTERN p = true).
    { destruct (bog_step_refs ENABLE e w Hinv Hp) as [H|[p Hr]]; [by left|].
      right. exists p. split; [done|].
      apply (BuilderOnlyGuard.bog_valid ENABLE w' Hinv'). exact Hr. }
    split; [done|]. intros [l Hl]. destruct H as [->|(p & -> & _)]; by eexists.
Qed.

Lemma tracker_last_valid_witness :
  (refs (BuilderOnlyGuard.tracking_effect (set_location "/settings" (boot ["/flow/abc"] 0 (Some "/flow/abc")))) =
   Some "/flow/abc") ∧
  is_Some (refs (BuilderOnlyGuard.track_all ["/settings"; "/"]
                   (boot ["/flow/abc"] 0 (Some "/flow/abc")))) ∧
  is_Some (refs (BuilderOnlyGuard.step true (Traverse (-1))
                   (BuilderOnlyGuard.mount true (boot ["/"; "/flow/abc"] 1 None)))).
Proof.
  destruct tracker_last_valid as (_ & H2 & H3 & H4).
  split; [|split].
  - apply (H2 "/settings" (boot ["/flow/abc"] 0 (Some "/flow/abc"))). reflexivity.
  - apply (H3 ["/settings"; "/"] (boot ["/flow/abc"] 0 (Some "/flow/abc"))).
    by eexists.
  - apply (H4 true (Traverse (-1))
             (BuilderOnlyGuard.mount true (boot ["/"; "/flow/abc"] 1 None))).
    + exists (boot ["/"; "/flow/abc"] 1 None), [].
      split; [apply boot_initial; simpl; lia|]. split; reflexivity.
    + by eexists.
Defined.

(** C6. The pattern matcher accepts exactly the paths made of ["/flow/"], a
    first identifier character other than a slash, and anything after it:
    ["/flow/abc"] and every path below it match, the scope root ["/flow/"]
    and the sibling ["/flows"] do not, and a path that carries the prefix
    elsewhere than at its start does not either. *)
Theorem pattern_prefix_rule :
  (∀ s, RegExp.test ALLOWED_FLOW_PATTERN s = true ↔
        ∃ c rest, s = "/flow/" +:+ String c rest ∧ c ≠ "/"%char) ∧
  RegExp.test ALLOWED_FLOW_PATTERN "/flow/abc" = true ∧
  (∀ rest, RegExp.test ALLOWED_FLOW_PATTERN ("/flow/abc" +:+ rest) = true) ∧
  RegExp.test ALLOWED_FLOW_PATTERN "/flow/" = false ∧
  RegExp.test ALLOWED_FLOW_PATTERN "/flow" = false ∧
  (∀ rest, RegExp.test ALLOWED_FLOW_PATTERN ("/flows" +:+ rest) = false) ∧
  (∀ c s, RegExp.test ALLOWED_FLOW_PATTERN (String c ("/flow/abc" +:+ s)) = false).
Proof.
  split; [exact test_ALLOWED_FLOW_PATTERN|].
  split; [reflexivity|]. split; [|split; [reflexivity|split; [reflexivity|split]]].
  - intros rest. apply test_ALLOWED_FLOW_PATTERN. by exists "a"%char, ("bc" +:+ rest).
  - intros rest. apply not_true_is_false.
    intros (c & r & Heq & Hc)%test_ALLOWED_FLOW_PATTERN. rewrite flow_prefix in Heq.
    change ("/flows" +:+ rest) with
      (String "/" (String "f" (String "l" (String "o" (String "w" (String "s" rest))))))
      in Heq.
    congruence.
  - intros c s. apply not_true_is_false.
    intros (c' & r & Heq & Hc)%test_ALLOWED_FLOW_PATTERN. rewrite flow_prefix in Heq.
    change ("/flow/abc" +:+ s) with ("/flow/" +:+ String "a" ("bc" +:+ s)) in Heq.
    rewrite flow_prefix in Heq. congruence.
Qed.

Lemma unarmed_no_listener {R : Type} enabled pat (w : World R) :
  guard_inv enabled pat w →
  enabled = false ∨ RegExp.test pat (location w) = false →
  cleanup w = None ∧ guard_listeners w = [].
Proof.
  intros [Hg Ha _ _] Hoff. destruct (cleanup w) as [id|] eqn:Hc; [|done].
  destruct (proj1 Ha) as [-> Ht]; [by eexists|]. destruct Hoff; congruence.
Qed.

(** C7. On an out-of-band notification, when the guard is disabled or the
    location landed on matches the pattern, [RouteBlocker] and
    [BuilderOnlyGuard] issue no history command: the history is the one
    the traversal left and the window keeps showing the location landed
    on. *)
Theorem accepted_unchanged :
  (∀ enabled pat d w,
     RouteBlocker.reachable enabled pat w →
     enabled = false ∨
     RegExp.test pat (History.pathname (History.go d (history w))) = true →
     let w' := RouteBlocker.step enabled pat (Traverse d) w in
     corrections w w' = [] ∧ history w' = History.go d (history w) ∧
     window_pathname w' = History.pathname (History.go d (history w))) ∧
  (∀ ENABLE d w,
     BuilderOnlyGuard.reachable ENABLE w →
     ENABLE = false ∨
     RegExp.test ALLOWED_FLOW_PATTERN (History.pathname (History.go d (history w))) = true →
     let w' := BuilderOnlyGuard.step ENABLE (Traverse d) w in
     corrections w w' = [] ∧ history w' = History.go d (history w) ∧
     window_pathname w' = History.pathname (History.go d (history w))).
Proof.
  split.
  - intros enabled pat d w [Hinv Hrest]%rb_reachable_inv Hacc w'.
    destruct (rb_traverse enabled pat d w Hinv Hrest) as (Hh & Hi & _). fold w' in Hh, Hi.
    assert (Hb : enabled && RegExp.test pat (location w) &&
                 negb (RegExp.test pat (History.pathname (History.go d (history w)))) = false).
    { destruct Hacc as [->| ->]; [done|]. cbn. by rewrite andb_false_r. }
    rewrite Hb in Hh, Hi. rewrite (corrections_app _ _ _ Hi).
    unfold window_pathname. by rewrite Hh.
  - intros ENABLE d w [Hinv Hp]%bog_reachable_inv Hacc w'.
    set (h := History.go d (history w)) in *.
    assert (Hwfh : History.wf h) by apply go_wf, Hinv.
    assert (Hb : ENABLE && RegExp.test ALLOWED_FLOW_PATTERN (location w) &&
                 negb (RegExp.test ALLOWED_FLOW_PATTERN (History.pathname h)) = false).
    { destruct Hacc as [->| ->]; [done|]. by rewrite andb_false_r. }
    subst w'. rewrite bog_traverse_accepted by done. fold h.
    destruct (bog_adopt ENABLE h w Hinv Hp Hwfh) as (_ & _ & _ & _ & _ & H).
    { by rewrite bog_blocker. }
    cbn zeta in H. set (w' := idle _ _ _ _) in *.
    assert (Hh : history w' = h ∧ issued w' = issued w).
    { destruct (String.eqb _ (location w)); [by destruct_and!|].
      destruct Hacc as [->|Hq].
      - destruct (RegExp.test ALLOWED_FLOW_PATTERN _); by destruct_and!.
      - rewrite Hq in H. by destruct_and!. }
    destruct Hh as [Hh Hi]. unfold corrections, window_pathname.
    by rewrite Hi, Hh, drop_all.
Qed.

Lemma accepted_unchanged_witness :
  (let w := RouteBlocker.mount true ALLOWED_FLOW_PATTERN
              (boot ["/flow/abc"; "/flow/def"] 1 tt) in
   let w' := RouteBlocker.step true ALLOWED_FLOW_PATTERN (Traverse (-1)) w in
   corrections w w' = [] ∧ history w' = History.mk ["/flow/abc"; "/flow/def"] 0 ∧
   window_pathname w' = "/flow/abc") ∧
  (let w := BuilderOnlyGuard.mount false (boot ["/"; "/flow/abc"] 1 None) in
   let w' := BuilderOnlyGuard.step false (Traverse (-1)) w in
   corrections w w' = [] ∧ history w' = History.mk ["/"; "/flow/abc"] 0 ∧
   window_pathname w' = "/").
Proof.
  split.
  - apply (proj1 accepted_unchanged true ALLOWED_FLOW_PATTERN (-1)%Z
             (RouteBlocker.mount true ALLOWED_FLOW_PATTERN
                (boot ["/flow/abc"; "/flow/def"] 1 tt))).
    + exists (boot ["/flow/abc"; "/flow/def"] 1 tt), [].
      split; [apply boot_initial; simpl; lia|reflexivity].
    + right. reflexivity.
  - apply (proj2 accepted_unchanged false (-1)%Z
             (BuilderOnlyGuard.mount false (boot ["/"; "/flow/abc"] 1 None))).
    + exists (boot ["/"; "/flow/abc"] 1 None), [].
      split; [apply boot_initial; simpl; lia|]. split; reflexivity.
    + left. reflexivity.
Defined.

(** C8. The warning [RouteBlocker] logs on a blocked transition is written
    only when [NODE_ENV] is ["development"], and the decision handed to the
    router is the same in every build mode: it is the value of the blocker
    callback, which does not read the mode. *)
Theorem log_never_decides enabled pat A B :
  (∀ env1 env2,
     fst (RouteBlocker.transition enabled pat env1 A B) =
     fst (RouteBlocker.transition enabled pat env2 A B)) ∧
  (∀ env, fst (RouteBlocker.transition enabled pat env A B) =
          RouteBlocker.blocker enabled pat A B) ∧
  (∀ env, env ≠ "development" →
          snd (RouteBlocker.transition enabled pat env A B) = []) ∧
  (∀ env, snd (RouteBlocker.transition enabled pat env A B) ≠ [] →
          env = "development" ∧ RouteBlocker.blocker enabled pat A B = true).
Proof.
  unfold RouteBlocker.transition, RouteBlocker.useBlocker, RouteBlocker.log_effect.
  cbn [fst snd]. split; [done|]. split; [done|]. split.
  - intros env Hne. destruct (RouteBlocker.blocker enabled pat A B); [|done].
    by rewrite (proj2 (String.eqb_neq _ _)).
  - intros env H. destruct (RouteBlocker.blocker enabled pat A B); [|done].
    by destruct (String.eqb_spec env "development").
Qed.

Lemma log_never_decides_witness :
  snd (RouteBlocker.transition true ALLOWED_FLOW_PATTERN "production"
         "/flow/abc" "/settings") = [] ∧
  fst (RouteBlocker.transition true ALLOWED_FLOW_PATTERN "production"
         "/flow/abc" "/settings") = true ∧
  fst (RouteBlocker.transition true ALLOWED_FLOW_PATTERN "development"
         "/flow/abc" "/settings") = true.
Proof.
  destruct (log_never_decides true ALLOWED_FLOW_PATTERN "/flow/abc" "/settings")
    as (H1 & H2 & H3 & _).
  split; [apply H3; discriminate|].
  split; [by rewrite (H1 "production" "development"), H2|by rewrite H2].
Defined.

(** C9. Unmounting releases the popstate subscription: after the unmount
    of a [RouteBlocker], of a component that uses [usePreventNavigation] or
    of a [BuilderOnlyGuard], in whatever state the events left it, no
    [handlePopState] of the guard is registered on the window, no cleanup
    is pending, and the listeners of the rest of the application are the
    ones that were there. *)
Theorem unmount_releases :
  (∀ enabled pat w,
     RouteBlocker.reachable enabled pat w →
     guard_listeners (RouteBlocker.unmount w) = [] ∧
     cleanup (RouteBlocker.unmount w) = None ∧
     foreign_listeners (RouteBlocker.unmount w) = foreign_listeners w) ∧
  (∀ enabled pat w,
     UsePreventNavigation.reachable enabled pat w →
     guard_listeners (UsePreventNavigation.unmount w) = [] ∧
     cleanup (UsePreventNavigation.unmount w) = None ∧
     foreign_listeners (UsePreventNavigation.unmount w) = foreign_listeners w) ∧
  (∀ ENABLE w,
     BuilderOnlyGuard.reachable ENABLE w →
     guard_listeners (BuilderOnlyGuard.unmount w) = [] ∧
     cleanup (BuilderOnlyGuard.unmount w) = None ∧
     foreign_listeners (BuilderOnlyGuard.unmount w) = foreign_listeners w).
Proof.
  split; [|split].
  - intros enabled pat w [[Hg _ _ _] _]%rb_reachable_inv.
    unfold RouteBlocker.unmount.
    destruct (run_cleanup_guard (location w) w Hg) as [? ?].
    by rewrite run_cleanup_foreign.
  - intros enabled pat w [[Hg _ _ _] _]%upn_reachable_inv.
    unfold UsePreventNavigation.unmount.
    destruct (run_cleanup_guard (location w) w Hg) as [? ?].
    by rewrite run_cleanup_foreign.
  - intros ENABLE w [[[Hg _ _ _] _ _ _ _] _]%bog_reachable_inv.
    unfold BuilderOnlyGuard.unmount.
    destruct (run_cleanup_guard (location w) w Hg) as [? ?].
    by rewrite run_cleanup_foreign.
Qed.

Lemma unmount_releases_witness :
  (let w := RouteBlocker.run true ALLOWED_FLOW_PATTERN [Traverse (-1); Navigate "/flow/x"]
              (RouteBlocker.mount true ALLOWED_FLOW_PATTERN (boot ["/"; "/flow/abc"] 1 tt)) in
   guard_listeners (RouteBlocker.unmount w) = [] ∧
   cleanup (RouteBlocker.unmount w) = None ∧
   foreign_listeners (RouteBlocker.unmount w) = [Foreign 0]) ∧
  (let w := UsePreventNavigation.run true ALLOWED_FLOW_PATTERN [Traverse (-1); Traverse (-1)]
              (UsePreventNavigation.mount true ALLOWED_FLOW_PATTERN
                 (boot ["/"; "/flow/abc"] 1 tt)) in
   guard_listeners (UsePreventNavigation.unmount w) = [] ∧
   cleanup (UsePreventNavigation.unmount w) = None ∧
   foreign_listeners (UsePreventNavigation.unmount w) = [Foreign 0]) ∧
  (let w := BuilderOnlyGuard.run true [Traverse (-1); Navigate "/flow/x"]
              (BuilderOnlyGuard.mount true (boot ["/"; "/flow/abc"] 1 None)) in
   guard_listeners (BuilderOnlyGuard.unmount w) = [] ∧
   cleanup (BuilderOnlyGuard.unmount w) = None ∧
   foreign_listeners (BuilderOnlyGuard.unmount w) = [Foreign 0]).
Proof.
  destruct unmount_releases as (H1 & H2 & H3). split; [|split].
  - apply (H1 true ALLOWED_FLOW_PATTERN
             (RouteBlocker.run true ALLOWED_FLOW_PATTERN [Traverse (-1); Navigate "/flow/x"]
                (RouteBlocker.mount true ALLOWED_FLOW_PATTERN (boot ["/"; "/flow/abc"] 1 tt)))).
    exists (boot ["/"; "/flow/abc"] 1 tt), [Traverse (-1); Navigate "/flow/x"].
    split; [apply boot_initial; simpl; lia|reflexivity].
  - apply (H2 true ALLOWED_FLOW_PATTERN
             (UsePreventNavigation.run true ALLOWED_FLOW_PATTERN [Traverse (-1); Traverse (-1)]
                (UsePreventNavigation.mount true ALLOWED_FLOW_PATTERN
                   (boot ["/"; "/flow/abc"] 1 tt)))).
    exists (boot ["/"; "/flow/abc"] 1 tt), [Traverse (-1); Traverse (-1)].
    split; [apply boot_initial; simpl; lia|reflexivity].
  - apply (H3 true
             (BuilderOnlyGuard.run true [Traverse (-1); Navigate "/flow/x"]
                (BuilderOnlyGuard.mount true (boot ["/"; "/flow/abc"] 1 None)))).
    exists (boot ["/"; "/flow/abc"] 1 None), [Traverse (-1); Navigate "/flow/x"].
    split; [apply boot_initial; simpl; lia|]. split; reflexivity.
Defined.

(** C10, as the code has it.  In [RouteBlocker] and [usePreventNavigation]
    the popstate handler is registered only while the rendered location
    matches the pattern.  From a location that does not match, an
    out-of-band navigation to any location is accepted: the window shows
    the location landed on, and the guard issues neither a
    replace-navigation nor a step back.  [RouteBlocker] leaves the history
    as the traversal left it.  [usePreventNavigation] does so when the
    landing is outside of the pattern or the hook is disabled; on a
    matching landing the effect that now registers the handler pushes the
    landing location once more, which drops the entries after it. *)
Theorem unarmed_accepts :
  (∀ enabled pat d w,
     RouteBlocker.reachable enabled pat w →
     RegExp.test pat (location w) = false →
     guard_listeners w = [] ∧
     let h := History.go d (history w) in
     let w' := RouteBlocker.step enabled pat (Traverse d) w in
     window_pathname w' = History.pathname h ∧
     corrections w w' = [] ∧ history w' = h) ∧
  (∀ enabled pat d w,
     UsePreventNavigation.reachable enabled pat w →
     RegExp.test pat (location w) = false →
     guard_listeners w = [] ∧
     let h := History.go d (history w) in
     let w' := UsePreventNavigation.step enabled pat (Traverse d) w in
     window_pathname w' = History.pathname h ∧
     if enabled && RegExp.test pat (History.pathname h)
     then corrections w w' = [PushState (History.pathname h)] ∧
          history w' = History.pushState (History.pathname h) h
     else corrections w w' = [] ∧ history w' = h).
Proof.
  split.
  - intros enabled pat d w [Hinv Hrest]%rb_reachable_inv Hl.
    split; [by apply (unarmed_no_listener enabled pat); [|right]|].
    destruct (rb_traverse enabled pat d w Hinv Hrest) as (Hh & Hi & _).
    rewrite Hl, andb_false_r in Hh, Hi. cbn [andb] in Hh, Hi. cbn zeta.
    rewrite (corrections_app _ _ _ Hi). unfold window_pathname. by rewrite Hh.
  - intros enabled pat d w Hinv%upn_reachable_inv Hl.
    split; [by apply (unarmed_no_listener enabled pat); [apply Hinv|right]|].
    destruct (upn_traverse enabled pat d w Hinv) as [_ H]. cbn zeta in *.
    set (h := History.go d (history w)) in *.
    assert (Hwf : History.wf h) by apply go_wf, Hinv.
    rewrite Hl, andb_false_r in H. cbn [andb] in H.
    assert (Hne : String.eqb (History.pathname h) (location w) = true →
                  RegExp.test pat (History.pathname h) = false).
    { intros ->%String.eqb_eq. done. }
    destruct (String.eqb (History.pathname h) (location w)).
    + rewrite Hne, andb_false_r by done. destruct H as [Hh Hi].
      unfold corrections, window_pathname. by rewrite Hh, Hi, drop_all.
    + destruct (enabled && RegExp.test pat (History.pathname h));
        destruct H as [Hh Hi]; unfold window_pathname; rewrite Hh.
      * rewrite (corrections_app _ _ _ Hi). by rewrite pushState_pathname.
      * unfold corrections. by rewrite Hi, drop_all.
Qed.

Lemma unarmed_accepts_witness :
  (let w := RouteBlocker.mount true ALLOWED_FLOW_PATTERN
              (boot ["/"; "/settings"; "/flows"] 1 tt) in
   guard_listeners w = [] ∧
   let w' := RouteBlocker.step true ALLOWED_FLOW_PATTERN (Traverse 1) w in
   window_pathname w' = "/flows" ∧ corrections w w' = [] ∧
   history w' = History.mk ["/"; "/settings"; "/flows"] 2) ∧
  (let w := UsePreventNavigation.mount true ALLOWED_FLOW_PATTERN
              (boot ["/flow/abc"; "/settings"; "/flows"] 1 tt) in
   guard_listeners w = [] ∧
   let w' := UsePreventNavigation.step true ALLOWED_FLOW_PATTERN (Traverse (-1)) w in
   window_pathname w' = "/flow/abc" ∧
   corrections w w' = [PushState "/flow/abc"] ∧
   history w' = History.mk ["/flow/abc"; "/flow/abc"] 1).
Proof.
  split.
  - apply (proj1 unarmed_accepts true ALLOWED_FLOW_PATTERN 1%Z
             (RouteBlocker.mount true ALLOWED_FLOW_PATTERN
                (boot ["/"; "/settings"; "/flows"] 1 tt))).
    + exists (boot ["/"; "/settings"; "/flows"] 1 tt), [].
      split; [apply boot_initial; simpl; lia|reflexivity].
    + reflexivity.
  - apply (proj2 unarmed_accepts true ALLOWED_FLOW_PATTERN (-1)%Z
             (UsePreventNavigation.mount true ALLOWED_FLOW_PATTERN
                (boot ["/flow/abc"; "/settings"; "/flows"] 1 tt))).
    + exists (boot ["/flow/abc"; "/settings"; "/flows"] 1 tt), [].
      split; [apply boot_initial; simpl; lia|reflexivity].
    + reflexivity.
Defined.

(** C10 as stated fails for [usePreventNavigation] on a matching landing:
    the hook, unarmed on the settings page, sees a Back onto a flow route;
    its effect runs for the new location, registers the handler and pushes
    the flow route, so that the history is not the one the traversal left:
    the entry of the settings page, which was one step forward, is gone. *)
Lemma unarmed_landing_pushes :
  let w := UsePreventNavigation.mount true ALLOWED_FLOW_PATTERN
             (boot ["/flow/abc"; "/settings"] 1 tt) in
  let h := History.go (-1) (history w) in
  let w' := UsePreventNavigation.step true ALLOWED_FLOW_PATTERN (Traverse (-1)) w in
  UsePreventNavigation.reachable true ALLOWED_FLOW_PATTERN w ∧
  RegExp.test ALLOWED_FLOW_PATTERN (location w) = false ∧
  guard_listeners w = [] ∧
  h = History.mk ["/flow/abc"; "/settings"] 0 ∧
  corrections w w' = [PushState "/flow/abc"] ∧
  history w' = History.mk ["/flow/abc"; "/flow/abc"] 1 ∧
  history w' ≠ h.
Proof.
  cbn zeta. split; [|vm_compute; repeat split; discriminate].
  exists (boot ["/flow/abc"; "/settings"] 1 tt), [].
  split; [apply boot_initial; simpl; lia|reflexivity].
Qed.

(** * Further properties of the guards *)

Opaque ALLOWED_FLOW_PATTERN.

(** ** RouteBlocker *)

(** Once an enabled RouteBlocker renders a matching location, no sequence
    of traversals and navigations brings it to render another kind of
    location, and the window shows what is rendered. *)
Theorem rb_confinement pat es w :
  RouteBlocker.reachable true pat w →
  RegExp.test pat (location w) = true →
  let w' := RouteBlocker.run true pat es w in
  RegExp.test pat (location w') = true ∧
  window_pathname w' = location w' ∧
  RegExp.test pat (window_pathname w') = true.
Proof.
  intros [Hinv Hrest]%rb_reachable_inv Hl w'.
  assert (Hc : RegExp.test pat (location w') = true).
  { subst w'. revert w Hinv Hrest Hl.
    induction es as [|e es IH]; intros w Hinv Hrest Hl; [done|].
    change (RouteBlocker.run true pat (e :: es) w)
      with (RouteBlocker.run true pat es (RouteBlocker.step true pat e w)).
    destruct (rb_step_inv true pat e w Hinv Hrest).
    apply IH; [done|done|by apply rb_confined_step]. }
  destruct (rb_run_inv true pat es w Hinv Hrest) as [_ [_ Hv]]. fold w' in Hv.
  by rewrite Hv.
Qed.

Lemma rb_confinement_witness :
  let w := RouteBlocker.run true ALLOWED_FLOW_PATTERN
             [Traverse (-1); Navigate "/settings"; Navigate "/flow/def"; Traverse (-2)]
             (RouteBlocker.mount true ALLOWED_FLOW_PATTERN
                (boot ["/"; "/settings"; "/flow/abc"] 2 tt)) in
  RegExp.test ALLOWED_FLOW_PATTERN (location w) = true ∧
  window_pathname w = location w ∧
  RegExp.test ALLOWED_FLOW_PATTERN (window_pathname w) = true.
Proof.
  apply (rb_confinement ALLOWED_FLOW_PATTERN
           [Traverse (-1); Navigate "/settings"; Navigate "/flow/def"; Traverse (-2)]
           (RouteBlocker.mount true ALLOWED_FLOW_PATTERN
              (boot ["/"; "/settings"; "/flow/abc"] 2 tt))).
  - exists (boot ["/"; "/settings"; "/flow/abc"] 2 tt), [].
    split; [apply boot_initial; simpl; lia|reflexivity].
  - reflexivity.
Defined.

(** ** BuilderOnlyGuard *)

Section BuilderOnlyGuardMore.
Import BuilderOnlyGuard.
Implicit Type ENABLE : bool.
Local Abbreviation PAT := ALLOWED_FLOW_PATTERN.
Implicit Type w : Guard.

(** With the mode enabled, a ref that holds a location holds the rendered
    one. *)
Lemma bog_ref_location w l : inv true w → refs w = Some l → location w = l.
Proof.
  intros Hinv Hl. destruct (RegExp.test PAT (location w)) eqn:Ht.
  - rewrite (bog_tracked true w Hinv Ht) in Hl. congruence.
  - rewrite (bog_untracked true w Hinv eq_refl Ht) in Hl. done.
Qed.

Lemma bog_empty_invalid ENABLE w :
  inv ENABLE w → refs w = None → RegExp.test PAT (location w) = false.
Proof.
  intros Hinv Hn. destruct (RegExp.test PAT (location w)) eqn:Ht; [|done].
  rewrite (bog_tracked ENABLE w Hinv Ht) in Hn. done.
Qed.

Lemma bog_adopt_confined h' w :
  inv true w → pending w = [] → History.wf h' →
  RegExp.test PAT (History.pathname h') = true →
  let w' := idle (blocker true) handlePopState (settle true)
              (settle true (set_router (History.pathname h') (set_history h' w))) in
  history w' = h' ∧ issued w' = issued w ∧ location w' = History.pathname h'.
Proof.
  intros Hinv Hp Hwf Hq.
  destruct (bog_adopt true h' w Hinv Hp Hwf) as (_ & _ & _ & _ & _ & H).
  { by rewrite bog_blocker, Hq, andb_false_r. }
  cbn zeta in *. rewrite Hq in H.
  destruct (String.eqb _ _); by destruct_and!.
Qed.

Lemma bog_confined_step e w :
  inv true w → pending w = [] → RegExp.test PAT (location w) = true →
  RegExp.test PAT (location (step true e w)) = true.
Proof.
  intros Hinv Hp Hl. pose proof Hinv as [[_ _ Hwf _] _ _ _ _]. destruct e as [d|to].
  - destruct (RegExp.test PAT (History.pathname (History.go d (history w)))) eqn:Hq.
    + rewrite bog_traverse_accepted by by rewrite ?Hq, ?andb_false_r.
      destruct (bog_adopt_confined (History.go d (history w)) w) as (_ & _ & ->);
        try done. by apply go_wf.
    + rewrite bog_traverse_blocked by by rewrite ?Hl, ?Hq. done.
  - rewrite bog_navigate_eq by done. rewrite bog_blocker, Hl. cbn [andb].
    destruct (RegExp.test PAT to) eqn:Hto; cbn [negb]; [|done]. cbn zeta.
    destruct (bog_adopt_confined (History.pushState to (history w)) w) as (_ & _ & ->);
      try done.
    + by apply pushState_wf.
    + by rewrite pushState_pathname.
    + by rewrite pushState_pathname.
Qed.

End BuilderOnlyGuardMore.

(** Once the enabled BuilderOnlyGuard renders a flow route, no sequence of
    traversals and navigations makes it render anything else: after every
    event the rendered location matches the pattern, the window shows it
    and the ref holds it. *)
Theorem bog_confinement es w :
  BuilderOnlyGuard.reachable true w →
  RegExp.test ALLOWED_FLOW_PATTERN (location w) = true →
  let w' := BuilderOnlyGuard.run true es w in
  RegExp.test ALLOWED_FLOW_PATTERN (location w') = true ∧
  window_pathname w' = location w' ∧
  refs w' = Some (location w').
Proof.
  intros [Hinv Hp]%bog_reachable_inv Hl w'.
  assert (Hc : RegExp.test ALLOWED_FLOW_PATTERN (location w') = true).
  { subst w'. revert w Hinv Hp Hl.
    induction es as [|e es IH]; intros w Hinv Hp Hl; [done|].
    change (BuilderOnlyGuard.run true (e :: es) w)
      with (BuilderOnlyGuard.run true es (BuilderOnlyGuard.step true e w)).
    destruct (bog_step_inv true e w Hinv Hp) as (? & ? & _).
    apply IH; [done|done|by apply bog_confined_step]. }
  destruct (bog_run_inv true es w Hinv Hp) as (Hinv' & _). fold w' in Hinv'.
  split; [done|]. split; [apply Hinv'|].
  exact (BuilderOnlyGuard.bog_tracked true w' Hinv' Hc).
Qed.

Lemma bog_confinement_witness :
  let w := BuilderOnlyGuard.run true
             [Traverse (-1); Navigate "/settings"; Navigate "/flow/def"; Traverse (-2)]
             (BuilderOnlyGuard.mount true (boot ["/"; "/settings"; "/flow/abc"] 2 None)) in
  RegExp.test ALLOWED_FLOW_PATTERN (location w) = true ∧
  window_pathname w = location w ∧
  refs w = Some (location w).
Proof.
  apply (bog_confinement
           [Traverse (-1); Navigate "/settings"; Navigate "/flow/def"; Traverse (-2)]
           (BuilderOnlyGuard.mount true (boot ["/"; "/settings"; "/flow/abc"] 2 None))).
  - exists (boot ["/"; "/settings"; "/flow/abc"] 2 None), [].
    split; [apply boot_initial; simpl; lia|]. split; reflexivity.
  - reflexivity.
Defined.

(** ** usePreventNavigation *)

Section UsePreventNavigationMore.
Import UsePreventNavigation.
Implicit Type w : World unit.
Implicit Type enabled : bool.
Implicit Type pat : RegExp.node.

Lemma upn_effect_frame enabled pat w :
  router (effect enabled pat w) = router w ∧
  location (effect enabled pat w) = location w ∧
  foreign_listeners (effect enabled pat w) = foreign_listeners w.
Proof.
  unfold effect. destruct enabled, (RegExp.test pat (location w)); try done.
  repeat split.
  apply (foreign_listeners_add (next_id w) (location w)
           (window_pushState (location w) (set_next_id (S (next_id w)) w))).
Qed.

Lemma upn_settle_frame enabled pat w :
  router (settle enabled pat w) = router w ∧
  location (settle enabled pat w) = router w ∧
  foreign_listeners (settle enabled pat w) = foreign_listeners w.
Proof.
  unfold settle, render.
  destruct (String.eqb_spec (router w) (location w)) as [Heq|Hne]; [done|].
  unfold commit.
  destruct (upn_effect_frame enabled pat (run_cleanup (set_location (router w) w)))
    as (-> & -> & ->).
  rewrite run_cleanup_foreign.
  by destruct (run_cleanup_frame (set_location (router w) w)) as (_ & -> & -> & _).
Qed.

Lemma foreign_listeners_set_captured id p w :
  foreign_listeners (set_captured id p w) = foreign_listeners w.
Proof.
  unfold foreign_listeners, set_captured. cbn.
  generalize (listeners w). intros ls. induction ls as [|l ls IH]; [done|].
  destruct l as [n|id' cap]; cbn [map is_handler].
  - rewrite !filter_cons_True by done. by rewrite IH.
  - rewrite (filter_cons_False _ (HandlePopState id' cap)) by done.
    destruct (Nat.eqb id id'); by rewrite filter_cons_False by done.
Qed.

(** The state after a traversal. *)
Lemma upn_traverse_state enabled pat d w :
  inv enabled pat w →
  let h := History.go d (history w) in
  let q := History.pathname h in
  let w' := step enabled pat (Traverse d) w in
  location w' =
    (if enabled && RegExp.test pat (location w) && negb (RegExp.test pat q)
     then location w else q) ∧
  foreign_listeners w' = foreign_listeners w.
Proof.
  intros Hinv h q w'. subst w'. rewrite (upn_armed enabled pat w Hinv).
  unfold step. cbn zeta. rewrite popstate_event_unblocked. fold h.
  set (w1 := router_sync (set_history h w)).
  destruct (upn_settle_frame enabled pat (dispatch_popstate (handlePopState pat) w1))
    as (_ & -> & ->).
  destruct Hinv as [[Hg _ _ _] _]. destruct (cleanup w) as [id|] eqn:Hc.
  - rewrite (dispatch_popstate_one _ id (location w)) by done.
    rewrite bool_decide_eq_true_2 by by eexists.
    unfold handlePopState. change (window_pathname w1) with q.
    destruct (RegExp.test pat q); cbn [negb andb]; [|done].
    by rewrite foreign_listeners_set_captured.
  - rewrite dispatch_popstate_none by done.
    by rewrite bool_decide_eq_false_2 by by intros [? ?].
Qed.

(** The state after a navigation through the router, which nothing vetoes. *)
Lemma upn_navigate_state enabled pat to w :
  inv enabled pat w →
  let h := History.pushState to (history w) in
  let w' := step enabled pat (Navigate to) w in
  location w' = to ∧ foreign_listeners w' = foreign_listeners w ∧
  if String.eqb to (location w) then history w' = h ∧ issued w' = issued w
  else if enabled && RegExp.test pat to
  then history w' = History.pushState to h ∧ issued w' = issued w ++ [PushState to]
  else history w' = h ∧ issued w' = issued w.
Proof.
  intros Hinv h w'. subst w'.
  set (w1 := set_router to (set_history h w)).
  change (step enabled pat (Navigate to) w) with (settle enabled pat w1).
  destruct (upn_settle_frame enabled pat w1) as (_ & -> & ->).
  split; [done|]. split; [done|].
  destruct Hinv as [[Hg Ha Hwf Hr] Hn].
  destruct (upn_settle enabled pat (location w) w1) as [_ Hs]; try done.
  - by apply pushState_wf.
  - change (router w1) with to. change (location w1) with (location w).
    change (cleanup w1) with (cleanup w). intros -> Hc. exists (location w).
    split; [apply pushState_last|]. by apply Ha.
  - change (router w1) with to in Hs. change (location w1) with (location w) in Hs.
    destruct (String.eqb to (location w)); [by rewrite Hs|exact Hs].
Qed.

Lemma upn_visible_step enabled pat e w :
  inv enabled pat w → window_pathname w = location w →
  window_pathname (step enabled pat e w) = location (step enabled pat e w).
Proof.
  intros Hinv Hp. assert (Hwf : History.wf (history w)) by apply Hinv.
  destruct e as [d|to].
  - destruct (upn_traverse enabled pat d w Hinv) as [_ H].
    destruct (upn_traverse_state enabled pat d w Hinv) as [Hl _]. cbn zeta in *.
    set (h := History.go d (history w)) in *.
    assert (Hwfh : History.wf h) by by apply go_wf.
    unfold window_pathname. rewrite Hl.
    destruct (enabled && RegExp.test pat (location w) && negb _).
    + destruct H as (-> & _ & _). by apply pushState_pathname.
    + destruct (String.eqb _ (location w)); [by destruct H as [-> _]|].
      destruct (enabled && _); destruct H as [-> _]; [|done].
      by apply pushState_pathname.
  - destruct (upn_navigate_state enabled pat to w Hinv) as (Hl & _ & H). cbn zeta in *.
    unfold window_pathname. rewrite Hl.
    assert (Hwfp : History.wf (History.pushState to (history w))) by by apply pushState_wf.
    destruct (String.eqb to (location w)).
    + destruct H as [-> _]. by apply pushState_pathname.
    + destruct (enabled && _); destruct H as [-> _]; by apply pushState_pathname.
Qed.

Lemma upn_mount_state enabled pat w :
  initial w →
  let w' := mount enabled pat w in
  location w' = router w ∧ foreign_listeners w' = foreign_listeners w ∧
  if enabled && RegExp.test pat (router w)
  then history w' = History.pushState (router w) (history w) ∧
       issued w' = [PushState (router w)]
  else history w' = history w ∧ issued w' = [].
Proof.
  intros (Hg & Hc & Hwf & Hr & Hi & _). cbn zeta. unfold mount.
  assert (Hg0 : guard_listeners (set_location (router w) w) =
                match cleanup (set_location (router w) w) with
                | Some id => [HandlePopState id ""]
                | None => []
                end).
  { change (guard_listeners w = match cleanup w with
                                | Some id => [HandlePopState id ""]
                                | None => []
                                end).
    by rewrite Hc. }
  destruct (upn_commit enabled pat "" (set_location (router w) w) Hg0 Hwf eq_refl)
    as [_ H].
  cbn [location set_location history issued] in H. rewrite Hi in H.
  unfold commit in *.
  destruct (upn_effect_frame enabled pat (run_cleanup (set_location (router w) w)))
    as (_ & -> & ->).
  rewrite run_cleanup_foreign.
  destruct (run_cleanup_frame (set_location (router w) w)) as (_ & _ & -> & _).
  done.
Qed.

Lemma upn_reachable_visible enabled pat w :
  reachable enabled pat w → window_pathname w = location w.
Proof.
  intros (w0 & es & Hi & ->).
  assert (H : ∀ es w, inv enabled pat w → window_pathname w = location w →
                      window_pathname (run enabled pat es w) =
                      location (run enabled pat es w)).
  { clear. intros es. induction es as [|e es IH]; intros w Hinv Hp; [done|].
    cbn. apply IH; [by apply upn_step_inv|by apply upn_visible_step]. }
  apply H; [by apply upn_mount_inv|].
  destruct (upn_mount_state enabled pat w0 Hi) as (Hl & _ & Hm). cbn zeta in *.
  unfold window_pathname. rewrite Hl.
  destruct Hi as (_ & _ & Hwf & Hr & _).
  destruct (enabled && _); destruct Hm as [-> _]; [by apply pushState_pathname|done].
Qed.

End UsePreventNavigationMore.

(** usePreventNavigation installs no blocker: a navigation through the
    router to a location outside of the pattern goes through, the window
    shows it, the hook issues nothing and its handler is unsubscribed. *)
Theorem upn_navigation_not_vetoed enabled pat to w :
  UsePreventNavigation.reachable enabled pat w →
  RegExp.test pat to = false →
  let w' := UsePreventNavigation.step enabled pat (Navigate to) w in
  location w' = to ∧ window_pathname w' = to ∧
  history w' = History.pushState to (history w) ∧
  corrections w w' = [] ∧ guard_listeners w' = [].
Proof.
  intros Hr Hto w'. pose proof (upn_reachable_inv enabled pat w Hr) as Hinv.
  destruct (upn_navigate_state enabled pat to w Hinv) as (Hl & _ & H).
  cbn zeta in H. fold w' in Hl, H.
  rewrite Hto, andb_false_r in H.
  assert (Hh : history w' = History.pushState to (history w) ∧ issued w' = issued w).
  { by destruct (String.eqb to (location w)). }
  destruct Hh as [Hh Hi].
  pose proof (upn_step_inv enabled pat (Navigate to) w Hinv) as Hinv'. fold w' in Hinv'.
  split; [done|]. split.
  { unfold window_pathname. rewrite Hh. apply pushState_pathname, Hinv. }
  split; [done|]. split; [unfold corrections; by rewrite Hi, drop_all|].
  apply (unarmed_no_listener enabled pat w'); [apply Hinv'|]. right. by rewrite Hl.
Qed.

Lemma upn_navigation_not_vetoed_witness :
  let w := UsePreventNavigation.mount true ALLOWED_FLOW_PATTERN
             (boot ["/"; "/flow/abc"] 1 tt) in
  let w' := UsePreventNavigation.step true ALLOWED_FLOW_PATTERN (Navigate "/settings") w in
  location w' = "/settings" ∧ window_pathname w' = "/settings" ∧
  history w' = History.mk ["/"; "/flow/abc"; "/flow/abc"; "/settings"] 3 ∧
  corrections w w' = [] ∧ guard_listeners w' = [].
Proof.
  apply (upn_navigation_not_vetoed true ALLOWED_FLOW_PATTERN "/settings"
           (UsePreventNavigation.mount true ALLOWED_FLOW_PATTERN
              (boot ["/"; "/flow/abc"] 1 tt))).
  - exists (boot ["/"; "/flow/abc"] 1 tt), [].
    split; [apply boot_initial; simpl; lia|reflexivity].
  - reflexivity.
Defined.

(** Mounting usePreventNavigation on a matching location pushes that
    location once more, so the first back navigation lands on the entry the
    application was mounted on: it shows the same path and is not
    answered by any command. *)
Theorem upn_first_back_absorbed pat w0 :
  initial w0 →
  RegExp.test pat (router w0) = true →
  let w := UsePreventNavigation.mount true pat w0 in
  let w' := UsePreventNavigation.step true pat (Traverse (-1)) w in
  history w = History.pushState (router w0) (history w0) ∧
  issued w = [PushState (router w0)] ∧
  window_pathname w' = router w0 ∧
  corrections w w' = [] ∧
  History.index (history w') = History.index (history w0).
Proof.
  intros Hi Hp w w'.
  pose proof (upn_mount_inv true pat w0 Hi) as Hinv. fold w in Hinv.
  destruct (upn_mount_state true pat w0 Hi) as (Hl & _ & Hm). cbn zeta in Hl, Hm.
  fold w in Hl, Hm. rewrite Hp in Hm. cbn [andb] in Hm. destruct Hm as [Hh His].
  destruct Hi as (_ & _ & Hwf & Hr & _).
  set (h := History.go (-1) (history w)).
  assert (Hgo : h = History.mk (History.entries (history w)) (History.index (history w0))).
  { unfold h. apply go_back; [apply Hinv|]. by rewrite Hh. }
  assert (Hq : History.pathname h = router w0).
  { rewrite Hgo, Hr, Hh. unfold window_pathname, History.pathname. cbn.
    unfold History.wf in Hwf.
    rewrite lookup_app_l by (rewrite length_take; lia).
    by rewrite lookup_take_lt by lia. }
  destruct (upn_traverse true pat (-1) w Hinv) as [_ H]. cbn zeta in H.
  fold h w' in H. rewrite Hq, Hl, Hp, String.eqb_refl in H. cbn [andb negb] in H.
  destruct H as [Hh' Hi'].
  split; [done|]. split; [done|]. unfold window_pathname, corrections.
  rewrite Hh', Hi', drop_all, Hq. by rewrite Hgo.
Qed.

Lemma upn_first_back_absorbed_witness :
  let w := UsePreventNavigation.mount true ALLOWED_FLOW_PATTERN
             (boot ["/"; "/flow/abc"] 1 tt) in
  let w' := UsePreventNavigation.step true ALLOWED_FLOW_PATTERN (Traverse (-1)) w in
  history w = History.mk ["/"; "/flow/abc"; "/flow/abc"] 2 ∧
  issued w = [PushState "/flow/abc"] ∧
  window_pathname w' = "/flow/abc" ∧
  corrections w w' = [] ∧
  History.index (history w') = 1.
Proof.
  apply (upn_first_back_absorbed ALLOWED_FLOW_PATTERN (boot ["/"; "/flow/abc"] 1 tt)).
  - apply boot_initial. simpl. lia.
  - reflexivity.
Defined.

(** Each navigation through the router to another matching location leaves
    two new history entries: the router's and the one the hook pushes when
    its effect runs again. *)
Theorem upn_navigate_pushes_twice pat to w :
  UsePreventNavigation.reachable true pat w →
  RegExp.test pat to = true →
  to ≠ location w →
  let w' := UsePreventNavigation.step true pat (Navigate to) w in
  history w' = History.pushState to (History.pushState to (history w)) ∧
  corrections w w' = [PushState to] ∧
  History.size (history w') = S (S (S (History.index (history w)))).
Proof.
  intros Hr Hto Hne w'. pose proof (upn_reachable_inv true pat w Hr) as Hinv.
  destruct (upn_navigate_state true pat to w Hinv) as (_ & _ & H).
  cbn zeta in H. fold w' in H.
  rewrite (proj2 (String.eqb_neq _ _)), Hto in H by done. cbn [andb] in H.
  destruct H as [Hh Hi]. rewrite (corrections_app _ _ _ Hi), Hh.
  repeat split. rewrite pushState_size by apply pushState_wf, Hinv. done.
Qed.

Lemma upn_navigate_pushes_twice_witness :
  let w := UsePreventNavigation.mount true ALLOWED_FLOW_PATTERN
             (boot ["/flow/abc"] 0 tt) in
  let w' := UsePreventNavigation.step true ALLOWED_FLOW_PATTERN (Navigate "/flow/def") w in
  history w' = History.mk ["/flow/abc"; "/flow/abc"; "/flow/def"; "/flow/def"] 3 ∧
  corrections w w' = [PushState "/flow/def"] ∧
  History.size (history w') = 4.
Proof.
  apply (upn_navigate_pushes_twice ALLOWED_FLOW_PATTERN "/flow/def"
           (UsePreventNavigation.mount true ALLOWED_FLOW_PATTERN (boot ["/flow/abc"] 0 tt))).
  - exists (boot ["/flow/abc"] 0 tt), [].
    split; [apply boot_initial; simpl; lia|reflexivity].
  - reflexivity.
  - discriminate.
Defined.

(** ** The subscription, in the three guards *)

Lemma guard_inv_single {R : Type} enabled pat (w : World R) :
  guard_inv enabled pat w →
  (length (guard_listeners w) ≤ 1)%nat ∧
  ∀ id cap, HandlePopState id cap ∈ listeners w →
            cleanup w = Some id ∧ cap = location w ∧
            enabled = true ∧ RegExp.test pat (location w) = true.
Proof.
  intros [Hg Ha _ _]. split.
  - rewrite Hg. destruct (cleanup w); cbn; lia.
  - intros id cap Hin.
    assert (Hin' : HandlePopState id cap ∈ guard_listeners w).
    { unfold guard_listeners. by apply list_elem_of_filter. }
    rewrite Hg in Hin'. destruct (cleanup w) as [id'|] eqn:Hc.
    + apply list_elem_of_singleton in Hin' as [= -> ->].
      split; [done|]. split; [done|]. apply Ha. by eexists.
    + by apply elem_of_nil in Hin'.
Qed.

(** Across re-renders, navigations and corrections, at most one
    [handlePopState] of a guard is subscribed at any time; if one is, the
    guard is enabled, the rendered location matches the pattern, the path
    the closure holds is the rendered one, and it is the handler the
    pending cleanup removes. *)
Theorem single_subscription :
  (∀ enabled pat w,
     RouteBlocker.reachable enabled pat w →
     (length (guard_listeners w) ≤ 1)%nat ∧
     ∀ id cap, HandlePopState id cap ∈ listeners w →
               cleanup w = Some id ∧ cap = location w ∧
               enabled = true ∧ RegExp.test pat (location w) = true) ∧
  (∀ enabled pat w,
     UsePreventNavigation.reachable enabled pat w →
     (length (guard_listeners w) ≤ 1)%nat ∧
     ∀ id cap, HandlePopState id cap ∈ listeners w →
               cleanup w = Some id ∧ cap = location w ∧
               enabled = true ∧ RegExp.test pat (location w) = true) ∧
  (∀ ENABLE w,
     BuilderOnlyGuard.reachable ENABLE w →
     (length (guard_listeners w) ≤ 1)%nat ∧
     ∀ id cap, HandlePopState id cap ∈ listeners w →
               cleanup w = Some id ∧ cap = location w ∧
               ENABLE = true ∧
               RegExp.test ALLOWED_FLOW_PATTERN (location w) = true).
Proof.
  split; [|split].
  - intros enabled pat w [Hinv _]%rb_reachable_inv. by apply guard_inv_single.
  - intros enabled pat w Hr. by apply guard_inv_single, upn_reachable_inv.
  - intros ENABLE w [Hinv _]%bog_reachable_inv. by apply guard_inv_single, Hinv.
Qed.

Lemma single_subscription_witness :
  let w := UsePreventNavigation.run true ALLOWED_FLOW_PATTERN
             [Navigate "/flow/def"; Traverse (-1); Traverse (-3); Navigate "/flow/x"]
             (UsePreventNavigation.mount true ALLOWED_FLOW_PATTERN
                (boot ["/"; "/flow/abc"] 1 tt)) in
  (length (guard_listeners w) ≤ 1)%nat ∧
  ∀ id cap, HandlePopState id cap ∈ listeners w →
            cleanup w = Some id ∧ cap = location w ∧
            true = true ∧ RegExp.test ALLOWED_FLOW_PATTERN (location w) = true.
Proof.
  apply (proj1 (proj2 single_subscription) true ALLOWED_FLOW_PATTERN
           (UsePreventNavigation.run true ALLOWED_FLOW_PATTERN
              [Navigate "/flow/def"; Traverse (-1); Traverse (-3); Navigate "/flow/x"]
              (UsePreventNavigation.mount true ALLOWED_FLOW_PATTERN
                 (boot ["/"; "/flow/abc"] 1 tt)))).
  exists (boot ["/"; "/flow/abc"] 1 tt),
    [Navigate "/flow/def"; Traverse (-1); Traverse (-3); Navigate "/flow/x"].
  split; [apply boot_initial; simpl; lia|reflexivity].
Defined.

(** ** The registry of the rest of the application *)

Lemma listeners_foreign {R : Type} (w : World R) :
  guard_listeners w = [] → listeners w = foreign_listeners w.
Proof.
  unfold guard_listeners, foreign_listeners. generalize (listeners w). intros ls.
  induction ls as [|l ls IH]; [done|].
  destruct l as [n|id cap].
  - rewrite filter_cons_False, filter_cons_True by done. intros H. by rewrite <- IH.
  - by rewrite filter_cons_True by done.
Qed.

Lemma run_cleanup_listeners {R : Type} enabled pat (w : World R) :
  guard_inv enabled pat w → listeners (run_cleanup w) = foreign_listeners w.
Proof.
  intros [Hg _ _ _].
  destruct (run_cleanup_guard (location w) w Hg) as [Hg' _].
  by rewrite (listeners_foreign _ Hg'), run_cleanup_foreign.
Qed.

(** Mounting a guard, any sequence of events and unmounting it give back
    the registry of popstate listeners the guard found: the listeners of
    the rest of the application are never removed, reordered or added
    to. *)
Theorem registry_round_trip :
  (∀ enabled pat es w0,
     initial w0 →
     listeners (RouteBlocker.unmount
                  (RouteBlocker.run enabled pat es (RouteBlocker.mount enabled pat w0))) =
     listeners w0) ∧
  (∀ enabled pat es w0,
     initial w0 →
     listeners (UsePreventNavigation.unmount
                  (UsePreventNavigation.run enabled pat es
                     (UsePreventNavigation.mount enabled pat w0))) =
     listeners w0) ∧
  (∀ ENABLE es w0,
     initial w0 → refs w0 = None →
     listeners (BuilderOnlyGuard.unmount
                  (BuilderOnlyGuard.run ENABLE es (BuilderOnlyGuard.mount ENABLE w0))) =
     listeners w0).
Proof.
  split; [|split].
  - intros enabled pat es w0 Hi.
    set (w := RouteBlocker.run enabled pat es (RouteBlocker.mount enabled pat w0)).
    assert (Hr : RouteBlocker.reachable enabled pat w) by by exists w0, es.
    unfold RouteBlocker.unmount.
    destruct (rb_reachable_inv enabled pat w Hr) as [Hinv _].
    rewrite (run_cleanup_listeners enabled pat) by done.
    rewrite (listeners_foreign w0) by apply Hi.
    subst w. clear Hr Hinv.
    destruct (rb_mount_inv enabled pat w0 Hi) as [Hinv Hrest].
    rewrite rb_run_foreign by done.
    by destruct (rb_mount_state enabled pat w0 Hi) as (_ & _ & ?).
  - intros enabled pat es w0 Hi.
    set (w := UsePreventNavigation.run enabled pat es
                (UsePreventNavigation.mount enabled pat w0)).
    assert (Hr : UsePreventNavigation.reachable enabled pat w) by by exists w0, es.
    unfold UsePreventNavigation.unmount.
    rewrite (run_cleanup_listeners enabled pat)
      by by apply UsePreventNavigation.upn_guard, upn_reachable_inv.
    rewrite (listeners_foreign w0) by apply Hi.
    subst w. clear Hr.
    assert (H : ∀ es w, UsePreventNavigation.inv enabled pat w →
                  foreign_listeners (UsePreventNavigation.run enabled pat es w) =
                  foreign_listeners w).
    { clear. intros es. induction es as [|e es IH]; intros w Hinv; [done|].
      change (UsePreventNavigation.run enabled pat (e :: es) w)
        with (UsePreventNavigation.run enabled pat es
                (UsePreventNavigation.step enabled pat e w)).
      rewrite IH by by apply upn_step_inv.
      destruct e as [d|to].
      - by destruct (upn_traverse_state enabled pat d w Hinv).
      - by destruct (upn_navigate_state enabled pat to w Hinv) as (_ & ? & _). }
    rewrite H by by apply upn_mount_inv.
    by destruct (upn_mount_state enabled pat w0 Hi) as (_ & ? & _).
  - intros ENABLE es w0 Hi Hn.
    set (w := BuilderOnlyGuard.run ENABLE es (BuilderOnlyGuard.mount ENABLE w0)).
    assert (Hr : BuilderOnlyGuard.reachable ENABLE w) by by exists w0, es.
    unfold BuilderOnlyGuard.unmount.
    destruct (bog_reachable_inv ENABLE w Hr) as [Hinv _].
    rewrite (run_cleanup_listeners ENABLE ALLOWED_FLOW_PATTERN)
      by by apply BuilderOnlyGuard.bog_guard.
    rewrite (listeners_foreign w0) by apply Hi.
    subst w. clear Hr Hinv.
    destruct (bog_mount_state ENABLE w0 Hi Hn) as (Hinv & Hp & Hf & _).
    destruct (bog_run_inv ENABLE es _ Hinv Hp) as (_ & _ & ->). exact Hf.
Qed.

Lemma registry_round_trip_witness :
  let w0 := mkWorld (History.mk ["/"; "/flow/abc"] 1) "/flow/abc" ""
              [Foreign 0; Foreign 7] 0 None [] [] None in
  listeners (BuilderOnlyGuard.unmount
               (BuilderOnlyGuard.run true
                  [Traverse (-1); Navigate "/flow/x"; Navigate "/settings"; Traverse (-1)]
                  (BuilderOnlyGuard.mount true w0))) =
  [Foreign 0; Foreign 7].
Proof.
  apply (proj2 (proj2 registry_round_trip) true
           [Traverse (-1); Navigate "/flow/x"; Navigate "/settings"; Traverse (-1)]
           (mkWorld (History.mk ["/"; "/flow/abc"] 1) "/flow/abc" ""
              [Foreign 0; Foreign 7] 0 None [] [] None)).
  - repeat split; try reflexivity. unfold History.wf. simpl. lia.
  - reflexivity.
Defined.


(** ** Properties of every reachable state *)

Lemma upn_reachable_ind enabled pat (P : World unit → Prop) :
  (∀ w0, initial w0 → P (UsePreventNavigation.mount enabled pat w0)) →
  (∀ e w, UsePreventNavigation.inv enabled pat w → P w →
          P (UsePreventNavigation.step enabled pat e w)) →
  ∀ w, UsePreventNavigation.reachable enabled pat w → P w.
Proof.
  intros Hm Hs w (w0 & es & Hi & ->).
  assert (H : ∀ es w, UsePreventNavigation.inv enabled pat w → P w →
                P (UsePreventNavigation.run enabled pat es w)).
  { clear - Hs. intros es. induction es as [|e es IH]; intros w Hinv HP; [done|].
    change (UsePreventNavigation.run enabled pat (e :: es) w)
      with (UsePreventNavigation.run enabled pat es
              (UsePreventNavigation.step enabled pat e w)).
    apply IH; [by apply upn_step_inv|by apply Hs]. }
  apply H; [by apply upn_mount_inv|by apply Hm].
Qed.

Lemma Forall_repeat {A : Type} (P : A → Prop) x n : P x → Forall P (repeat x n).
Proof. intros Hx. induction n as [|n IH]; by constructor. Qed.

(** No guard ever asks for a location outside of the pattern.  Every
    history command a guard has issued, from its mount on and whatever the
    events were, names a location that matches the pattern: the
    replace-navigations of [RouteBlocker], the [pushState] calls and
    replace-navigations of [usePreventNavigation], the replace-navigations
    of [BuilderOnlyGuard]; the only other command is the [navigate(-1)] of
    [BuilderOnlyGuard], and no guard steps by another delta. *)
Theorem commands_within_pattern :
  (∀ enabled pat w,
     RouteBlocker.reachable enabled pat w →
     Forall (λ o, ∃ l, o = NavigateReplace l ∧ RegExp.test pat l = true) (issued w)) ∧
  (∀ enabled pat w,
     UsePreventNavigation.reachable enabled pat w →
     Forall (λ o, ∃ l, (o = PushState l ∨ o = NavigateReplace l) ∧
                       RegExp.test pat l = true) (issued w)) ∧
  (∀ ENABLE w,
     BuilderOnlyGuard.reachable ENABLE w →
     Forall (λ o, (∃ l, o = NavigateReplace l ∧
                        RegExp.test ALLOWED_FLOW_PATTERN l = true) ∨
                  o = NavigateDelta (-1)) (issued w)).
Proof.
  split; [|split].
  - intros enabled pat. apply rb_reachable_ind.
    + intros w0 Hi. destruct (rb_mount_state enabled pat w0 Hi) as (-> & _). constructor.
    + intros [d|to] w Hinv Hrest HP.
      * destruct (rb_traverse enabled pat d w Hinv Hrest) as (_ & -> & _).
        apply Forall_app. split; [done|].
        destruct enabled; [|by constructor]. cbn [andb].
        destruct (RegExp.test pat (location w)) eqn:Hl; [|by constructor]. cbn [andb].
        destruct (negb _); [|by constructor].
        constructor; [by eexists|constructor].
      * by destruct (rb_navigate_state enabled pat to w Hinv Hrest) as (-> & _).
  - intros enabled pat. apply upn_reachable_ind.
    + intros w0 Hi. destruct (upn_mount_state enabled pat w0 Hi) as (_ & _ & H).
      destruct enabled; cbn [andb] in H.
      * destruct (RegExp.test pat (router w0)) eqn:Hr; destruct H as [_ ->].
        -- constructor; [|constructor]. eexists. split; [by left|done].
        -- constructor.
      * destruct H as [_ ->]. constructor.
    + intros [d|to] w Hinv HP.
      * destruct (upn_traverse enabled pat d w Hinv) as [_ H]. cbn zeta in H.
        set (q := History.pathname (History.go d (history w))) in *.
        destruct enabled; cbn [andb] in H.
        -- destruct (RegExp.test pat (location w)) eqn:Hl; cbn [andb] in H.
           ++ destruct (RegExp.test pat q) eqn:Hq; cbn [negb] in H.
              ** destruct (String.eqb q (location w)); destruct H as [_ ->]; [done|].
                 apply Forall_app. split; [done|].
                 constructor; [|constructor]. eexists. split; [by left|done].
              ** destruct H as (_ & -> & _). apply Forall_app. split; [done|].
                 constructor; [eexists; split; [by left|done]|].
                 constructor; [eexists; split; [by right|done]|constructor].
           ++ destruct (String.eqb q (location w)); [by destruct H as [_ ->]|].
              destruct (RegExp.test pat q) eqn:Hq; destruct H as [_ ->]; [|done].
              apply Forall_app. split; [done|].
              constructor; [|constructor]. eexists. split; [by left|done].
        -- destruct (String.eqb q (location w)); by destruct H as [_ ->].
      * destruct (upn_navigate_state enabled pat to w Hinv) as (_ & _ & H).
        destruct (String.eqb to (location w)); [by destruct H as [_ ->]|].
        destruct enabled; cbn [andb] in H; [|by destruct H as [_ ->]].
        destruct (RegExp.test pat to) eqn:Hq; destruct H as [_ ->]; [|done].
        apply Forall_app. split; [done|].
        constructor; [|constructor]. eexists. split; [by left|done].
  - intros ENABLE.
    assert (Hadopt : ∀ h' w,
      BuilderOnlyGuard.inv ENABLE w → pending w = [] → History.wf h' →
      BuilderOnlyGuard.blocker ENABLE (location w) (History.pathname h') = false →
      ∃ k, issued (idle (BuilderOnlyGuard.blocker ENABLE) BuilderOnlyGuard.handlePopState
                     (BuilderOnlyGuard.settle ENABLE)
                     (BuilderOnlyGuard.settle ENABLE
                        (set_router (History.pathname h') (set_history h' w)))) =
           issued w ++ repeat (NavigateDelta (-1)) k).
    { intros h' w Hinv Hp Hwf Hb.
      destruct (bog_adopt ENABLE h' w Hinv Hp Hwf Hb) as (_ & _ & _ & _ & _ & H).
      cbn zeta in H.
      destruct (String.eqb _ _);
        [exists 0; destruct H as (_ & -> & _); by rewrite app_nil_r|].
      destruct (RegExp.test ALLOWED_FLOW_PATTERN _);
        [exists 0; destruct H as (_ & -> & _); by rewrite app_nil_r|].
      destruct ENABLE; [|exists 0; destruct H as (_ & -> & _); by rewrite app_nil_r].
      destruct H as (_ & [k Hk] & _). by exists (S k). }
    apply bog_reachable_ind.
    + intros w0 Hi Hn.
      destruct (bog_mount_state ENABLE w0 Hi Hn) as (_ & _ & _ & _ & H).
      destruct (RegExp.test ALLOWED_FLOW_PATTERN (router w0));
        [destruct H as (_ & -> & _); constructor|].
      destruct ENABLE; [|destruct H as (_ & -> & _); constructor].
      destruct H as ([k ->] & _). apply Forall_repeat. by right.
    + intros [d|to] w Hinv Hp HP.
      * destruct (ENABLE && RegExp.test ALLOWED_FLOW_PATTERN (location w) &&
                  negb (RegExp.test ALLOWED_FLOW_PATTERN
                          (History.pathname (History.go d (history w))))) eqn:Hb.
        -- rewrite bog_traverse_blocked by done. cbn [issued set_issued].
           apply Forall_app. split; [done|].
           constructor; [|constructor]. left. exists (location w). split; [done|].
           apply andb_true_iff in Hb as [Hb _]. by apply andb_true_iff in Hb as [_ Hb].
        -- rewrite bog_traverse_accepted by done.
           destruct (Hadopt (History.go d (history w)) w Hinv Hp) as [k ->].
           { apply go_wf, Hinv. }
           { by rewrite bog_blocker. }
           apply Forall_app. split; [done|]. apply Forall_repeat. by right.
      * rewrite bog_navigate_eq by done.
        destruct (BuilderOnlyGuard.blocker ENABLE (location w) to) eqn:Hb; [done|].
        cbn zeta.
        destruct (Hadopt (History.pushState to (history w)) w Hinv Hp) as [k ->].
        { apply pushState_wf, Hinv. }
        { rewrite pushState_pathname; [done|apply Hinv]. }
        apply Forall_app. split; [done|]. apply Forall_repeat. by right.
Qed.

Lemma commands_within_pattern_witness :
  let w := BuilderOnlyGuard.run true
             [Navigate "/flow/abc"; Traverse (-1); Traverse (-2); Navigate "/flow/x"]
             (BuilderOnlyGuard.mount true (boot ["/"; "/settings"] 1 None)) in
  Forall (λ o, (∃ l, o = NavigateReplace l ∧
                     RegExp.test ALLOWED_FLOW_PATTERN l = true) ∨
               o = NavigateDelta (-1)) (issued w).
Proof.
  apply (proj2 (proj2 commands_within_pattern) true
           (BuilderOnlyGuard.run true
              [Navigate "/flow/abc"; Traverse (-1); Traverse (-2); Navigate "/flow/x"]
              (BuilderOnlyGuard.mount true (boot ["/"; "/settings"] 1 None)))).
  exists (boot ["/"; "/settings"] 1 None),
    [Navigate "/flow/abc"; Traverse (-1); Traverse (-2); Navigate "/flow/x"].
  split; [apply boot_initial; simpl; lia|]. split; reflexivity.
Defined.

(** ** A guard that is switched off *)

Lemma unarmed_listeners {R : Type} pat (w : World R) :
  guard_inv false pat w → guard_listeners w = [].
Proof.
  intros [Hg Ha _ _]. rewrite Hg. destruct (cleanup w) eqn:Hc; [|done].
  by destruct (proj1 Ha) as [? _]; [by eexists|].
Qed.

(** With [enabled] false (for [BuilderOnlyGuard]: with the build flag off)
    a mounted guard does nothing at all: after any events the history is
    the one the events alone produce, the window and the rendered location
    show its current entry, the guard has issued no command, and the
    registry of popstate listeners is the one it was mounted into. *)
Theorem disabled_inert :
  (∀ pat es w0,
     initial w0 →
     let w := RouteBlocker.run false pat es (RouteBlocker.mount false pat w0) in
     history w = foldl unguarded (history w0) es ∧
     location w = window_pathname w ∧
     issued w = [] ∧ listeners w = listeners w0) ∧
  (∀ pat es w0,
     initial w0 →
     let w := UsePreventNavigation.run false pat es
                (UsePreventNavigation.mount false pat w0) in
     history w = foldl unguarded (history w0) es ∧
     location w = window_pathname w ∧
     issued w = [] ∧ listeners w = listeners w0) ∧
  (∀ es w0,
     initial w0 → refs w0 = None →
     let w := BuilderOnlyGuard.run false es (BuilderOnlyGuard.mount false w0) in
     history w = foldl unguarded (history w0) es ∧
     location w = window_pathname w ∧
     issued w = [] ∧ listeners w = listeners w0).
Proof.
  split; [|split].
  - intros pat es w0 Hi w.
    assert (H : ∀ es w1,
      guard_inv false pat w1 → at_rest w1 → issued w1 = [] →
      let w := RouteBlocker.run false pat es w1 in
      guard_inv false pat w ∧ at_rest w ∧
      history w = foldl unguarded (history w1) es ∧ issued w = []).
    { clear. intros es. induction es as [|e es IH]; intros w1 Hinv Hrest His; [done|].
      change (RouteBlocker.run false pat (e :: es) w1)
        with (RouteBlocker.run false pat es (RouteBlocker.step false pat e w1)).
      destruct (rb_step_inv false pat e w1 Hinv Hrest) as [Hinv' Hrest'].
      assert (Hstep : history (RouteBlocker.step false pat e w1) = unguarded (history w1) e ∧
                      issued (RouteBlocker.step false pat e w1) = []).
      { destruct e as [d|to].
        - destruct (rb_traverse false pat d w1 Hinv Hrest) as (H1 & H2 & _).
          cbn [andb] in *. rewrite app_nil_r in H2. by rewrite H1, H2.
        - destruct (rb_navigate_state false pat to w1 Hinv Hrest) as (H1 & _ & H3).
          change (RouteBlocker.blocker false pat (location w1) to) with false in H3.
          destruct H3 as [_ H4]. by rewrite H1, H4. }
      destruct Hstep as (H1 & H2).
      destruct (IH (RouteBlocker.step false pat e w1)) as (? & ? & ? & ?); try done.
      cbn zeta. split; [done|]. split; [done|]. split; [|done].
      cbn [foldl]. congruence. }
    destruct (rb_mount_inv false pat w0 Hi) as [Hinv0 Hrest0].
    destruct (rb_mount_state false pat w0 Hi) as (Hmi & Hmh & Hmf).
    destruct (H es (RouteBlocker.mount false pat w0)) as (Hinv & Hrest & H1 & H3);
      try done.
    fold w in Hinv, Hrest, H1, H3. rewrite Hmh in H1.
    split; [done|]. split; [symmetry; apply Hrest|]. split; [done|].
    rewrite (listeners_foreign _ (unarmed_listeners pat w Hinv)).
    unfold w. rewrite rb_run_foreign by done.
    by rewrite Hmf, (listeners_foreign w0) by apply Hi.
  - intros pat es w0 Hi w.
    assert (H : ∀ es w1 h,
      UsePreventNavigation.inv false pat w1 → history w1 = h →
      location w1 = window_pathname w1 → issued w1 = [] →
      let w := UsePreventNavigation.run false pat es w1 in
      UsePreventNavigation.inv false pat w ∧ history w = foldl unguarded h es ∧
      location w = window_pathname w ∧ issued w = [] ∧
      foreign_listeners w = foreign_listeners w1).
    { clear. intros es. induction es as [|e es IH]; intros w1 h Hinv Hh Hl His; [done|]. subst h.
      change (UsePreventNavigation.run false pat (e :: es) w1)
        with (UsePreventNavigation.run false pat es
                (UsePreventNavigation.step false pat e w1)).
      pose proof (upn_step_inv false pat e w1 Hinv) as Hinv'.
      assert (Hstep : history (UsePreventNavigation.step false pat e w1) = unguarded (history w1) e ∧
                      issued (UsePreventNavigation.step false pat e w1) = [] ∧
                      location (UsePreventNavigation.step false pat e w1) =
                        History.pathname (unguarded (history w1) e) ∧
                      foreign_listeners (UsePreventNavigation.step false pat e w1) =
                        foreign_listeners w1).
      { destruct e as [d|to].
        - destruct (upn_traverse false pat d w1 Hinv) as [_ H1].
          destruct (upn_traverse_state false pat d w1 Hinv) as [H3 H4].
          cbn [andb] in *. rewrite H3, H4.
          destruct (String.eqb _ _); destruct H1 as [-> ->]; by rewrite His.
        - destruct (upn_navigate_state false pat to w1 Hinv) as (H1 & H2 & H3).
          cbn [andb] in H3. rewrite H1, H2.
          assert (H3' : history (UsePreventNavigation.step false pat (Navigate to) w1) =
                        History.pushState to (history w1) ∧
                        issued (UsePreventNavigation.step false pat (Navigate to) w1) =
                        issued w1) by by destruct (String.eqb _ _).
          destruct H3' as [-> ->]. cbn.
          rewrite pushState_pathname; [done|apply Hinv]. }
      destruct Hstep as (H1 & H2 & H3 & H4).
      destruct (IH (UsePreventNavigation.step false pat e w1) (unguarded (history w1) e))
        as (? & ? & ? & ? & ?); try done.
      { unfold window_pathname. by rewrite H1. }
      cbn zeta. split; [done|]. split; [done|]. split; [done|]. split; [done|]. congruence. }
    destruct (upn_mount_state false pat w0 Hi) as (Hl & Hf & Hh & His).
    destruct (H es (UsePreventNavigation.mount false pat w0) (history w0))
      as (Hinv & H1 & H2 & H3 & H4); try done.
    { by apply upn_mount_inv. }
    { unfold window_pathname. rewrite Hl, Hh. apply Hi. }
    fold w in Hinv, H1, H2, H3, H4. repeat split; try done.
    assert (Hg : guard_listeners w = []).
    { destruct Hinv as [[Hg Ha _ _] _]. rewrite Hg. destruct (cleanup w) eqn:Hc; [|done].
      by destruct (proj1 Ha) as [? _]; [by eexists|]. }
    by rewrite (listeners_foreign _ Hg), H4, (listeners_foreign w0), Hf by apply Hi.
  - intros es w0 Hi Hn w.
    assert (H : ∀ es w1,
      BuilderOnlyGuard.inv false w1 → pending w1 = [] → issued w1 = [] →
      let w := BuilderOnlyGuard.run false es w1 in
      history w = foldl unguarded (history w1) es ∧ issued w = []).
    { clear. intros es. induction es as [|e es IH]; intros w1 Hinv Hp His; [done|].
      change (BuilderOnlyGuard.run false (e :: es) w1)
        with (BuilderOnlyGuard.run false es (BuilderOnlyGuard.step false e w1)).
      destruct (bog_step_inv false e w1 Hinv Hp) as (Hinv' & Hp' & _).
      assert (Hadopt : ∀ h', History.wf h' →
        let w' := idle (BuilderOnlyGuard.blocker false) BuilderOnlyGuard.handlePopState
                    (BuilderOnlyGuard.settle false)
                    (BuilderOnlyGuard.settle false
                       (set_router (History.pathname h') (set_history h' w1))) in
        history w' = h' ∧ issued w' = []).
      { intros h' Hwf.
        destruct (bog_adopt false h' w1 Hinv Hp Hwf eq_refl) as (_ & _ & _ & _ & _ & H).
        cbn zeta in *. rewrite <- His.
        destruct (String.eqb _ _); [by destruct H as (-> & -> & _)|].
        destruct (RegExp.test _ _); by destruct H as (-> & -> & _). }
      assert (Hstep : history (BuilderOnlyGuard.step false e w1) = unguarded (history w1) e ∧
                      issued (BuilderOnlyGuard.step false e w1) = []).
      { destruct e as [d|to].
        - rewrite bog_traverse_accepted by done. apply Hadopt, go_wf, Hinv.
        - rewrite bog_navigate_eq by done.
          change (BuilderOnlyGuard.blocker false (location w1) to) with false.
          apply Hadopt, pushState_wf, Hinv. }
      destruct Hstep as (H1 & H2).
      destruct (IH (BuilderOnlyGuard.step false e w1)) as (? & ?); try done.
      cbn zeta. split; [|done]. cbn [foldl]. congruence. }
    destruct (bog_mount_state false w0 Hi Hn) as (Hinv0 & Hp0 & Hf0 & _ & Hm).
    assert (Hm' : history (BuilderOnlyGuard.mount false w0) = history w0 ∧
                  issued (BuilderOnlyGuard.mount false w0) = []).
    { destruct (RegExp.test _ _); by destruct Hm as (-> & -> & _). }
    destruct Hm' as [Hmh Hmi].
    destruct (H es (BuilderOnlyGuard.mount false w0)) as (H1 & H3); try done.
    destruct (bog_run_inv false es _ Hinv0 Hp0) as (Hinv & _ & Hf).
    fold w in Hinv, Hf, H1, H3. rewrite Hmh in H1.
    split; [done|]. split; [symmetry; apply Hinv|]. split; [done|].
    rewrite (listeners_foreign _
               (unarmed_listeners ALLOWED_FLOW_PATTERN w
                  (BuilderOnlyGuard.bog_guard false w Hinv))).
    by rewrite Hf, Hf0, (listeners_foreign w0) by apply Hi.
Qed.

Lemma disabled_inert_witness :
  let w := BuilderOnlyGuard.run false
             [Traverse (-1); Navigate "/settings"; Traverse (-1); Traverse 1]
             (BuilderOnlyGuard.mount false (boot ["/"; "/flow/abc"] 1 None)) in
  history w = History.mk ["/"; "/settings"] 1 ∧
  location w = window_pathname w ∧
  issued w = [] ∧ listeners w = [Foreign 0].
Proof.
  apply (proj2 (proj2 disabled_inert)
           [Traverse (-1); Navigate "/settings"; Traverse (-1); Traverse 1]
           (boot ["/"; "/flow/abc"] 1 None)).
  - apply boot_initial. simpl. lia.
  - reflexivity.
Defined.

(** ** What a traversal does to the session history *)

(** An out-of-band traversal never costs [RouteBlocker] or
    [BuilderOnlyGuard] a history entry: whether the guard accepts the
    landing, overwrites it or steps back from it, the history keeps its
    length, and every entry other than the one landed on is what it was.
    A traversal that is vetoed leaves the index where it was, the router
    having gone back; one that [RouteBlocker] lets through leaves it on
    the entry landed on, and one that [BuilderOnlyGuard] lets through on
    that entry or, after its steps back, below it.
    ([usePreventNavigation] pushes, and so drops the entries after the
    landing.) *)
Theorem traversal_preserves_entries :
  (∀ enabled pat d w,
     RouteBlocker.reachable enabled pat w →
     let h := History.go d (history w) in
     let w' := RouteBlocker.step enabled pat (Traverse d) w in
     History.size (history w') = History.size (history w) ∧
     History.index (history w') =
       (if RouteBlocker.blocker enabled pat (location w) (History.pathname h)
        then History.index (history w) else History.index h) ∧
     ∀ i, i ≠ History.index h →
          History.entries (history w') !! i = History.entries (history w) !! i) ∧
  (∀ ENABLE d w,
     BuilderOnlyGuard.reachable ENABLE w →
     let h := History.go d (history w) in
     let w' := BuilderOnlyGuard.step ENABLE (Traverse d) w in
     History.size (history w') = History.size (history w) ∧
     (if BuilderOnlyGuard.blocker ENABLE (location w) (History.pathname h)
      then History.index (history w') = History.index (history w)
      else (History.index (history w') ≤ History.index h)%nat) ∧
     ∀ i, i ≠ History.index h →
          History.entries (history w') !! i = History.entries (history w) !! i).
Proof.
  split.
  - intros enabled pat d w [Hinv Hrest]%rb_reachable_inv h w'. subst h w'.
    destruct (rb_traverse enabled pat d w Hinv Hrest) as (-> & _).
    rewrite rb_blocker.
    destruct (enabled && RegExp.test pat (location w) && negb _).
    + unfold History.size. cbn. rewrite length_insert. split; [done|]. split; [done|].
      intros i Hi. by rewrite list_lookup_insert_ne.
    + rewrite go_size. split; [done|]. split; [done|]. intros i _. by rewrite go_entries.
  - intros ENABLE d w [Hinv Hp]%bog_reachable_inv h w'. subst w'.
    rewrite bog_blocker.
    destruct (ENABLE && RegExp.test ALLOWED_FLOW_PATTERN (location w) &&
              negb (RegExp.test ALLOWED_FLOW_PATTERN (History.pathname h))) eqn:Hb.
    + rewrite bog_traverse_blocked by done. fold h.
      unfold History.size. cbn. rewrite length_insert. split; [done|]. split; [done|].
      intros i Hi. by rewrite list_lookup_insert_ne.
    + rewrite bog_traverse_accepted by done. fold h.
      destruct (bog_adopt ENABLE h w Hinv Hp) as (_ & _ & _ & He & Hx & _).
      { apply go_wf, Hinv. }
      { by rewrite bog_blocker. }
      unfold History.size. rewrite He. unfold h. rewrite go_entries.
      split; [done|]. split; [done|]. done.
Qed.

Lemma traversal_preserves_entries_witness :
  let w := BuilderOnlyGuard.run true [Navigate "/flow/def"]
             (BuilderOnlyGuard.mount true (boot ["/"; "/flow/abc"] 1 None)) in
  let h := History.go (-2) (history w) in
  let w' := BuilderOnlyGuard.step true (Traverse (-2)) w in
  History.size (history w') = History.size (history w) ∧
  (if BuilderOnlyGuard.blocker true (location w) (History.pathname h)
   then History.index (history w') = History.index (history w)
   else (History.index (history w') ≤ History.index h)%nat) ∧
  ∀ i, i ≠ History.index h →
       History.entries (history w') !! i = History.entries (history w) !! i.
Proof.
  apply (proj2 traversal_preserves_entries true (-2)%Z
           (BuilderOnlyGuard.run true [Navigate "/flow/def"]
              (BuilderOnlyGuard.mount true (boot ["/"; "/flow/abc"] 1 None)))).
  exists (boot ["/"; "/flow/abc"] 1 None), [Navigate "/flow/def"].
  split; [apply boot_initial; simpl; lia|]. split; reflexivity.
Defined.

(** ** Outside of the builder *)

Section BuilderOnlyGuardOutside.
Import BuilderOnlyGuard.
Local Abbreviation PAT := ALLOWED_FLOW_PATTERN.
Implicit Type w : Guard.

(** The step back that lands on another location outside of the pattern:
    the guard renders it and asks for one more step back. *)
Lemma bog_cascade_continue fuel i w :
  inv true w → RegExp.test PAT (location w) = false →
  pending w = [((-1)%Z, false)] → History.index (history w) = S i → (i < fuel)%nat →
  let h := {| History.entries := History.entries (history w); History.index := i |} in
  History.pathname h ≠ location w → RegExp.test PAT (History.pathname h) = false →
  let w' := drain (blocker true) handlePopState (settle true) (S fuel) w in
  inv true w' ∧ pending w' = [] ∧
  History.entries (history w') = History.entries (history w) ∧
  (History.index (history w') ≤ pred i)%nat ∧
  (∃ k, issued w' = issued w ++ repeat (NavigateDelta (-1)) (S k)) ∧
  (RegExp.test PAT (location w') = true ∨ History.index (history w') = 0 ∨
   History.entries (history w) !! S (History.index (history w')) = Some (location w')) ∧
  (i = 0 → history w' = h ∧ issued w' = issued w ++ [NavigateDelta (-1)] ∧
           location w' = History.pathname h ∧ refs w' = None).
Proof.
  intros Hinv Hl Hp Hi Hf h Hne Hq. cbn zeta.
  rewrite (bog_cascade_step fuel i) by done. fold h.
  pose proof Hinv as [[_ _ Hwf Hr] Hvis _ _ _].
  set (w1 := router_sync (set_history h (set_pending [] w))).
  assert (Hwf1 : History.wf h).
  { unfold History.wf in *. cbn. lia. }
  destruct (bog_settle true w w1 Hinv) as (Hi1 & Hh1 & Hl1 & Hcase); try done.
  { change (blocker true (location w) (History.pathname h) = false).
    by rewrite bog_blocker, Hl. }
  change (router w1) with (History.pathname h) in *.
  change (location w1) with (location w) in Hcase.
  change (history w1) with h in Hh1.
  change (issued w1) with (issued w) in Hcase.
  change (pending w1) with (@nil (Z * bool)) in Hcase.
  set (w2 := settle true w1) in *.
  rewrite (proj2 (String.eqb_neq _ _)) in Hcase by done. rewrite Hq in Hcase.
  destruct Hcase as (His & Hpe & Hrf). cbn [app] in Hpe.
  assert (Hl2 : RegExp.test PAT (location w2) = false) by by rewrite Hl1.
  destruct (bog_cascade fuel w2 Hi1 Hl2 Hpe)
    as (Hi3 & Hp3 & _ & He3 & Hx3 & [k Hk] & Hstop).
  { by rewrite Hh1. }
  rewrite Hh1 in He3, Hx3, Hstop. cbn [History.entries History.index h] in He3, Hx3, Hstop.
  split; [done|]. split; [done|]. split; [done|]. split; [done|].
  split; [exists k; by rewrite Hk, His, <- app_assoc|]. split; [done|].
  intros ->.
  pose proof (bog_cascade_one fuel w2 Hi1 Hl2 Hpe) as Hone.
  rewrite Hh1 in Hone. specialize (Hone Hf). cbn [History.index h] in Hone.
  cbn zeta in Hone. rewrite Hone. cbn. by rewrite Hh1, His, Hl1, Hrf.
Qed.

End BuilderOnlyGuardOutside.

(** While the enabled [BuilderOnlyGuard] renders a location outside of the
    pattern (no flow was visited: its tracker is empty), an in-app
    navigation to another location outside of the pattern is not vetoed by
    the blocker but is taken back: the entry is pushed, which drops the
    entries that followed the current one, and the guard answers with
    [navigate(-1)].  Back on the entry it came from, which is outside of
    the pattern too, it asks for a step back again: there are two commands
    at least, and the descent goes on as after a traversal.  From the first
    entry of the history there are two commands exactly, the second one has
    no entry to go to, and the window is back on the entry it showed. *)
Theorem bog_navigation_undone to w :
  BuilderOnlyGuard.reachable true w →
  RegExp.test ALLOWED_FLOW_PATTERN (location w) = false →
  RegExp.test ALLOWED_FLOW_PATTERN to = false →
  to ≠ location w →
  let h := History.pushState to (history w) in
  let w' := BuilderOnlyGuard.step true (Navigate to) w in
  BuilderOnlyGuard.blocker true (location w) to = false ∧
  (∃ k, corrections w w' = repeat (NavigateDelta (-1)) (S (S k))) ∧
  History.entries (history w') = History.entries h ∧
  History.size (history w') = S (S (History.index (history w))) ∧
  (History.index (history w') ≤ pred (History.index (history w)))%nat ∧
  window_pathname w' = location w' ∧
  (RegExp.test ALLOWED_FLOW_PATTERN (location w') = true ∨
   History.index (history w') = 0 ∨
   History.entries h !! S (History.index (history w')) = Some (location w')) ∧
  (History.index (history w) = 0 →
   corrections w w' = [NavigateDelta (-1); NavigateDelta (-1)] ∧
   history w' = History.go (-1) h ∧
   window_pathname w' = window_pathname w ∧
   refs w' = None).
Proof.
  intros [Hinv Hp]%bog_reachable_inv Hl Hto Hne h w'. subst w'.
  pose proof Hinv as [[_ _ Hwf Hr] Hvis _ _ _].
  assert (Hb : BuilderOnlyGuard.blocker true (location w) to = false).
  { by rewrite bog_blocker, Hl. }
  split; [done|].
  rewrite bog_navigate_eq, Hb by done. cbn zeta. fold h.
  assert (Hwfh : History.wf h) by by apply pushState_wf.
  assert (Hqh : History.pathname h = to) by by apply pushState_pathname.
  assert (Hih : History.index h = S (History.index (history w))) by done.
  assert (Hsz : History.size h = S (S (History.index (history w))))
    by by apply pushState_size.
  rewrite Hqh.
  set (w1 := set_router to (set_history h w)).
  destruct (bog_settle true w w1 Hinv) as (Hi1 & Hh1 & Hl1 & Hcase); try done.
  change (router w1) with to in *. change (location w1) with (location w) in Hcase.
  change (history w1) with h in Hh1. change (issued w1) with (issued w) in Hcase.
  change (pending w1) with (pending w) in Hcase. rewrite Hp in Hcase.
  set (w2 := BuilderOnlyGuard.settle true w1) in *.
  rewrite (proj2 (String.eqb_neq _ _)) in Hcase by done. rewrite Hto in Hcase.
  destruct Hcase as (His & Hpe & _). cbn [app] in Hpe.
  unfold idle, patience. rewrite Hpe, Hh1, Hih. cbn [List.length Nat.add].
  assert (Hl2 : RegExp.test ALLOWED_FLOW_PATTERN (location w2) = false) by by rewrite Hl1.
  assert (Hprev : History.pathname
                    {| History.entries := History.entries h;
                       History.index := History.index (history w) |} = location w).
  { rewrite <- Hvis. unfold window_pathname, History.pathname, h. cbn.
    unfold History.wf in Hwf.
    rewrite lookup_app_l by (rewrite length_take; lia).
    by rewrite lookup_take_lt by lia. }
  destruct (bog_cascade_continue (S (History.index (history w)))
              (History.index (history w)) w2 Hi1 Hl2 Hpe)
    as (Hi3 & Hp3 & He3 & Hx3 & [k Hk] & Hstop & Hzero).
  { by rewrite Hh1. }
  { lia. }
  { rewrite Hh1, Hprev, Hl1. congruence. }
  { by rewrite Hh1, Hprev. }
  rewrite Hh1 in He3, Hstop, Hzero.
  set (w' := drain _ _ _ _ w2) in *.
  assert (Hiss : issued w' = issued w ++ repeat (NavigateDelta (-1)) (S (S k))).
  { rewrite Hk, His, <- app_assoc. done. }
  split; [exists k; by rewrite (corrections_app _ _ _ Hiss)|].
  split; [done|]. split; [unfold History.size in *; by rewrite He3|].
  split; [done|]. split; [apply Hi3|]. split; [done|].
  intros H0. destruct (Hzero H0) as (Hh' & His' & Hl' & Hrf').
  rewrite His', His, <- app_assoc in *. rewrite H0 in *.
  split; [by rewrite (corrections_app _ _ [NavigateDelta (-1); NavigateDelta (-1)])|].
  split; [by rewrite Hh', (go_back h 0)|]. split; [|done].
  destruct Hi3 as [_ Hv3 _ _ _]. by rewrite Hv3, Hl', Hprev.
Qed.

Lemma bog_navigation_undone_witness :
  let w := BuilderOnlyGuard.mount true (boot ["/settings"; "/flow/abc"] 0 None) in
  let w' := BuilderOnlyGuard.step true (Navigate "/profile") w in
  corrections w w' = [NavigateDelta (-1); NavigateDelta (-1)] ∧
  history w' = History.mk ["/settings"; "/profile"] 0 ∧
  window_pathname w' = "/settings" ∧
  refs w' = None.
Proof.
  assert (Hr : BuilderOnlyGuard.reachable true
                 (BuilderOnlyGuard.mount true (boot ["/settings"; "/flow/abc"] 0 None))).
  { exists (boot ["/settings"; "/flow/abc"] 0 None), [].
    split; [apply boot_initial; simpl; lia|]. split; reflexivity. }
  pose proof (bog_navigation_undone "/profile" _ Hr) as H. cbn zeta in H.
  specialize (H ltac:(vm_compute; reflexivity) ltac:(vm_compute; reflexivity)
                ltac:(vm_compute; discriminate)).
  destruct H as (_ & _ & _ & _ & _ & _ & _ & H).
  specialize (H ltac:(vm_compute; reflexivity)).
  vm_compute in H. vm_compute. exact H.
Defined.

(** ** Coming to rest *)

(** Once the window has nothing left to perform, further turns change
    nothing. *)
Lemma drain_stable {R : Type} blocker handle settle n (w : World R) :
  pending (drain blocker handle settle n w) = [] →
  ∀ m, (n ≤ m)%nat →
       drain blocker handle settle m w = drain blocker handle settle n w.
Proof.
  revert w. induction n as [|n IH]; intros w Hp m Hm.
  - cbn in *. by apply drain_nil.
  - destruct (pending w) as [|go rest] eqn:Hw.
    + by rewrite !drain_nil.
    + destruct m as [|m]; [lia|].
      rewrite (drain_cons _ _ _ n _ _ _ Hw) in Hp.
      rewrite (drain_cons _ _ _ m _ _ _ Hw), (drain_cons _ _ _ n _ _ _ Hw).
      apply IH; [done|lia].
Qed.

(** Every event comes to rest.  The traversals an event leaves the window
    to perform (the router's return from a vetoed traversal, the
    [navigate(-1)] of [BuilderOnlyGuard] and the ones that follow it) are
    all performed within as many turns as there are traversals asked for
    and entries below the current one: after these, none is left, and
    more turns change nothing.  In particular the descent of
    [BuilderOnlyGuard] ends, at its mount and after every event. *)
Theorem events_come_to_rest :
  (∀ enabled pat e w fuel,
     RouteBlocker.reachable enabled pat w →
     let w1 :=
       match e with
       | Traverse delta =>
           let h := History.go delta (history w) in
           popstate_event (RouteBlocker.blocker enabled pat)
             (RouteBlocker.handlePopState pat) (RouteBlocker.settle enabled pat)
             false (History.delta (history w) h) (set_history h w)
       | Navigate to =>
           navigate_push (RouteBlocker.blocker enabled pat)
             (RouteBlocker.settle enabled pat) to w
       end in
     (patience w1 ≤ fuel)%nat →
     drain (RouteBlocker.blocker enabled pat) (RouteBlocker.handlePopState pat)
       (RouteBlocker.settle enabled pat) fuel w1 =
     RouteBlocker.step enabled pat e w ∧
     pending (RouteBlocker.step enabled pat e w) = []) ∧
  (∀ ENABLE e w fuel,
     BuilderOnlyGuard.reachable ENABLE w →
     let w1 :=
       match e with
       | Traverse delta =>
           let h := History.go delta (history w) in
           popstate_event (BuilderOnlyGuard.blocker ENABLE)
             BuilderOnlyGuard.handlePopState (BuilderOnlyGuard.settle ENABLE)
             false (History.delta (history w) h) (set_history h w)
       | Navigate to =>
           navigate_push (BuilderOnlyGuard.blocker ENABLE)
             (BuilderOnlyGuard.settle ENABLE) to w
       end in
     (patience w1 ≤ fuel)%nat →
     drain (BuilderOnlyGuard.blocker ENABLE) BuilderOnlyGuard.handlePopState
       (BuilderOnlyGuard.settle ENABLE) fuel w1 =
     BuilderOnlyGuard.step ENABLE e w ∧
     pending (BuilderOnlyGuard.step ENABLE e w) = []) ∧
  (∀ ENABLE w0 fuel,
     initial w0 → refs w0 = None →
     let w1 := BuilderOnlyGuard.settle ENABLE
                 (BuilderOnlyGuard.commit ENABLE (set_location (router w0) w0)) in
     (patience w1 ≤ fuel)%nat →
     drain (BuilderOnlyGuard.blocker ENABLE) BuilderOnlyGuard.handlePopState
       (BuilderOnlyGuard.settle ENABLE) fuel w1 =
     BuilderOnlyGuard.mount ENABLE w0 ∧
     pending (BuilderOnlyGuard.mount ENABLE w0) = []).
Proof.
  split; [|split].
  - intros enabled pat e w fuel [Hinv Hrest]%rb_reachable_inv w1 Hf.
    destruct (rb_step_inv enabled pat e w Hinv Hrest) as [_ [Hp _]].
    split; [|done]. by apply drain_stable.
  - intros ENABLE e w fuel [Hinv Hp]%bog_reachable_inv w1 Hf.
    destruct (bog_step_inv ENABLE e w Hinv Hp) as (_ & Hp' & _).
    split; [|done]. by apply drain_stable.
  - intros ENABLE w0 fuel Hi Hn w1 Hf.
    destruct (bog_mount_inv ENABLE w0 Hi Hn) as [_ Hp'].
    split; [|done]. by apply drain_stable.
Qed.

(** The descent from the third entry, on locations outside of the pattern
    all the way: three steps back are asked for, the last one on the first
    entry, and nothing is left to perform. *)
Example descent_comes_to_rest :
  let w := BuilderOnlyGuard.mount true (boot ["/a"; "/b"; "/c"] 2 None) in
  issued w = [NavigateDelta (-1); NavigateDelta (-1); NavigateDelta (-1)] ∧
  history w = History.mk ["/a"; "/b"; "/c"] 0 ∧
  location w = "/a" ∧ pending w = [].
Proof. vm_compute. by repeat split. Qed.

(** * RenderInputParameters *)

Section RenderInputParametersFacts.
Import RenderInputParameters.
Implicit Types (heap : Heap) (data : NodeData) (t : Template) (r : nat).


Lemma write_same r v heap :
  write r v heap r =
  mkField v (show (heap r)) (advanced (heap r)) (tool_mode (heap r))
    (input_types (heap r)) (type (heap r)).
Proof. unfold write. by rewrite Nat.eqb_refl. Qed.

Lemma write_other r r' v heap : r' ≠ r → write r v heap r' = heap r'.
Proof. unfold write. intros H. by rewrite (proj2 (Nat.eqb_neq r' r) H). Qed.

Lemma set_default_cases t f d heap b heap' b' :
  set_default t f d (heap, b) = Some (heap', b') →
  (heap' = heap ∧ b' = b ∧
   match get t f with
   | JObject r => truthy (value (heap r)) = true
   | v => truthy v = false
   end) ∨
  (∃ r, get t f = JObject r ∧ truthy (value (heap r)) = false ∧
        heap' = write r (JString d) heap ∧ b' = true).
Proof.
  unfold set_default. cbn [fst].
  destruct (get t f) as [| |[|]|n|s|r] eqn:Hg; cbn [truthy]; try discriminate;
    try (intros [= <- <-]; by left).
  - destruct (negb (n =? 0)%Z) eqn:Hn; [discriminate|]. intros [= <- <-]. by left.
  - destruct (negb (String.eqb s "")) eqn:Hs; [discriminate|]. intros [= <- <-]. by left.
  - destruct (truthy (value (heap r))) eqn:Hv; cbn [negb]; intros [= <- <-].
    + by left.
    + right. by exists r.
Qed.

Lemma set_default_total t f d st :
  match get t f with JObject _ => True | v => truthy v = false end →
  is_Some (set_default t f d st).
Proof.
  unfold set_default. destruct (get t f); cbn [truthy]; try by eexists.
  - intros ->. by eexists.
  - intros ->. by eexists.
  - intros ->. by eexists.
  - intros _. destruct (negb _); by eexists.
Qed.

(** The three steps of the effect on an Agent node in builder-only mode. *)
Lemma agent_defaults_steps env data heap heap' req :
  agent_defaults_effect true env data heap = Some (heap', req) →
  is_agent data = true →
  ∃ n h1 b1 h2 b2 b3,
    node data = Some n ∧
    set_default (template n) "api_key"
      (ConfigConstants.DEFAULT_AGENT_API_KEY env) (heap, false) = Some (h1, b1) ∧
    set_default (template n) "agent_llm"
      (ConfigConstants.DEFAULT_AGENT_LLM_PROVIDER env) (h1, b1) = Some (h2, b2) ∧
    set_default (template n) "model_name"
      (ConfigConstants.DEFAULT_AGENT_MODEL_NAME env) (h2, b2) = Some (heap', b3) ∧
    req = (if b3 then Some (id data, mkNode (display_name n) (template n)) else None).
Proof.
  unfold agent_defaults_effect. intros H Ha. rewrite Ha in H. cbn [andb] in H.
  destruct (node data) as [n|] eqn:Hn; [|by unfold is_agent in Ha; rewrite Hn in Ha].
  destruct (set_default (template n) "api_key" _ _) as [[h1 b1]|] eqn:H1; [|done].
  cbn [mbind option_bind] in H.
  destruct (set_default (template n) "agent_llm" _ _) as [[h2 b2]|] eqn:H2; [|done].
  cbn [mbind option_bind] in H.
  destruct (set_default (template n) "model_name" _ _) as [[h3 b3]|] eqn:H3; [|done].
  cbn [mbind option_bind] in H.
  exists n, h1, b1, h2, b2, b3.
  destruct b3; injection H as <- <-; done.
Qed.

Lemma agent_defaults_off ENABLE env data heap :
  ENABLE && is_agent data = false →
  agent_defaults_effect ENABLE env data heap = Some (heap, None).
Proof.
  unfold agent_defaults_effect. intros ->. by destruct (node data).
Qed.

Ltac effect_cases H Ha :=
  destruct (agent_defaults_steps _ _ _ _ _ H Ha)
    as (n & h1 & b1 & h2 & b2 & b3 & Hn & H1 & H2 & H3 & Hreq);
  apply set_default_cases in H1 as [(-> & -> & G1)|(r1 & G1 & V1 & -> & ->)];
  apply set_default_cases in H2 as [(-> & -> & G2)|(r2 & G2 & V2 & -> & ->)];
  apply set_default_cases in H3 as [(-> & -> & G3)|(r3 & G3 & V3 & -> & ->)].

Ltac kept_at r :=
  repeat match goal with
  | |- context [write ?r' _ _ r] =>
      destruct (Nat.eq_dec r r') as [<-|?];
      [exfalso;
       repeat match goal with
       | V : context [write ?r'' _ _ r] |- _ =>
           destruct (Nat.eq_dec r r'') as [<-|?];
           [clear V|rewrite (write_other r'' r) in V by done]
       end; congruence
      |rewrite (write_other r' r) by done]
  end; done.

(** The effect that fills the hidden fields of an Agent node writes to
    nothing but the [value] of a field object bound to [api_key],
    [agent_llm] or [model_name] whose value is falsy.  Outside of
    builder-only mode, and on a node that is not an Agent, it writes
    nothing and does not call [setNode].  In any run, every other property
    of every field object is kept, a value that is set (truthy) is never
    overwritten, and an object none of the three names is bound to is
    left as it is. *)
Theorem agent_defaults_frame ENABLE env data heap heap' req :
  agent_defaults_effect ENABLE env data heap = Some (heap', req) →
  (ENABLE && is_agent data = false → heap' = heap ∧ req = None) ∧
  ∀ r,
    (show (heap' r) = show (heap r) ∧ advanced (heap' r) = advanced (heap r) ∧
     tool_mode (heap' r) = tool_mode (heap r) ∧
     input_types (heap' r) = input_types (heap r) ∧ type (heap' r) = type (heap r)) ∧
    (truthy (value (heap r)) = true → heap' r = heap r) ∧
    ((∀ f, f ∈ hidden_agent_fields → template_of data f ≠ JObject r) →
     heap' r = heap r).
Proof.
  intros H. split.
  { intros Hoff. rewrite agent_defaults_off in H by done. by injection H as <- <-. }
  destruct (ENABLE && is_agent data) eqn:Hon.
  2:{ rewrite agent_defaults_off in H by done. by injection H as <- <-. }
  apply andb_true_iff in Hon as [-> Ha]. intros r.
  effect_cases H Ha.
  all: assert (Hb : ∀ f r', f ∈ hidden_agent_fields →
                 get (template n) f = JObject r' →
                 (∀ f, f ∈ hidden_agent_fields → template_of data f ≠ JObject r) → r ≠ r')
         by (intros f r' Hf Hg Hun ->; apply (Hun f Hf); unfold template_of; by rewrite Hn).
  all: repeat split; try done.
  all: try (intros Hun;
            try (pose proof (Hb "api_key" r1 ltac:(unfold hidden_agent_fields; repeat constructor) G1 Hun));
            try (pose proof (Hb "agent_llm" r2 ltac:(unfold hidden_agent_fields; repeat constructor) G2 Hun));
            try (pose proof (Hb "model_name" r3 ltac:(unfold hidden_agent_fields; repeat constructor) G3 Hun));
            by rewrite ?write_other by done).
  all: try (intros Hv; kept_at r).
  all: unfold write; cbn; repeat (destruct (Nat.eqb _ _); cbn); done.
Qed.

Lemma hidden_agent_fields_cases f :
  f ∈ hidden_agent_fields → f = "agent_llm" ∨ f = "api_key" ∨ f = "model_name".
Proof.
  unfold hidden_agent_fields. intros H.
  repeat (apply elem_of_cons in H as [->|H]; [by auto|]).
  by apply elem_of_nil in H.
Qed.

Lemma hidden_agent_fields_elem :
  "agent_llm" ∈ hidden_agent_fields ∧ "api_key" ∈ hidden_agent_fields ∧
  "model_name" ∈ hidden_agent_fields.
Proof. unfold hidden_agent_fields. repeat split; repeat constructor. Qed.

Lemma agent_defaults_no_throw ENABLE env data heap :
  (∀ f, f ∈ hidden_agent_fields →
        match template_of data f with
        | JObject _ => True
        | v => truthy v = false
        end) →
  is_Some (agent_defaults_effect ENABLE env data heap).
Proof.
  intros H.
  destruct (ENABLE && is_agent data) eqn:Hon.
  2:{ rewrite agent_defaults_off by done. by eexists. }
  apply andb_true_iff in Hon as [-> Ha].
  assert (Hnd : ∃ nd, node data = Some nd).
  { unfold is_agent in Ha. destruct (node data); [by eexists|done]. }
  destruct Hnd as [nd Hnd]. unfold template_of in H. rewrite Hnd in H.
  destruct hidden_agent_fields_elem as (E2 & E1 & E3).
  unfold agent_defaults_effect. rewrite Hnd, Ha. cbn [andb].
  destruct (set_default_total (template nd) "api_key"
              (ConfigConstants.DEFAULT_AGENT_API_KEY env) (heap, false) (H _ E1))
    as [st1 ->]. cbn [mbind option_bind].
  destruct (set_default_total (template nd) "agent_llm"
              (ConfigConstants.DEFAULT_AGENT_LLM_PROVIDER env) st1 (H _ E2))
    as [st2 ->]. cbn [mbind option_bind].
  destruct (set_default_total (template nd) "model_name"
              (ConfigConstants.DEFAULT_AGENT_MODEL_NAME env) st2 (H _ E3))
    as [[h3 b3] ->]. cbn [mbind option_bind].
  destruct b3; by eexists.
Qed.

Lemma agent_defaults_frame_witness :
  let data := mkData "n1" (Some (mkNode "Agent"
                [("api_key", JObject 0); ("agent_llm", JObject 1);
                 ("input_value", JObject 2)])) in
  let heap := λ r, mkField (if Nat.eqb r 1 then JString "Anthropic" else JUndefined)
                     true false false None "str" in
  ∃ heap' req,
    agent_defaults_effect true None data heap = Some (heap', req) ∧
    heap' 1 = heap 1 ∧ heap' 2 = heap 2 ∧ show (heap' 0) = true.
Proof.
  intros data heap.
  destruct (agent_defaults_effect true None data heap) as [[heap' req]|] eqn:H;
    [|discriminate H].
  exists heap', req. split; [reflexivity|].
  destruct (agent_defaults_frame true None data heap heap' req H) as [_ Hf].
  split; [exact (proj1 (proj2 (Hf 1)) eq_refl)|]. split.
  - apply (proj2 (proj2 (Hf 2))). intros f Hf'.
    apply hidden_agent_fields_cases in Hf' as [-> | [-> | ->]]; discriminate.
  - exact (proj1 (proj1 (Hf 0))).
Defined.

(** The effect returns, rather than throws, exactly when none of the three
    names is bound to a truthy primitive, on which the assignment to
    [value] is a TypeError; a template whose three entries are field
    objects or absent is always such. *)
Theorem agent_defaults_returns ENABLE env data heap :
  is_Some (agent_defaults_effect ENABLE env data heap) ↔
  (ENABLE && is_agent data = true →
   ∀ f, f ∈ hidden_agent_fields →
        match template_of data f with
        | JObject _ => True
        | v => truthy v = false
        end).
Proof.
  destruct (ENABLE && is_agent data) eqn:Hon.
  2:{ rewrite agent_defaults_off by done. split; [done|by eexists]. }
  apply andb_true_iff in Hon as [-> Ha].
  assert (Hnd : ∃ nd, node data = Some nd).
  { unfold is_agent in Ha. destruct (node data); [by eexists|done]. }
  destruct Hnd as [nd Hnd]. unfold template_of. rewrite Hnd. split.
  - intros [[heap' req] H] _ f Hf. effect_cases H Ha.
    all: rewrite Hnd in Hn; injection Hn as <-.
    all: apply hidden_agent_fields_cases in Hf as [-> | [-> | ->]].
    all: first [by rewrite G1|by rewrite G2|by rewrite G3|idtac].
    all: first [by destruct (get (template nd) "api_key")
               |by destruct (get (template nd) "agent_llm")
               |by destruct (get (template nd) "model_name")].
  - intros H. apply agent_defaults_no_throw. intros f Hf.
    specialize (H eq_refl f Hf). unfold template_of. by rewrite Hnd.
Qed.

Lemma agent_defaults_returns_witness :
  let data := mkData "n1" (Some (mkNode "Agent"
                [("_type", JString "Component"); ("api_key", JObject 0);
                 ("model_name", JObject 1)])) in
  is_Some (agent_defaults_effect true None data
             (λ _, mkField JUndefined true false false None "str")).
Proof.
  apply (proj2 (agent_defaults_returns true None
           (mkData "n1" (Some (mkNode "Agent"
                [("_type", JString "Component"); ("api_key", JObject 0);
                 ("model_name", JObject 1)])))
           (λ _, mkField JUndefined true false false None "str"))).
  intros _ f Hf. apply hidden_agent_fields_cases in Hf as [-> | [-> | ->]]; exact I || reflexivity.
Defined.

(** On an Agent node in builder-only mode whose three names are bound to
    different objects, the effect leaves each of the three fields with the
    value it had when that value was set, and with the default of
    [config-constants] for that field otherwise. *)
Theorem agent_defaults_filled env data heap heap' req :
  agent_defaults_effect true env data heap = Some (heap', req) →
  is_agent data = true →
  (∀ f g r, f ∈ hidden_agent_fields → g ∈ hidden_agent_fields →
            template_of data f = JObject r → template_of data g = JObject r → f = g) →
  (∀ r, template_of data "api_key" = JObject r →
        value (heap' r) =
        if truthy (value (heap r)) then value (heap r)
        else JString (ConfigConstants.DEFAULT_AGENT_API_KEY env)) ∧
  (∀ r, template_of data "agent_llm" = JObject r →
        value (heap' r) =
        if truthy (value (heap r)) then value (heap r)
        else JString (ConfigConstants.DEFAULT_AGENT_LLM_PROVIDER env)) ∧
  (∀ r, template_of data "model_name" = JObject r →
        value (heap' r) =
        if truthy (value (heap r)) then value (heap r)
        else JString (ConfigConstants.DEFAULT_AGENT_MODEL_NAME env)).
Proof.
  intros H Ha Hd.
  destruct hidden_agent_fields_elem as (E2 & E1 & E3).
  assert (D12 : ∀ r, template_of data "api_key" = JObject r →
                     template_of data "agent_llm" = JObject r → False).
  { intros r A B. by specialize (Hd _ _ r E1 E2 A B). }
  assert (D13 : ∀ r, template_of data "api_key" = JObject r →
                     template_of data "model_name" = JObject r → False).
  { intros r A B. by specialize (Hd _ _ r E1 E3 A B). }
  assert (D23 : ∀ r, template_of data "agent_llm" = JObject r →
                     template_of data "model_name" = JObject r → False).
  { intros r A B. by specialize (Hd _ _ r E2 E3 A B). }
  clear Hd. unfold template_of in *.
  effect_cases H Ha; rewrite Hn in *.
  all: repeat split; intros r Hr.
  all: repeat match goal with
       | G : get _ ?f = JObject ?r', Hr : get _ ?f = JObject _ |- _ =>
           rewrite G in Hr; injection Hr as <-
       | G : match get ?t ?f with _ => _ end, Hr : get ?t ?f = JObject _ |- _ =>
           rewrite Hr in G
       end.
  all: repeat match goal with
       | A : get _ ?f = JObject ?x, B : get _ ?g = JObject ?y |- _ =>
           lazymatch f with
           | g => fail
           | _ =>
               lazymatch goal with
               | _ : x ≠ y |- _ => fail
               | _ =>
                   assert (x ≠ y)
                     by (intros ->;
                         first [exact (D12 _ A B)|exact (D13 _ A B)|exact (D23 _ A B)
                               |exact (D12 _ B A)|exact (D13 _ B A)|exact (D23 _ B A)])
               end
           end
       end.
  all: rewrite ?write_other in * by done.
  all: rewrite ?write_same in *; cbn [value] in *.
  all: rewrite ?write_other in * by done.
  all: repeat match goal with V : truthy _ = _ |- _ => rewrite V end; done.
Qed.

Lemma agent_defaults_filled_witness :
  let data := mkData "n1" (Some (mkNode "Agent"
                [("api_key", JObject 0); ("agent_llm", JObject 1);
                 ("model_name", JObject 2)])) in
  let heap := λ r, mkField (if Nat.eqb r 1 then JString "Anthropic" else JString "")
                     true false false None "str" in
  ∃ heap' req,
    agent_defaults_effect true None data heap = Some (heap', req) ∧
    value (heap' 0) = JString "sk-default-api-key" ∧
    value (heap' 1) = JString "Anthropic" ∧
    value (heap' 2) = JString "gpt-4o-mini".
Proof.
  intros data heap.
  destruct (agent_defaults_effect true None data heap) as [[heap' req]|] eqn:H;
    [|discriminate H].
  exists heap', req. split; [reflexivity|].
  destruct (agent_defaults_filled None data heap heap' req H eq_refl) as (H1 & H2 & H3).
  - intros f g r Hf Hg.
    apply hidden_agent_fields_cases in Hf as [-> | [-> | ->]];
      apply hidden_agent_fields_cases in Hg as [-> | [-> | ->]];
      cbn; intros [= <-] [=]; reflexivity.
  - split; [exact (H1 0 eq_refl)|]. split; [exact (H2 1 eq_refl)|exact (H3 2 eq_refl)].
Defined.

(** The effect calls [setNode] exactly when, in builder-only mode on an
    Agent node, one of the three names is bound to a field object whose
    value is falsy.  The call carries the id of the node and a node with
    the bindings of the node it was given: what is new in it are the
    values the effect has already written in place. *)
Theorem agent_defaults_request ENABLE env data heap heap' req :
  agent_defaults_effect ENABLE env data heap = Some (heap', req) →
  (is_Some req ↔
   ENABLE = true ∧ is_agent data = true ∧
   ∃ f r, f ∈ hidden_agent_fields ∧ template_of data f = JObject r ∧
          truthy (value (heap r)) = false) ∧
  (∀ i u, req = Some (i, u) → i = id data ∧ node data = Some u).
Proof.
  intros H.
  destruct (ENABLE && is_agent data) eqn:Hon.
  2:{ rewrite agent_defaults_off in H by done. injection H as <- <-.
      split; [|done]. split; [by intros [? ?]|].
      intros (-> & Ha & _). by rewrite Ha in Hon. }
  apply andb_true_iff in Hon as [-> Ha].
  destruct hidden_agent_fields_elem as (E2 & E1 & E3).
  assert (Hno : ∀ n, node data = Some n →
            (∀ f, f ∈ hidden_agent_fields →
                  match get (template n) f with
                  | JObject r => truthy (value (heap r)) = true
                  | _ => True
                  end) →
            ¬ ∃ f r, f ∈ hidden_agent_fields ∧ template_of data f = JObject r ∧
                     truthy (value (heap r)) = false).
  { intros n Hn Hall (f & r & Hf & Hg & Hv). specialize (Hall f Hf).
    unfold template_of in Hg. rewrite Hn in Hg. rewrite Hg in Hall. congruence. }
  unfold template_of.
  effect_cases H Ha; rewrite Hn; subst req.
  1:{ split; [|done]. split; [by intros [? ?]|]. intros (_ & _ & Hex). exfalso.
      apply (Hno n Hn); [|by unfold template_of; rewrite Hn].
      intros f Hf. apply hidden_agent_fields_cases in Hf as [-> | [-> | ->]].
      - by destruct (get (template n) "agent_llm").
      - by destruct (get (template n) "api_key").
      - by destruct (get (template n) "model_name"). }
  all: split; [|intros i u [= <- <-]; split; [done|by destruct n]].
  all: split; [intros _|by eexists].
  all: split; [done|]; split; [done|].
  all: first [by exists "api_key", r1
             |by exists "agent_llm", r2
             |by exists "model_name", r3].
Qed.

Lemma agent_defaults_request_witness :
  let data := mkData "n1" (Some (mkNode "Agent" [("api_key", JObject 0)])) in
  let heap := λ r : nat, mkField JUndefined true false false None "str" in
  ∃ heap' req,
    agent_defaults_effect true None data heap = Some (heap', req) ∧
    is_Some req ∧
    ∀ i u, req = Some (i, u) → i = "n1" ∧ node data = Some u.
Proof.
  intros data heap.
  destruct (agent_defaults_effect true None data heap) as [[heap' req]|] eqn:H;
    [|discriminate H].
  exists heap', req. split; [reflexivity|].
  destruct (agent_defaults_request true None data heap heap' req H) as [H1 H2].
  split; [|exact H2].
  apply (proj2 H1). split; [reflexivity|]. split; [reflexivity|].
  exists "api_key", 0. split; [|split; reflexivity].
  exact (proj1 (proj2 hidden_agent_fields_elem)).
Defined.

Lemma set_default_filled t f d heap b heap' b' :
  d ≠ "" →
  set_default t f d (heap, b) = Some (heap', b') →
  match get t f with
  | JObject r => truthy (value (heap' r)) = true
  | v => truthy v = false
  end ∧
  ∀ r, truthy (value (heap r)) = true → truthy (value (heap' r)) = true.
Proof.
  intros Hd H.
  assert (Ht : truthy (JString d) = true).
  { cbn. by destruct (String.eqb_spec d ""). }
  apply set_default_cases in H as [(-> & -> & G)|(r & G & V & -> & ->)].
  - split; [|done]. by destruct (get t f).
  - rewrite G, write_same. split; [done|].
    intros r' Hr'. destruct (Nat.eq_dec r' r) as [->|?]; [by rewrite write_same|].
    by rewrite write_other.
Qed.

Lemma set_default_noop t f d heap b :
  match get t f with
  | JObject r => truthy (value (heap r)) = true
  | v => truthy v = false
  end →
  set_default t f d (heap, b) = Some (heap, b).
Proof.
  unfold set_default. cbn [fst].
  destruct (get t f); by intros ->.
Qed.

Lemma filled_mono t f heap heap' :
  (∀ r, truthy (value (heap r)) = true → truthy (value (heap' r)) = true) →
  match get t f with
  | JObject r => truthy (value (heap r)) = true
  | v => truthy v = false
  end →
  match get t f with
  | JObject r => truthy (value (heap' r)) = true
  | v => truthy v = false
  end.
Proof. intros H. destruct (get t f); try done. apply H. Qed.

(** When no default of [config-constants] is the empty string, which is
    so unless the build defines one of the three variables empty, the
    effect is idempotent: run again on the store it has left, it writes
    nothing and does not call [setNode] again. *)
Theorem agent_defaults_idempotent ENABLE env data heap heap' req :
  (∀ e, env = Some e →
        e "VITE_DEFAULT_AGENT_API_KEY" ≠ Some "" ∧
        e "VITE_DEFAULT_AGENT_LLM_PROVIDER" ≠ Some "" ∧
        e "VITE_DEFAULT_AGENT_MODEL_NAME" ≠ Some "") →
  agent_defaults_effect ENABLE env data heap = Some (heap', req) →
  agent_defaults_effect ENABLE env data heap' = Some (heap', None).
Proof.
  intros Henv H.
  assert (Hd : ConfigConstants.DEFAULT_AGENT_API_KEY env ≠ "" ∧
               ConfigConstants.DEFAULT_AGENT_LLM_PROVIDER env ≠ "" ∧
               ConfigConstants.DEFAULT_AGENT_MODEL_NAME env ≠ "").
  { unfold ConfigConstants.DEFAULT_AGENT_API_KEY,
      ConfigConstants.DEFAULT_AGENT_LLM_PROVIDER,
      ConfigConstants.DEFAULT_AGENT_MODEL_NAME.
    destruct env as [e|]; [|done].
    destruct (Henv e eq_refl) as (A & B & C).
    destruct (e "VITE_DEFAULT_AGENT_API_KEY"), (e "VITE_DEFAULT_AGENT_LLM_PROVIDER"),
      (e "VITE_DEFAULT_AGENT_MODEL_NAME"); cbn; repeat split; congruence. }
  destruct Hd as (D1 & D2 & D3).
  destruct (ENABLE && is_agent data) eqn:Hon.
  2:{ rewrite agent_defaults_off in H by done. injection H as <- <-.
      by apply agent_defaults_off. }
  apply andb_true_iff in Hon as [-> Ha].
  destruct (agent_defaults_steps _ _ _ _ _ H Ha)
    as (n & h1 & b1 & h2 & b2 & b3 & Hn & H1 & H2 & H3 & Hreq).
  destruct (set_default_filled _ _ _ _ _ _ _ D1 H1) as [F1 M1].
  destruct (set_default_filled _ _ _ _ _ _ _ D2 H2) as [F2 M2].
  destruct (set_default_filled _ _ _ _ _ _ _ D3 H3) as [F3 M3].
  apply (filled_mono _ _ _ _ M2), (filled_mono _ _ _ _ M3) in F1.
  apply (filled_mono _ _ _ _ M3) in F2.
  unfold agent_defaults_effect. rewrite Hn, Ha. cbn [andb].
  rewrite (set_default_noop _ _ _ _ _ F1). cbn [mbind option_bind].
  rewrite (set_default_noop _ _ _ _ _ F2). cbn [mbind option_bind].
  by rewrite (set_default_noop _ _ _ _ _ F3).
Qed.

Lemma agent_defaults_idempotent_witness :
  let data := mkData "n1" (Some (mkNode "Agent"
                [("api_key", JObject 0); ("agent_llm", JObject 0)])) in
  let heap := λ r : nat, mkField JNull true false false None "str" in
  ∃ heap' req,
    agent_defaults_effect true None data heap = Some (heap', req) ∧
    agent_defaults_effect true None data heap' = Some (heap', None).
Proof.
  intros data heap.
  destruct (agent_defaults_effect true None data heap) as [[heap' req]|] eqn:H;
    [|discriminate H].
  exists heap', req. split; [reflexivity|].
  apply (agent_defaults_idempotent true None data heap heap' req); [|exact H].
  intros e He. discriminate He.
Defined.

(** When the build defines [VITE_DEFAULT_AGENT_API_KEY] empty, the default
    the nullish coalescing keeps is the empty string, and the effect never
    settles on an Agent node whose [api_key] field has no value: every run
    writes the empty key again and calls [setNode] again. *)
Theorem agent_defaults_empty_key e data heap r :
  e "VITE_DEFAULT_AGENT_API_KEY" = Some "" →
  is_agent data = true →
  template_of data "api_key" = JObject r →
  truthy (value (heap r)) = false →
  (∀ f, f ∈ ["agent_llm"; "model_name"] →
        match template_of data f with
        | JObject r' => r' ≠ r
        | v => truthy v = false
        end) →
  ∀ k, ∃ heap' u,
    agent_defaults_runs true (Some e) k data heap = Some (heap', Some (id data, u)) ∧
    value (heap' r) = JString "".
Proof.
  intros He Ha Hr Hv Hother.
  assert (Hone : ∀ heap, truthy (value (heap r)) = false →
            ∃ heap' u,
              agent_defaults_effect true (Some e) data heap =
                Some (heap', Some (id data, u)) ∧
              value (heap' r) = JString "").
  { clear heap Hv. intros heap Hv.
    assert (Hs : is_Some (agent_defaults_effect true (Some e) data heap)).
    { apply agent_defaults_no_throw. intros f Hf.
      apply hidden_agent_fields_cases in Hf as [-> | [-> | ->]].
      - specialize (Hother "agent_llm" ltac:(repeat constructor)).
        by destruct (template_of data "agent_llm").
      - by rewrite Hr.
      - specialize (Hother "model_name" ltac:(repeat constructor)).
        by destruct (template_of data "model_name"). }
    destruct Hs as [[heap' req] H]. rewrite H.
    pose proof (Hother "agent_llm" ltac:(repeat constructor)) as O2.
    pose proof (Hother "model_name" ltac:(repeat constructor)) as O3.
    unfold template_of in Hr, O2, O3.
    assert (Hk : ConfigConstants.DEFAULT_AGENT_API_KEY (Some e) = "").
    { unfold ConfigConstants.DEFAULT_AGENT_API_KEY. by rewrite He. }
    effect_cases H Ha; rewrite Hn in *; subst req.
    all: rewrite ?Hr in *; try congruence.
    all: injection G1 as <-.
    all: repeat match goal with
         | G : get _ _ = JObject _, O : match get _ _ with _ => _ end |- _ =>
             rewrite G in O
         end.
    all: eexists _, _; split; [done|].
    all: rewrite ?write_other by done.
    all: by rewrite write_same, Hk. }
  intros k. revert heap Hv. induction k as [|k IH]; intros heap Hv.
  - by apply Hone.
  - destruct (Hone heap Hv) as (h1 & u & H1 & V1).
    cbn [agent_defaults_runs]. rewrite H1. apply IH. by rewrite V1.
Qed.

Lemma agent_defaults_empty_key_witness :
  let e := λ v : string, if String.eqb v "VITE_DEFAULT_AGENT_API_KEY" then Some "" else None in
  let data := mkData "n1" (Some (mkNode "Agent"
                [("api_key", JObject 0); ("model_name", JObject 1)])) in
  let heap := λ r : nat, mkField JUndefined true false false None "str" in
  ∃ heap' u,
    agent_defaults_runs true (Some e) 3 data heap = Some (heap', Some ("n1", u)) ∧
    value (heap' 0) = JString "".
Proof.
  intros e data heap.
  apply (agent_defaults_empty_key e data heap 0); try reflexivity.
  intros f Hf.
  apply elem_of_cons in Hf as [->|Hf]; [reflexivity|].
  apply elem_of_cons in Hf as [->|Hf]; [cbn; discriminate|].
  by apply elem_of_nil in Hf.
Defined.

Lemma hidden_agent_fields_eqb f :
  String.eqb f "agent_llm" || String.eqb f "api_key" || String.eqb f "model_name" = true ↔
  f ∈ hidden_agent_fields.
Proof.
  destruct hidden_agent_fields_elem as (E2 & E1 & E3). split.
  - intros H. repeat (apply orb_true_iff in H as [H|H]); apply String.eqb_eq in H; by subst.
  - intros H. apply hidden_agent_fields_cases in H as [-> | [-> | ->]]; reflexivity.
Qed.

(** In builder-only mode, the inputs an Agent node shows are those it shows
    without the mode, in the same order, less [agent_llm], [api_key] and
    [model_name]; on every other node the mode changes nothing. *)
Theorem hidden_fields_filtered helpers isToolMode data heap :
  shownTemplateFields true helpers isToolMode data heap =
  (if is_agent data
   then filter (λ f, f ∉ hidden_agent_fields)
          (shownTemplateFields false helpers isToolMode data heap)
   else shownTemplateFields false helpers isToolMode data heap) ∧
  (is_agent data = true →
   ∀ f, f ∈ hidden_agent_fields →
        f ∉ shownTemplateFields true helpers isToolMode data heap).
Proof.
  assert (Heq : shownTemplateFields true helpers isToolMode data heap =
    (if is_agent data
     then filter (λ f, f ∉ hidden_agent_fields)
            (shownTemplateFields false helpers isToolMode data heap)
     else shownTemplateFields false helpers isToolMode data heap)).
  { unfold shownTemplateFields. destruct (is_agent data) eqn:Ha.
    - rewrite list_filter_filter. apply list_filter_iff. intros f.
      unfold is_shown. rewrite Ha. cbn [andb].
      pose proof (hidden_agent_fields_eqb f) as Hh.
      destruct (String.eqb f "agent_llm" || String.eqb f "api_key" ||
                String.eqb f "model_name").
      + split; [done|]. intros [Hnot _]. destruct Hnot. by apply Hh.
      + split; [|by intros [_ ?]]. intros Hs. split; [|done].
        intros Hin. apply Hh in Hin. done.
    - apply list_filter_iff. intros f. unfold is_shown. by rewrite Ha. }
  split; [done|]. intros Ha f Hf. rewrite Heq, Ha.
  intros Hin. apply list_elem_of_filter in Hin as [Hnot _]. done.
Qed.

Lemma map_get_set {V : Type} k k' (v : V) m :
  map_get k (map_set k' v m) = if String.eqb k k' then Some v else map_get k m.
Proof.
  induction m as [|[k0 v0] m IH]; cbn.
  - by destruct (String.eqb k k').
  - destruct (String.eqb_spec k' k0) as [->|Hne]; cbn.
    + by destruct (String.eqb k k0).
    + destruct (String.eqb_spec k k0) as [->|?].
      * by rewrite (proj2 (String.eqb_neq k0 k')) by done.
      * apply IH.
Qed.

Lemma fold_map_get {V : Type} (P : string → bool) (g : string → V) l acc f :
  let m := foldl (λ m k, if P k then map_set k (g k) m else m) acc l in
  (is_Some (map_get f acc) → is_Some (map_get f m)) ∧
  (f ∈ l → P f = true → is_Some (map_get f m)).
Proof.
  revert acc. induction l as [|k l IH]; intros acc; cbn.
  - split; [done|]. by intros ?%elem_of_nil.
  - destruct (IH (if P k then map_set k (g k) acc else acc)) as [IH1 IH2].
    split.
    + intros Hacc. apply IH1. destruct (P k); [|done].
      rewrite map_get_set. by destruct (String.eqb f k).
    + intros [->|Hin]%elem_of_cons HP; [|by apply IH2].
      apply IH1. rewrite HP, map_get_set, String.eqb_refl. by eexists.
Qed.

Lemma is_shown_object ENABLE isToolMode data heap f :
  is_shown ENABLE isToolMode data heap f = true →
  ∃ r, template_of data f = JObject r ∧
       show (heap r) = true ∧ advanced (heap r) = false ∧
       tool_mode (heap r) && isToolMode = false.
Proof.
  unfold is_shown. destruct (_ && _ && _); [done|].
  destruct (template_of data f) as [| | | | |r]; cbn; try done.
  intros H. exists r.
  apply andb_true_iff in H as [H H3]. apply andb_true_iff in H as [H1 H2].
  apply negb_true_iff in H2, H3. done.
Qed.

Lemma shown_memoized ENABLE helpers isToolMode data heap f :
  f ∈ shownTemplateFields ENABLE helpers isToolMode data heap →
  is_Some (map_get f (memoizedColors helpers isToolMode data heap)) ∧
  is_Some (map_get f (memoizedKeys helpers isToolMode data heap)).
Proof.
  intros [Hs Hin]%list_elem_of_filter.
  destruct (is_shown_object _ _ _ _ _ Hs) as (r & Hr & _).
  assert (Ht : truthy (template_of data f) = true) by by rewrite Hr.
  split.
  - exact (proj2 (fold_map_get (λ k, truthy (template_of data k))
             (λ k, mkColorEntry
                     (getNodeInputColors helpers
                        (input_types_of heap (template_of data k))
                        (type_of heap (template_of data k)))
                     (getNodeInputColorsName helpers
                        (input_types_of heap (template_of data k))
                        (type_of heap (template_of data k))))
             (templateFields helpers isToolMode data heap) [] f) Hin Ht).
  - exact (proj2 (fold_map_get (λ k, truthy (template_of data k))
             (λ k, scapedJSONStringfy helpers
                     (input_types_of heap (template_of data k))
                     (type_of heap (template_of data k)) (id data) k)
             (templateFields helpers isToolMode data heap) [] f) Hin Ht).
Qed.

Lemma renderFrom_total ENABLE helpers {Output : Type} isToolMode
    (shownOutputs : list Output) showHiddenOutputs data heap fields idx :
  (∀ f, f ∈ fields → f ∈ shownTemplateFields ENABLE helpers isToolMode data heap) →
  ∃ ps,
    renderFrom ENABLE helpers isToolMode shownOutputs showHiddenOutputs data heap idx fields =
      Some ps ∧
    map name ps = fields ∧
    ∀ i p, ps !! i = Some p →
      props_isToolMode p = false ∧
      lastInput p =
        negb (Nat.ltb 0 (length shownOutputs) || showHiddenOutputs) &&
        (Z.of_nat (idx + i) =?
         Z.of_nat (length (shownTemplateFields ENABLE helpers isToolMode data heap)) - 1)%Z ∧
      is_Some (key p) ∧
      ∃ r, template_of data (name p) = JObject r ∧
           show (heap r) = true ∧ advanced (heap r) = false.
Proof.
  revert idx. induction fields as [|f fields IH]; intros idx Hall.
  - exists []. split; [done|]. split; [done|]. intros i p Hp. by rewrite lookup_nil in Hp.
  - destruct (IH (S idx)) as (ps & Hps & Hnames & Hprops).
    { intros g Hg. apply Hall. by right. }
    assert (Hf : f ∈ shownTemplateFields ENABLE helpers isToolMode data heap)
      by (apply Hall; by left).
    destruct (shown_memoized _ _ _ _ _ _ Hf) as [[mc Hmc] [mk Hmk]].
    apply list_elem_of_filter in Hf as [Hs _].
    destruct (is_shown_object _ _ _ _ _ Hs) as (r & Hr & Hshow & Hadv & Htool).
    cbn [renderFrom]. rewrite Hps. unfold renderField. rewrite Hmc, Hmk, Hr.
    eexists. split; [reflexivity|]. split; [cbn; by rewrite Hnames|].
    intros [|i] p Hp.
    + injection Hp as <-. cbn. rewrite Nat.add_0_r.
      split; [by rewrite andb_comm|]. split; [done|]. split; [by eexists|].
      exists r. by rewrite Hr.
    + cbn in Hp. destruct (Hprops i p Hp) as (? & Hl & ? & ?).
      split; [done|]. split; [|done]. rewrite Hl. by rewrite Nat.add_succ_r.
Qed.

(** Rendering the inputs never throws: every shown field has its entry in
    [memoizedColors] and in [memoizedKeys] and is bound to a field object,
    so that neither [memoizedColor.colors] nor [template.info] reads a
    property of undefined.  One [NodeInputField] is rendered for each
    shown field, in order; each renders a field object that is shown and
    not advanced, with a key that is defined; none of them receives a true
    [isToolMode]; and [lastInput] is true for the last of them alone, and
    for it only when no output is shown. *)
Theorem render_inputs_total ENABLE helpers (Output : Type) isToolMode
    (shownOutputs : list Output) showHiddenOutputs data heap :
  ∃ ps,
    renderInputParameter ENABLE helpers isToolMode shownOutputs showHiddenOutputs data heap =
      Some ps ∧
    map name ps = shownTemplateFields ENABLE helpers isToolMode data heap ∧
    ∀ i p, ps !! i = Some p →
      props_isToolMode p = false ∧
      lastInput p =
        negb (Nat.ltb 0 (length shownOutputs) || showHiddenOutputs) &&
        bool_decide (S i = length ps) ∧
      is_Some (key p) ∧
      ∃ r, template_of data (name p) = JObject r ∧
           show (heap r) = true ∧ advanced (heap r) = false.
Proof.
  destruct (renderFrom_total ENABLE helpers isToolMode shownOutputs showHiddenOutputs
              data heap (shownTemplateFields ENABLE helpers isToolMode data heap) 0)
    as (ps & Hps & Hnames & Hprops); [done|].
  exists ps. split; [done|]. split; [done|].
  intros i p Hp. destruct (Hprops i p Hp) as (H1 & H2 & H3 & H4).
  split; [done|]. split; [|done]. rewrite H2. f_equal.
  rewrite <- Hnames, length_map. cbn [Nat.add].
  case_bool_decide; [apply Z.eqb_eq|apply Z.eqb_neq]; lia.
Qed.

End RenderInputParametersFacts.
